(** * The SSH orchestration layer of Autobackup: a shallow embedding

    The development follows the Python package [src/ssh]:
    [base.py], [exceptions.py], [formatter.py], [responders.py],
    [connection.py], [session.py], [commands.py] and [group.py], and the
    caller of the package, [src/features/backups/runner.py].

    Conventions of the embedding.
    - Text is [string]; the remote output is taken to be ASCII, where the
      regular expression class [\d] is the range 0-9.
    - A compiled regular expression is its [search] predicate on text.  The
      exit-code pattern [rf"{delim}:(\d+)"] is written out for a delimiter
      that is a literal (no regular-expression metacharacter), as is every
      delimiter of the package.
    - Python integers are [Z]; wall-clock time is [N], in milliseconds.
    - Methods that touch the channel run in a state-and-exception monad over
      [world]: the fields the objects hold, the lines written to the channel
      and the stream of what the remote side delivers.
    - The channel is reliable: [send] writes the whole line, and only
      [close] closes the channel.  What the remote side does is not fixed:
      the theorems hold for every stream of events.
    - Console printing ([hide], [verbose]) has no effect on results and is
      left out. *)

From Stdlib Require Import String Ascii List Bool ZArith NArith Lia.
From Stdlib Require Import DecimalString DecimalN DecimalPos.
Import ListNotations.

Open Scope string_scope.
Open Scope Z_scope.

(** ** Python strings *)

Module PyStr.

Definition chr (n : nat) : string := String (ascii_of_nat n) "".

(** Line feed, double quote and single quote. *)
Definition LF : string := chr 10.
Definition DQUOTE : string := chr 34.
Definition SQUOTE : string := chr 39.

(** [str.isspace] on ASCII: TAB..CR, FS..US and the blank. *)
Definition is_space (c : ascii) : bool :=
  let n := nat_of_ascii c in
  ((9 <=? n) && (n <=? 13) || (28 <=? n) && (n <=? 32))%nat.

(** [\d] on ASCII. *)
Definition is_digit (c : ascii) : bool :=
  let n := nat_of_ascii c in ((48 <=? n) && (n <=? 57))%nat.

Definition digit_value (c : ascii) : N := N.of_nat (nat_of_ascii c - 48).

Fixpoint lstrip (s : string) : string :=
  match s with
  | String c s' => if is_space c then lstrip s' else s
  | EmptyString => EmptyString
  end.

Fixpoint rstrip (s : string) : string :=
  match s with
  | String c s' =>
      match rstrip s' with
      | EmptyString => if is_space c then EmptyString else String c EmptyString
      | r => String c r
      end
  | EmptyString => EmptyString
  end.

(** [s.strip()] *)
Definition strip (s : string) : string := rstrip (lstrip s).

(** [sep.join(parts)] *)
Fixpoint join (sep : string) (parts : list string) : string :=
  match parts with
  | [] => ""
  | [p] => p
  | p :: ps => p ++ sep ++ join sep ps
  end.

(** [s.replace(old_char, new)] for a one-character [old_char]. *)
Fixpoint replace_char (old : ascii) (new : string) (s : string) : string :=
  match s with
  | String c s' =>
      (if Ascii.eqb c old then new else String c "") ++ replace_char old new s'
  | EmptyString => EmptyString
  end.

(** [s.startswith(p)], returning what follows the prefix. *)
Fixpoint strip_prefix (p s : string) : option string :=
  match p, s with
  | EmptyString, _ => Some s
  | String a p', String b s' =>
      if Ascii.eqb a b then strip_prefix p' s' else None
  | String _ _, EmptyString => None
  end.

(** [needle in s] *)
Fixpoint contains (needle s : string) : bool :=
  match strip_prefix needle s with
  | Some _ => true
  | None =>
      match s with
      | String _ s' => contains needle s'
      | EmptyString => false
      end
  end.

(** The longest run of digits at the head of [s], and what follows it. *)
Fixpoint span_digits (s : string) : string * string :=
  match s with
  | String c s' =>
      if is_digit c
      then let (ds, rest) := span_digits s' in (String c ds, rest)
      else (EmptyString, s)
  | EmptyString => (EmptyString, EmptyString)
  end.

Fixpoint int_acc (s : string) (acc : N) : N :=
  match s with
  | String c s' => int_acc s' (10 * acc + digit_value c)
  | EmptyString => acc
  end.

(** [int(s)] for a string of decimal digits. *)
Definition int (s : string) : Z := Z.of_N (int_acc s 0).

(** [str(n)] for [n >= 0], and [str(z)]. *)
Definition str_of_N (n : N) : string := NilEmpty.string_of_uint (N.to_uint n).

Definition str_of_Z (z : Z) : string :=
  match z with
  | Zneg p => "-" ++ str_of_N (Npos p)
  | _ => str_of_N (Z.to_N z)
  end.

End PyStr.

(** ** base.py *)

(** [InternalExitCode(IntEnum)]; [exit_code_value] is the integer a member stands for. *)
Inductive InternalExitCode : Set :=
| UNSET
| EXIT_CODE_NOT_FOUND
| BREAK_TRIGGERED.

Definition exit_code_value (c : InternalExitCode) : Z :=
  match c with
  | UNSET => -9999
  | EXIT_CODE_NOT_FOUND => -1
  | BREAK_TRIGGERED => -2
  end.

Coercion exit_code_value : InternalExitCode >-> Z.

Record SSHConnectionData : Set := {
  host : string;
  user : string;
  password : string;
  port : Z;
  internal_host : option string
}.

(** ** exceptions.py, with the built-in exceptions the package raises *)

(** An exception instance.  The message is kept where it is a function of
    modelled text; [TransportError] stands for whatever paramiko's [connect]
    raises. *)
Inductive exn : Set :=
| RuntimeError (msg : string)
| NotImplementedError (msg : string)
| TimeoutError
| PromptTimeoutError
| CommandTimeoutError
| FileNotFoundError (path : string)
| GatewaySSHConnectionError (msg : string)
| TargetSSHConnectionError (msg : string)
| ExitCodeNotFoundError
| GatewaySessionInactiveError (msg : string)
| TargetSessionInactiveError (msg : string)
| InvalidTargetCommandError
| AttributeError
| TransportError.

(** The classes an [except] clause of the package names. *)
Inductive exn_class : Set :=
| cException
| cRuntimeError
| cTimeoutError
| cCommandTimeoutError
| cExitCodeNotFoundError
| cGatewaySSHConnectionError
| cTargetSSHConnectionError
| cGatewaySessionInactiveError
| cTargetSessionInactiveError.

(** [isinstance(e, cls)], following the class hierarchy: [NotImplementedError]
    derives from [RuntimeError], the two timeout errors of the package from
    [TimeoutError], the session and connection errors from [Exception]. *)
Definition isinstance (e : exn) (cls : exn_class) : bool :=
  match cls, e with
  | cException, _ => true
  | cRuntimeError, (RuntimeError _ | NotImplementedError _) => true
  | cTimeoutError, (TimeoutError | PromptTimeoutError | CommandTimeoutError) => true
  | cCommandTimeoutError, CommandTimeoutError => true
  | cExitCodeNotFoundError, ExitCodeNotFoundError => true
  | cGatewaySSHConnectionError, GatewaySSHConnectionError _ => true
  | cTargetSSHConnectionError, TargetSSHConnectionError _ => true
  | cGatewaySessionInactiveError, GatewaySessionInactiveError _ => true
  | cTargetSessionInactiveError, TargetSessionInactiveError _ => true
  | _, _ => false
  end.

(** [str(e)] *)
Definition exn_str (e : exn) : string :=
  match e with
  | RuntimeError m | NotImplementedError m | GatewaySSHConnectionError m
  | TargetSSHConnectionError m | GatewaySessionInactiveError m
  | TargetSessionInactiveError m => m
  | FileNotFoundError p => "Script not found: " ++ p
  | ExitCodeNotFoundError => "Could not find exit code delimiter in output."
  | _ => ""
  end.

(** The outcome of a call: a value, or a raised exception. *)
Inductive result (A : Type) : Type :=
| Ok (a : A)
| Raise (e : exn).

Arguments Ok {A} a.
Arguments Raise {A} e.

(** ** formatter.py *)

Module CommandFormatter.
Import PyStr.

Definition regular_command (command exitcode_delimiter : string)
           (run_as_root : bool) : string :=
  let base_cmd := strip command in
  let full_cmd := base_cmd ++ "; echo " ++ exitcode_delimiter ++ ":$?" in
  if run_as_root then "sudo su root -c " ++ full_cmd else full_cmd.

(** [shlex.quote]: the characters that need no quoting. *)
Definition shlex_safe (c : ascii) : bool :=
  let n := nat_of_ascii c in
  ((48 <=? n) && (n <=? 57) || (65 <=? n) && (n <=? 90)
   || (97 <=? n) && (n <=? 122)
   || existsb (Nat.eqb n) [95; 64; 37; 43; 61; 58; 44; 46; 47; 45])%nat.

Fixpoint all_chars (f : ascii -> bool) (s : string) : bool :=
  match s with
  | String c s' => f c && all_chars f s'
  | EmptyString => true
  end.

Definition shlex_quote (s : string) : string :=
  match s with
  | EmptyString => SQUOTE ++ SQUOTE
  | _ =>
      if all_chars shlex_safe s then s
      else SQUOTE
           ++ replace_char (ascii_of_nat 39)
                (SQUOTE ++ DQUOTE ++ SQUOTE ++ DQUOTE ++ SQUOTE) s
           ++ SQUOTE
  end.

Definition bash_script_from_string (script_content exitcode_delimiter : string)
           (args : option (list string)) (run_as_root : bool) : string :=
  let args := match args with Some a => a | None => [] end in
  let quoted := map shlex_quote args in
  let joined_args := join " " quoted in
  let cmd :=
    SQUOTE ++ "bash -s " ++ joined_args ++ SQUOTE ++ " << " ++ DQUOTE ++ "EOF"
    ++ DQUOTE ++ " ; echo " ++ exitcode_delimiter ++ ":$? " ++ LF
    ++ script_content ++ LF ++ DQUOTE ++ "EOF" ++ DQUOTE ++ LF in
  if run_as_root then "sudo su root -c " ++ cmd else cmd.

(** The local file system, as [bash_script_from_local_file] reads it. *)
Definition filesystem := list (string * string).

Fixpoint read_text (fs : filesystem) (path : string) : option string :=
  match fs with
  | (p, content) :: fs' => if String.eqb p path then Some content else read_text fs' path
  | [] => None
  end.

Definition bash_script_from_local_file (fs : filesystem)
           (filepath exitcode_delimiter : string)
           (args : option (list string)) (run_as_root : bool) : result string :=
  match read_text fs filepath with
  | None => Raise (FileNotFoundError filepath)
  | Some script_content =>
      Ok (bash_script_from_string script_content exitcode_delimiter args run_as_root)
  end.

(** One attempt of [rf"{delim}:(\d+)"] at the head of [s]: group 1. *)
Definition match_exitcode_here (exitcode_delimiter s : string) : option string :=
  match strip_prefix (exitcode_delimiter ++ ":") s with
  | Some rest =>
      match fst (span_digits rest) with
      | EmptyString => None
      | ds => Some ds
      end
  | None => None
  end.

(** [re.search(rf"{delim}:(\d+)", output)]: the leftmost match, as
    [(output[:match.start()], match.group(1))]. *)
Fixpoint search_exitcode (exitcode_delimiter output : string)
  : option (string * string) :=
  match match_exitcode_here exitcode_delimiter output with
  | Some ds => Some (EmptyString, ds)
  | None =>
      match output with
      | String c output' =>
          match search_exitcode exitcode_delimiter output' with
          | Some (before, ds) => Some (String c before, ds)
          | None => None
          end
      | EmptyString => None
      end
  end.

Definition extract_exit_code (output exitcode_delimiter : string)
  : result (Z * string) :=
  match search_exitcode exitcode_delimiter output with
  | None => Raise ExitCodeNotFoundError
  | Some (clean_output, ds) => Ok (int ds, clean_output)
  end.

Definition set_shell_env_variable_raw_command (key value : string) : string :=
  "setenv " ++ key ++ " " ++ value.

End CommandFormatter.


(** ** responders.py *)

(** A compiled regular expression, as its [search] predicate. *)
Definition pattern : Type := string -> bool.

Record Responder : Type := {
  _compiled_regex : pattern;
  response : string
}.

Module Responders.
Import PyStr.

Definition lower_char (c : ascii) : ascii :=
  let n := nat_of_ascii c in
  if ((65 <=? n) && (n <=? 90))%nat then ascii_of_nat (n + 32) else c.

Fixpoint lower (s : string) : string :=
  match s with
  | String c s' => String (lower_char c) (lower s')
  | EmptyString => EmptyString
  end.

(** The text up to the next line feed: what [.*] can cover. *)
Fixpoint line_head (s : string) : string :=
  match s with
  | String c s' =>
      if Ascii.eqb c (ascii_of_nat 10) then EmptyString else String c (line_head s')
  | EmptyString => EmptyString
  end.

(** [search] for a pattern given by its match attempt at one position. *)
Fixpoint search_by (here : string -> bool) (s : string) : bool :=
  here s ||
  match s with
  | String _ s' => search_by here s'
  | EmptyString => false
  end.

(** [(?i)are you sure you want to continue connecting .+yes/no.*] *)
Definition fingerprint_pattern : pattern := fun s =>
  search_by
    (fun t =>
       match strip_prefix "are you sure you want to continue connecting " t with
       | Some rest =>
           match line_head rest with
           | String _ r => contains "yes/no" r
           | EmptyString => false
           end
       | None => false
       end)
    (lower s).

(** [(?i)password:] *)
Definition sudo_password_pattern : pattern := fun s =>
  contains "password:" (lower s).

(** [(?i)password\s.*:] *)
Definition login_password_pattern : pattern := fun s =>
  search_by
    (fun t =>
       match strip_prefix "password" t with
       | Some (String c rest) => is_space c && contains ":" (line_head rest)
       | _ => false
       end)
    (lower s).

Definition SSH_CONNECTION_YES_NO_FINGERPRINT_RESPONDER : Responder :=
  {| _compiled_regex := fingerprint_pattern; response := "yes" ++ LF |}.

Definition get_sudo_password_responder (password : string) : Responder :=
  {| _compiled_regex := sudo_password_pattern; response := password ++ LF |}.

Definition get_ssh_login_password_responder (password : string) : Responder :=
  {| _compiled_regex := login_password_pattern; response := password ++ LF |}.

End Responders.

(** ** The world a session runs in *)

(** [SSHConnection.channel]: [None], an open channel, or a closed one. *)
Inductive channel_state : Set :=
| NoChannel
| ChannelOpen
| ChannelClosed.

(** What the transport does between two polls of the channel: time passes
    ([lag], in milliseconds) and text may arrive. *)
Record event : Set := {
  lag : N;
  arrives : option string
}.

Record world : Type := {
  (** the gateway [SSHConnection] object *)
  channel : channel_state;
  (** [RecursiveSSHSession.target_data] *)
  target_data : SSHConnectionData;
  (** [time.time()] *)
  clock : N;
  (** received by the channel and not yet read *)
  pending : string;
  (** what the remote side will deliver, poll after poll *)
  inbox : list event;
  (** the outcome of each coming transport-level connect: reached or not *)
  dial : list bool;
  (** every text written to the channel, oldest first *)
  sent : list string;
  (** local script files *)
  files : CommandFormatter.filesystem
}.

Definition with_channel (c : channel_state) (w : world) : world :=
  {| channel := c; target_data := target_data w; clock := clock w;
     pending := pending w; inbox := inbox w; dial := dial w; sent := sent w;
     files := files w |}.

Definition with_target_data (t : SSHConnectionData) (w : world) : world :=
  {| channel := channel w; target_data := t; clock := clock w;
     pending := pending w; inbox := inbox w; dial := dial w; sent := sent w;
     files := files w |}.

Definition with_clock (t : N) (w : world) : world :=
  {| channel := channel w; target_data := target_data w; clock := t;
     pending := pending w; inbox := inbox w; dial := dial w; sent := sent w;
     files := files w |}.

Definition with_pending (p : string) (w : world) : world :=
  {| channel := channel w; target_data := target_data w; clock := clock w;
     pending := p; inbox := inbox w; dial := dial w; sent := sent w;
     files := files w |}.

Definition with_inbox (i : list event) (w : world) : world :=
  {| channel := channel w; target_data := target_data w; clock := clock w;
     pending := pending w; inbox := i; dial := dial w; sent := sent w;
     files := files w |}.

Definition with_dial (d : list bool) (w : world) : world :=
  {| channel := channel w; target_data := target_data w; clock := clock w;
     pending := pending w; inbox := inbox w; dial := d; sent := sent w;
     files := files w |}.

Definition with_sent (s : list string) (w : world) : world :=
  {| channel := channel w; target_data := target_data w; clock := clock w;
     pending := pending w; inbox := inbox w; dial := dial w; sent := s;
     files := files w |}.

(** ** Calls: state passing with exceptions *)

Definition M (A : Type) : Type := world -> result A * world.

Definition ret {A : Type} (a : A) : M A := fun w => (Ok a, w).

Definition raise {A : Type} (e : exn) : M A := fun w => (Raise e, w).

Definition bind {A B : Type} (m : M A) (k : A -> M B) : M B :=
  fun w =>
    match m w with
    | (Ok a, w') => k a w'
    | (Raise e, w') => (Raise e, w')
    end.

(** [try: m except ...: handler]: [handler e] is [None] when no clause
    catches [e]. *)
Definition try_except {A : Type} (m : M A) (handler : exn -> option (M A)) : M A :=
  fun w =>
    match m w with
    | (Ok a, w') => (Ok a, w')
    | (Raise e, w') =>
        match handler e with
        | Some h => h w'
        | None => (Raise e, w')
        end
    end.

Declare Scope py_scope.
Delimit Scope py_scope with py.
Notation "x <- m ;; k" := (bind m (fun x => k))
  (at level 61, m at next level, right associativity) : py_scope.
Notation "' pat <- m ;; k" := (bind m (fun x => match x with pat => k end))
  (at level 61, pat pattern, m at next level, right associativity) : py_scope.
Notation "m ;; k" := (bind m (fun _ => k))
  (at level 61, right associativity) : py_scope.
Open Scope py_scope.

(** [if x:] for an optional text. *)
Definition truthy (x : option string) : bool :=
  match x with
  | Some (String _ _) => true
  | _ => false
  end.

(** ** The clock and the channel *)

Definition time_time : M N := fun w => (Ok (clock w), w).

Definition time_sleep (ms : N) : M unit :=
  fun w => (Ok tt, with_clock (clock w + ms)%N w).

(** [text[:n]] and [text[n:]] *)
Fixpoint take (n : N) (s : string) : string :=
  match s with
  | String c s' => if (n =? 0)%N then EmptyString else String c (take (N.pred n) s')
  | EmptyString => EmptyString
  end.

Fixpoint skip (n : N) (s : string) : string :=
  match s with
  | String _ s' => if (n =? 0)%N then s else skip (N.pred n) s'
  | EmptyString => EmptyString
  end.

(** [channel.recv_ready()] followed, when it holds, by
    [channel.recv(nbytes).decode("utf-8")].  The poll lets the next event of
    the transport happen. *)
Definition poll_recv (nbytes : N) : M (option string) :=
  fun w =>
    let w1 :=
      match inbox w with
      | [] => w
      | ev :: evs =>
          with_inbox evs
            (with_clock (clock w + lag ev)%N
               (match arrives ev with
                | Some text => with_pending (pending w ++ text) w
                | None => w
                end))
      end in
    match pending w1 with
    | EmptyString => (Ok None, w1)
    | buffered =>
        (Ok (Some (take nbytes buffered)),
         with_pending (skip nbytes buffered) w1)
    end.

(** ** connection.py *)

Module SSHConnection.
Import PyStr.

Definition RECV_BUFFER_SIZE : N := 4096.

(** Polls are 0.1 s apart, so a loop with a deadline of [timeout]
    milliseconds goes round at most [timeout / 100 + 1] times. *)
Definition rounds (timeout : N) : nat := S (N.to_nat (timeout / 100)).

Definition ensure_channel_ready : M unit :=
  fun w =>
    match channel w with
    | ChannelOpen => (Ok tt, w)
    | _ => (Raise (RuntimeError "SSH channel is not active or already closed."), w)
    end.

Definition flush (nbytes : N) : M (option string) :=
  ensure_channel_ready ;;
  poll_recv nbytes.

Definition channel_send (text : string) : M N :=
  fun w => (Ok (N.of_nat (String.length text)), with_sent (sent w ++ [text])%list w).

Definition send (cmd : string) (wait : N) : M N :=
  ensure_channel_ready ;;
  out <- channel_send (cmd ++ LF) ;;
  time_sleep wait ;;
  ret out.

Fixpoint expect_loop (fuel : nat) (regex : pattern) (timeout start_time : N)
         (output : string) : M string :=
  now <- time_time ;;
  if (now - start_time <? timeout)%N then
    match fuel with
    | O => raise TimeoutError
    | S fuel' =>
        r <- poll_recv RECV_BUFFER_SIZE ;;
        match r with
        | Some chunk =>
            let output := output ++ chunk in
            if regex output then ret output
            else time_sleep 100 ;;
                 expect_loop fuel' regex timeout start_time output
        | None =>
            time_sleep 100 ;;
            expect_loop fuel' regex timeout start_time output
        end
    end
  else raise TimeoutError.

Definition expect (regex : pattern) (timeout : N) : M string :=
  ensure_channel_ready ;;
  start_time <- time_time ;;
  expect_loop (rounds timeout) regex timeout start_time "".

(** [client.connect(...)], then the session channel with its pty and shell. *)
Definition open_shell : M unit :=
  fun w =>
    match dial w with
    | true :: rest => (Ok tt, with_channel ChannelOpen (with_dial rest w))
    | false :: rest => (Raise TransportError, with_dial rest w)
    | [] => (Raise TransportError, w)
    end.

Definition connect (connection_timeout shell_prompt_timeout : N)
           (shell_prompt_pattern : pattern) : M unit :=
  open_shell ;;
  time_sleep 1000 ;;
  try_except
    (expect shell_prompt_pattern shell_prompt_timeout ;; ret tt)
    (fun e => if isinstance e cTimeoutError
              then Some (raise PromptTimeoutError) else None).

Definition close : M unit :=
  fun w =>
    match channel w with
    | NoChannel => (Ok tt, w)
    | _ => (Ok tt, with_channel ChannelClosed w)
    end.

(** [output_chunks[-1]] and [output_chunks[-1] += chunk] *)
Definition last_chunk (output_chunks : list string) : string :=
  last output_chunks "".

Definition extend_last (output_chunks : list string) (chunk : string)
  : list string :=
  (removelast output_chunks ++ [(last_chunk output_chunks ++ chunk)%string])%list.

(** The [for responder in responders] block of one round. *)
Fixpoint fire_responders (responders : list Responder)
         (output_chunks : list string) : M (list string) :=
  match responders with
  | [] => ret output_chunks
  | responder :: responders' =>
      if _compiled_regex responder (last_chunk output_chunks) then
        send (response responder) 500 ;;
        out <- flush 9999 ;;
        fire_responders responders'
          (if truthy out
           then (output_chunks ++ [match out with Some o => o | None => "" end])%list
           else output_chunks)
      else fire_responders responders' output_chunks
  end.

Definition exitcode_pattern (exitcode_delimiter : string) : pattern :=
  fun s =>
    match CommandFormatter.search_exitcode exitcode_delimiter s with
    | Some _ => true
    | None => false
    end.

(** [break_on_pattern and break_on_pattern.search(text)] *)
Definition break_matches (break_on_pattern : option pattern) (text : string)
  : bool :=
  match break_on_pattern with
  | Some p => p text
  | None => false
  end.

(** How one round of the [while True] loop of [_run_raw] ends: at a
    [break], with the value [exit_code] has then, or at the [time.sleep]
    before the next round. *)
Inductive round_outcome : Type :=
| Break (exit_code : Z) (output_chunks : list string)
| Continue (output_chunks : list string).

(** The body of the loop, after the deadline check. *)
Definition run_round (exitcode_delimiter : string)
           (responders : list Responder) (break_on_pattern : option pattern)
           (output_chunks : list string) : M round_outcome :=
  r <- poll_recv RECV_BUFFER_SIZE ;;
  let output_chunks :=
    match r with
    | Some chunk => extend_last output_chunks chunk
    | None => output_chunks
    end in
  output_chunks <- fire_responders responders output_chunks ;;
  if exitcode_pattern exitcode_delimiter (last_chunk output_chunks)
  then ret (Break UNSET output_chunks)
  else if break_matches break_on_pattern (last_chunk output_chunks)
  then ret (Break BREAK_TRIGGERED output_chunks)
  else time_sleep 100 ;;
       ret (Continue output_chunks).

Fixpoint run_loop (fuel : nat) (exitcode_delimiter : string) (timeout : N)
         (responders : list Responder) (break_on_pattern : option pattern)
         (start_time : N) (output_chunks : list string)
  : M (Z * list string) :=
  now <- time_time ;;
  if (timeout <? now - start_time)%N then raise CommandTimeoutError
  else
    match fuel with
    | O => raise CommandTimeoutError
    | S fuel' =>
        o <- run_round exitcode_delimiter responders break_on_pattern
               output_chunks ;;
        match o with
        | Break exit_code output_chunks => ret (exit_code, output_chunks)
        | Continue output_chunks =>
            run_loop fuel' exitcode_delimiter timeout responders
              break_on_pattern start_time output_chunks
        end
    end.

(** [_run_raw] up to the end of its loop: the value of [exit_code] and the
    chunks gathered when the loop is left. *)
Definition run_until_break (formatted_command exitcode_delimiter : string)
           (timeout : N) (responders : option (list Responder))
           (break_on : option pattern) : M (Z * list string) :=
  ensure_channel_ready ;;
  let responders := match responders with Some rs => rs | None => [] end in
  bytes_sent <- send formatted_command 0 ;;
  _ <- flush bytes_sent ;;
  start_time <- time_time ;;
  run_loop (rounds timeout) exitcode_delimiter timeout responders break_on
    start_time [""].

(** [_run_raw] from the final flush on. *)
Definition decode_transcript (exitcode_delimiter : string) (exit_code : Z)
           (output_chunks : list string) : M (string * Z) :=
  out <- flush 9999 ;;
  let output_chunks :=
    if truthy out
    then (output_chunks ++ [match out with Some o => o | None => "" end])%list
    else output_chunks in
  let full_output := String.concat "" output_chunks in
  if exit_code =? UNSET then
    match CommandFormatter.extract_exit_code full_output exitcode_delimiter with
    | Ok (exit_code, full_output) => ret (full_output, exit_code)
    | Raise e =>
        if isinstance e cExitCodeNotFoundError
        then ret (full_output, exit_code_value EXIT_CODE_NOT_FOUND)
        else raise e
    end
  else ret (full_output, exit_code).

Definition _run_raw (formatted_command exitcode_delimiter : string)
           (timeout : N) (responders : option (list Responder))
           (break_on : option pattern) : M (string * Z) :=
  '(exit_code, output_chunks) <-
    run_until_break formatted_command exitcode_delimiter timeout responders
      break_on ;;
  decode_transcript exitcode_delimiter exit_code output_chunks.

Definition run (command : string) (timeout : N)
           (responders : option (list Responder)) (break_on : option pattern)
           (exitcode_delimiter : string) : M (string * Z) :=
  let cmd := CommandFormatter.regular_command command exitcode_delimiter false in
  _run_raw cmd exitcode_delimiter timeout responders break_on.

(** [bash_script_from_local_file] or [bash_script_from_string], as
    [from_file] says. *)
Definition format_script (script : string) (args : option (list string))
           (from_file : bool) (exitcode_delimiter : string)
           (run_as_root : bool) : M string :=
  fun w =>
    if from_file then
      (CommandFormatter.bash_script_from_local_file (files w) script
         exitcode_delimiter args run_as_root, w)
    else
      (Ok (CommandFormatter.bash_script_from_string script exitcode_delimiter
             args run_as_root), w).

Definition run_bash_script (script : string) (args : option (list string))
           (from_file : bool) (timeout : N)
           (responders : option (list Responder)) (break_on : option pattern)
           (exitcode_delimiter : string) : M (string * Z) :=
  cmd <- format_script script args from_file exitcode_delimiter false ;;
  _run_raw cmd exitcode_delimiter timeout responders break_on.

Definition run_as_root (command password : string) (timeout : N)
           (responders : option (list Responder)) (break_on : option pattern)
           (exitcode_delimiter : string) : M (string * Z) :=
  let cmd := CommandFormatter.regular_command command exitcode_delimiter true in
  let password_responder := Responders.get_sudo_password_responder password in
  let responders :=
    match responders with
    | None => [password_responder]
    | Some rs => ([password_responder] ++ rs)%list
    end in
  _run_raw cmd exitcode_delimiter timeout (Some responders) break_on.

Definition run_bash_script_as_root (script password : string)
           (args : option (list string)) (from_file : bool) (timeout : N)
           (responders : option (list Responder)) (break_on : option pattern)
           (exitcode_delimiter : string) : M (string * Z) :=
  cmd <- format_script script args from_file exitcode_delimiter true ;;
  let password_responder := Responders.get_sudo_password_responder password in
  let all_responders :=
    match responders with
    | Some rs => ([password_responder] ++ rs)%list
    | None => [password_responder]
    end in
  _run_raw cmd exitcode_delimiter timeout (Some all_responders) break_on.

End SSHConnection.

(** ** session.py *)

Module RecursiveSSHSession.
Import PyStr.

Definition SSH_TARGET_CONNECTION_EXITCODE : string := "__SSH_TARGET_CONNECTION_EXITCODE".
Definition TARGET_SESSION_EXITCODE_DELIMITER : string := "__TARGET_EXITCODE".

Definition TARGET_SESSION_VAR : string := "__TARGET_SESSION".
Definition GATEWAY_SESSION_VAR : string := "__GATEWAY_SESSION".
Definition SESSION_VAR_VALUE : string := "__OK__".

(** The default of [exitcode_delimiter] in [SSHConnection.run]. *)
Definition DEFAULT_EXITCODE_DELIMITER : string := "__EXITCODE".

(** The probe of a session variable. *)
Definition probe_command (var_name : string) : string :=
  "echo exists: $?" ++ var_name.

Definition _verify_env_variable (var_name error_msg : string) : M unit :=
  let cmd := probe_command var_name in
  '(output, _) <- SSHConnection.run cmd 10000 None None DEFAULT_EXITCODE_DELIMITER ;;
  if contains "exists: 0" output then raise (RuntimeError error_msg) else ret tt.

Definition verify_target_session_token : M unit :=
  try_except
    (_verify_env_variable TARGET_SESSION_VAR
       "Target SSH session shell seems inactive — unable to verify connection variable.")
    (fun e => if isinstance e cRuntimeError
              then Some (raise (TargetSessionInactiveError (exn_str e)))
              else None).

Definition verify_gateway_session_token : M unit :=
  try_except
    (_verify_env_variable GATEWAY_SESSION_VAR
       "Gateway SSH session shell unable to verify connection variable.")
    (fun e => if isinstance e cRuntimeError
              then Some (raise (GatewaySessionInactiveError (exn_str e)))
              else None).

Definition establish_gateway_connection (shell_prompt_pattern : pattern)
           (connection_timeout shell_prompt_timeout : N) : M unit :=
  fun w =>
    match channel w with
    | ChannelOpen => (Ok tt, w)
    | _ =>
        (try_except
           (SSHConnection.connect connection_timeout shell_prompt_timeout
              shell_prompt_pattern)
           (fun e => if isinstance e cException
                     then Some (raise (GatewaySSHConnectionError
                                  "Error occurred while establishing gateway connection"))
                     else None) ;;
         let cmd :=
           CommandFormatter.set_shell_env_variable_raw_command
             GATEWAY_SESSION_VAR SESSION_VAR_VALUE in
         SSHConnection.run cmd 10000 None None DEFAULT_EXITCODE_DELIMITER ;;
         verify_gateway_session_token) w
    end.

(** The nested [ssh] command and the message of a failed hop. *)
Definition ssh_command (target : SSHConnectionData) : string :=
  "ssh " ++ user target ++ "@" ++ host target.

Definition failed_hop_message (exit_code : Z) (output : string) : string :=
  "Failed to connect to target host — SSH exited or did not reach prompt." ++ LF
  ++ "Exit code: " ++ str_of_Z exit_code ++ LF
  ++ "Output:" ++ LF ++ output.

(** The nested [ssh] run of [establish_target_host_connection], with its
    responders and its break pattern. *)
Definition nested_ssh (shell_prompt_pattern : pattern)
           (shell_prompt_timeout : N) : M (string * Z) :=
  target <- (fun w => (Ok (target_data w), w)) ;;
  let password_responder :=
    Responders.get_ssh_login_password_responder (password target) in
  let add_ssh_to_hostfile_responder :=
    Responders.SSH_CONNECTION_YES_NO_FINGERPRINT_RESPONDER in
  let cmd := ssh_command target in
  SSHConnection.run cmd shell_prompt_timeout
    (Some [add_ssh_to_hostfile_responder; password_responder])
    (Some shell_prompt_pattern) SSH_TARGET_CONNECTION_EXITCODE.

Definition establish_target_host_connection (shell_prompt_pattern : pattern)
           (shell_prompt_timeout : N) : M unit :=
  try_except verify_gateway_session_token
    (fun e => if isinstance e cRuntimeError
              then Some (raise (TargetSSHConnectionError
                           "SSH connection to the target host should only be made from the gateway session"))
              else None) ;;
  '(output, exit_code) <- nested_ssh shell_prompt_pattern shell_prompt_timeout ;;
  if negb (exit_code =? BREAK_TRIGGERED) then
    raise (TargetSSHConnectionError (failed_hop_message exit_code output))
  else
    let cmd :=
      CommandFormatter.set_shell_env_variable_raw_command
        TARGET_SESSION_VAR SESSION_VAR_VALUE in
    try_except
      (SSHConnection.run cmd 10000 None None TARGET_SESSION_EXITCODE_DELIMITER ;;
       ret tt)
      (fun e => if isinstance e cTimeoutError || isinstance e cCommandTimeoutError
                then Some (raise (TargetSSHConnectionError
                             "Erro occured while setting the shell varible"))
                else None) ;;
    try_except verify_target_session_token
      (fun e => if isinstance e cTargetSessionInactiveError
                then Some (raise (TargetSSHConnectionError
                             "Target shell conection varible could NOT be verify after establishign the target connection"))
                else None).

Definition connect (shell_gateway_prompt_pattern shell_target_prompt_pattern : pattern)
           (connection_timeout shell_prompt_timeout : N) : M unit :=
  establish_gateway_connection shell_gateway_prompt_pattern connection_timeout
    shell_prompt_timeout ;;
  establish_target_host_connection shell_target_prompt_pattern shell_prompt_timeout.

Definition run_at_target (command : string)
           (responders : option (list Responder)) (break_on : option pattern)
           (timeout : N) : M (string * Z) :=
  verify_target_session_token ;;
  SSHConnection.run command timeout responders break_on
    TARGET_SESSION_EXITCODE_DELIMITER.

Definition run_as_root_at_target (command password : string)
           (responders : option (list Responder)) (break_on : option pattern)
           (timeout : N) : M (string * Z) :=
  verify_target_session_token ;;
  SSHConnection.run_as_root command password timeout responders break_on
    TARGET_SESSION_EXITCODE_DELIMITER.

Definition run_bash_script_at_target_as_root (script password : string)
           (args : option (list string)) (from_file : bool) (timeout : N)
           (responders : option (list Responder)) (break_on : option pattern)
  : M (string * Z) :=
  verify_target_session_token ;;
  SSHConnection.run_bash_script_as_root script password args from_file timeout
    responders break_on TARGET_SESSION_EXITCODE_DELIMITER.

Definition exit_target_session : M unit :=
  try_except
    (run_at_target "exit" None None 30000 ;; ret tt)
    (fun e => if isinstance e cTargetSessionInactiveError
              then Some (ret tt) else None) ;;
  verify_gateway_session_token.

Definition close : M unit :=
  exit_target_session ;;
  SSHConnection.close.

End RecursiveSSHSession.

(** ** commands.py *)

Module TargetCommand.
Record t : Type := {
  command : string;
  hide_output : bool;
  responders : list Responder;
  break_on : option pattern;
  timeout : N;
  run_as_root : bool
}.
End TargetCommand.

Module TargetBashScript.
Record t : Type := {
  script : string;
  args : option (list string);
  from_file : bool;
  hide_output : bool;
  responders : list Responder;
  break_on : option pattern;
  timeout : N;
  run_as_root : bool
}.
End TargetBashScript.

(** An element of the [commands] list: one of the two descriptors, or any
    other object. *)
Inductive command_object : Type :=
| Command (c : TargetCommand.t)
| BashScript (s : TargetBashScript.t)
| OtherObject.

Record TargetExecutionResult : Type := {
  success : bool;
  outputs : list (string * Z);
  error : option exn
}.

(** ** group.py *)

(** A [dict] with text keys: [d[k] = v] keeps the place of a key already
    there and puts a new key last. *)
Fixpoint dict_set {V : Type} (d : list (string * V)) (k : string) (v : V)
  : list (string * V) :=
  match d with
  | [] => [(k, v)]
  | (k', v') :: d' =>
      if String.eqb k' k then (k, v) :: d' else (k', v') :: dict_set d' k v
  end.

Module SerialRecursiveSSHGroup.

Record t : Type := {
  gateway_data : SSHConnectionData;
  targets : list SSHConnectionData;
  shell_gateway_prompt_pattern : pattern;
  shell_target_prompt_pattern : pattern;
  connection_timeout : N;
  shell_prompt_timeout : N
}.

Definition connect (self : t) (target : SSHConnectionData) : M unit :=
  (fun w => (Ok tt, with_target_data target w)) ;;
  RecursiveSSHSession.connect (shell_gateway_prompt_pattern self)
    (shell_target_prompt_pattern self) (connection_timeout self)
    (shell_prompt_timeout self).

Definition _run_on_target (target : SSHConnectionData) (command : TargetCommand.t)
  : M (string * Z) :=
  if TargetCommand.run_as_root command then
    RecursiveSSHSession.run_as_root_at_target (TargetCommand.command command)
      (password target) (Some (TargetCommand.responders command))
      (TargetCommand.break_on command) (TargetCommand.timeout command)
  else
    RecursiveSSHSession.run_at_target (TargetCommand.command command)
      (Some (TargetCommand.responders command))
      (TargetCommand.break_on command) (TargetCommand.timeout command).

Definition _run_bash_script_on_target (target : SSHConnectionData)
           (script : TargetBashScript.t) : M (string * Z) :=
  if TargetBashScript.run_as_root script then
    RecursiveSSHSession.run_bash_script_at_target_as_root
      (TargetBashScript.script script) (password target)
      (TargetBashScript.args script) (TargetBashScript.from_file script)
      (TargetBashScript.timeout script)
      (Some (TargetBashScript.responders script))
      (TargetBashScript.break_on script)
  else raise (NotImplementedError "run script as root for now").

(** The [isinstance] check that opens [run_target]. *)
Fixpoint validate (commands : list command_object) : M unit :=
  match commands with
  | [] => ret tt
  | OtherObject :: _ => raise InvalidTargetCommandError
  | _ :: commands' => validate commands'
  end.

(** The list comprehension over [commands]. *)
Fixpoint run_commands (target : SSHConnectionData)
         (commands : list command_object) : M (list (string * Z)) :=
  match commands with
  | [] => ret []
  | cmd :: commands' =>
      out <- match cmd with
             | Command c => _run_on_target target c
             | BashScript s => _run_bash_script_on_target target s
             | OtherObject => raise AttributeError
             end ;;
      outs <- run_commands target commands' ;;
      ret (out :: outs)
  end.

(** The [try] block of [run_target]: how it ends, and the value the local
    [target_outputs] has by then. *)
Definition run_target_try (self : t) (target : SSHConnectionData)
           (commands : list command_object)
  : world -> result unit * list (string * Z) * world :=
  fun w =>
    match connect self target w with
    | (Raise e, w1) => (Raise e, [], w1)
    | (Ok _, w1) =>
        match run_commands target commands w1 with
        | (Raise e, w2) => (Raise e, [], w2)
        | (Ok target_outputs, w2) =>
            match RecursiveSSHSession.exit_target_session w2 with
            | (Raise e, w3) => (Raise e, target_outputs, w3)
            | (Ok _, w3) => (Ok tt, target_outputs, w3)
            end
        end
    end.

(** The [except] clauses of [run_target], first match first. *)
Definition run_target_except (e : exn) (target_outputs : list (string * Z))
  : M TargetExecutionResult :=
  if isinstance e cGatewaySSHConnectionError
     || isinstance e cGatewaySessionInactiveError
  then raise e
  else if isinstance e cTargetSSHConnectionError
  then ret {| success := false; outputs := []; error := Some e |}
  else if isinstance e cTargetSessionInactiveError
  then ret {| success := false; outputs := target_outputs; error := Some e |}
  else if isinstance e cCommandTimeoutError || isinstance e cExitCodeNotFoundError
  then ret {| success := false; outputs := target_outputs; error := Some e |}
  else raise e.

Definition run_target (self : t) (target : SSHConnectionData)
           (commands : list command_object) : M TargetExecutionResult :=
  validate commands ;;
  fun w =>
    match run_target_try self target commands w with
    | (Ok _, target_outputs, w') =>
        (Ok {| success := true; outputs := target_outputs; error := None |}, w')
    | (Raise e, target_outputs, w') => run_target_except e target_outputs w'
    end.

(** [isinstance(out.error, (TargetSessionInactiveError, TargetSSHConnectionError))] *)
Definition needs_reset (out : TargetExecutionResult) : bool :=
  match error out with
  | Some e => isinstance e cTargetSessionInactiveError
              || isinstance e cTargetSSHConnectionError
  | None => false
  end.

(** The [if] that ends a round of the loop of [run_all_targets]:
    [self.session.close()] after a target-level session defect. *)
Definition reset_if_broken (out : TargetExecutionResult) : M unit :=
  if needs_reset out then RecursiveSSHSession.close else ret tt.

(** The [for target in self.targets] loop, from a given [results]. *)
Fixpoint run_targets_loop (self : t) (todo : list SSHConnectionData)
         (commands : list command_object)
         (results : list (string * TargetExecutionResult))
  : M (list (string * TargetExecutionResult)) :=
  match todo with
  | [] => ret results
  | target :: todo' =>
      out <- run_target self target commands ;;
      let results := dict_set results (host target) out in
      reset_if_broken out ;;
      run_targets_loop self todo' commands results
  end.

Definition run_all_targets (self : t) (commands : list command_object)
  : M (list (string * TargetExecutionResult)) :=
  run_targets_loop self (targets self) commands [].

Definition close : M unit := SSHConnection.close.

End SerialRecursiveSSHGroup.

(** ** Reading the exit marker off a transcript: the stated property *)

Module Marker.
Import PyStr.

(** A delimiter of the kind the package uses: a non-empty identifier. *)
Definition identifier_char (c : ascii) : bool :=
  let n := nat_of_ascii c in
  ((48 <=? n) && (n <=? 57) || (65 <=? n) && (n <=? 90)
   || (97 <=? n) && (n <=? 122) || (n =? 95))%nat.

Definition valid_delimiter (delim : string) : bool :=
  match delim with
  | EmptyString => false
  | _ => CommandFormatter.all_chars identifier_char delim
  end.

Definition digits (ds : string) : Prop :=
  ds <> EmptyString /\ CommandFormatter.all_chars is_digit ds = true.

(** [output] reads [before], then the delimiter, a colon and the digits
    [ds], then [after]. *)
Definition marker_at (delim output before ds after : string) : Prop :=
  output = before ++ delim ++ ":" ++ ds ++ after /\ digits ds.

Definition marker_occurs (delim output : string) : Prop :=
  exists before ds after, marker_at delim output before ds after.

(** No marker starts further left than [before] is long. *)
Definition leftmost (delim output before : string) : Prop :=
  forall before' ds' after',
    marker_at delim output before' ds' after' ->
    (String.length before <= String.length before')%nat.

Definition starts_with_digit (s : string) : bool :=
  match s with
  | String c _ => is_digit c
  | EmptyString => false
  end.

End Marker.

(** ** What a call leaves as it was *)

(** Between [w] and [w'] no channel was opened or closed, the target and the
    local files are the same, time has not gone back and the lines written
    to the channel were only added to. *)
Definition frame (w w' : world) : Prop :=
  channel w' = channel w /\ target_data w' = target_data w
  /\ files w' = files w /\ (clock w <= clock w')%N
  /\ exists more, sent w' = (sent w ++ more)%list.

(** Nothing was written to the channel between [w] and [w']. *)
Definition silent (w w' : world) : Prop := sent w' = sent w.

(** Every run of [m] relates the world before to the world after by [R]. *)
Definition preserves (R : world -> world -> Prop) {A : Type} (m : M A) : Prop :=
  forall w r w', m w = (r, w') -> R w w'.

(** [m] raises only exceptions that satisfy [P]. *)
Definition raises_only (P : exn -> bool) {A : Type} (m : M A) : Prop :=
  forall w e w', m w = (Raise e, w') -> P e = true.

(** The exceptions a run lets out: [RuntimeError] for a channel that is not
    ready, [CommandTimeoutError] for a missed deadline. *)
Definition run_error (e : exn) : bool :=
  isinstance e cRuntimeError || isinstance e cCommandTimeoutError.

(** ** The exit codes a run may return *)



(** ** Failures of a batch *)

(** The failures [run_target] records for the target at hand. *)
Definition target_level (e : exn) : bool :=
  isinstance e cTargetSSHConnectionError
  || isinstance e cTargetSessionInactiveError
  || isinstance e cCommandTimeoutError
  || isinstance e cExitCodeNotFoundError.

(** The failures [run_target] raises again. *)
Definition gateway_level (e : exn) : bool :=
  isinstance e cGatewaySSHConnectionError
  || isinstance e cGatewaySessionInactiveError.

(** The result recorded for a target whose run raised [e] while the local
    [target_outputs] held [outs]. *)
Definition failed_result (e : exn) (outs : list (string * Z))
  : TargetExecutionResult :=
  {| success := false;
     outputs := if isinstance e cTargetSSHConnectionError then [] else outs;
     error := Some e |}.

(** The elements of [commands] that pass the check of [run_target]. *)
Definition descriptor (c : command_object) : Prop := c <> OtherObject.

(** ** What goes over the channel *)

(** The text [send] writes for a command. *)
Definition sent_line (cmd : string) : string := cmd ++ PyStr.LF.

(** The line a token verification writes. *)
Definition probe_line (var_name : string) : string :=
  sent_line
    (CommandFormatter.regular_command
       (RecursiveSSHSession.probe_command var_name)
       RecursiveSSHSession.DEFAULT_EXITCODE_DELIMITER false).

(** [call] verifies the target token and only then hands over to
    [delegate]: when the verification raises, so does [call], in the same
    world, where at most the probe was written to the channel; when it
    passes, the probe has been written and [call] goes on as [delegate]. *)
Definition verified_first (call delegate : M (string * Z)) : Prop :=
  forall w,
    (forall e w1,
        RecursiveSSHSession.verify_target_session_token w = (Raise e, w1) ->
        call w = (Raise e, w1)
        /\ (sent w1 = sent w
            \/ sent w1
               = (sent w ++ [probe_line RecursiveSSHSession.TARGET_SESSION_VAR])%list))
    /\ (forall w1,
           RecursiveSSHSession.verify_target_session_token w = (Ok tt, w1) ->
           call w = delegate w1
           /\ sent w1
              = (sent w ++ [probe_line RecursiveSSHSession.TARGET_SESSION_VAR])%list).

(** ** Worlds to run the calls in *)

Module Scenario.
Import PyStr.

Definition quiet : event := {| lag := 0; arrives := None |}.

Definition deliver (text : string) : event := {| lag := 0; arrives := Some text |}.

(** The transport during a run whose reply comes in one piece: nothing at
    the first flush, the reply at the first round, nothing at the last
    flush. *)
Definition reply (text : string) : list event := [quiet; deliver text; quiet].

(** A prompt pattern as a caller may supply it. *)
Definition prompt : pattern := fun s => contains "$ " s.

(** [SerialRecursiveSSHGroup._dummy_target] *)
Definition nobody : SSHConnectionData :=
  {| host := ""; user := ""; password := ""; port := 22; internal_host := None |}.

(** A session not yet connected. *)
Definition fresh (inbox : list event) (dial : list bool) : world :=
  {| channel := NoChannel; target_data := nobody; clock := 0; pending := "";
     inbox := inbox; dial := dial; sent := []; files := [] |}.

(** A session whose gateway shell is open. *)
Definition connected (target : SSHConnectionData) (inbox : list event) : world :=
  {| channel := ChannelOpen; target_data := target; clock := 0; pending := "";
     inbox := inbox; dial := []; sent := []; files := [] |}.

(** The reply of a shell to a probe [echo exists: $?VAR]. *)
Definition token_set (delim : string) : list event :=
  reply ("exists: 1" ++ LF ++ delim ++ ":0" ++ LF).

Definition token_unset (delim : string) : list event :=
  reply ("exists: 0" ++ LF ++ delim ++ ":0" ++ LF).

(** The reply to a command that prints nothing and exits with [code]. *)
Definition exits (delim : string) (code : Z) : list event :=
  reply (delim ++ ":" ++ str_of_Z code ++ LF).

(** A target reached through the gateway. *)
Definition appliance (address : string) : SSHConnectionData :=
  {| host := address; user := "admin"; password := "secret"; port := 22;
     internal_host := None |}.

(** The gateway shell has lost its session variable. *)
Definition gateway_token_lost : world :=
  connected (appliance "10.0.0.5") (token_unset "__EXITCODE").


(** *** A batch of three targets behind one gateway *)

Definition jump_host : SSHConnectionData :=
  {| host := "192.0.2.1"; user := "admin"; password := "secret"; port := 22;
     internal_host := None |}.

Definition batch (targets : list SSHConnectionData) : SerialRecursiveSSHGroup.t :=
  {| SerialRecursiveSSHGroup.gateway_data := jump_host;
     SerialRecursiveSSHGroup.targets := targets;
     SerialRecursiveSSHGroup.shell_gateway_prompt_pattern := prompt;
     SerialRecursiveSSHGroup.shell_target_prompt_pattern := prompt;
     SerialRecursiveSSHGroup.connection_timeout := 60000;
     SerialRecursiveSSHGroup.shell_prompt_timeout := 90000 |}.

(** The gateway shell comes up: its prompt, the reply to [setenv], the token
    confirmed. *)
Definition gateway_login : list event :=
  ([deliver "admin@gateway:~$ "] ++ exits "__EXITCODE" 0
   ++ token_set "__EXITCODE")%list.

(** The gateway token is confirmed, then the nested [ssh] is turned down
    with exit code 255. *)
Definition hop_refused : list event :=
  (token_set "__EXITCODE"
   ++ reply ("ssh: connect to host port 22: Connection refused" ++ LF
             ++ "__SSH_TARGET_CONNECTION_EXITCODE:255" ++ LF))%list.

(** The session reset after a failed hop: the target token is not there,
    the gateway token is. *)
Definition reset_clean : list event :=
  (token_unset "__EXITCODE" ++ token_set "__EXITCODE")%list.

(** The gateway token is confirmed, the nested shell shows its prompt, its
    variable is set and confirmed. *)
Definition hop_reached : list event :=
  (token_set "__EXITCODE" ++ reply "admin@target:~$ "
   ++ exits "__TARGET_EXITCODE" 0 ++ token_set "__EXITCODE")%list.

(** One command run at the target, then the way back: the token confirmed
    before the command and before [exit], and the gateway token after. *)
Definition work_and_leave : list event :=
  (token_set "__EXITCODE"
   ++ reply ("file.txt" ++ LF ++ "__TARGET_EXITCODE:0" ++ LF)
   ++ token_set "__EXITCODE" ++ reply ("logout" ++ LF ++ "__TARGET_EXITCODE:0" ++ LF)
   ++ token_set "__EXITCODE")%list.

Definition list_tmp : command_object :=
  Command {| TargetCommand.command := "ls /tmp";
             TargetCommand.hide_output := true;
             TargetCommand.responders := [];
             TargetCommand.break_on := None;
             TargetCommand.timeout := 30000;
             TargetCommand.run_as_root := false |}.

Definition three_targets : list SSHConnectionData :=
  [appliance "10.0.0.5"; appliance "10.0.0.6"; appliance "10.0.0.7"].

(** The first and the third target are served; the hop to the second is
    refused and the session is reset after it. *)
Definition second_hop_refused : world :=
  fresh (gateway_login ++ hop_reached ++ work_and_leave
         ++ hop_refused ++ reset_clean
         ++ gateway_login ++ hop_reached ++ work_and_leave)%list
        [true; true].

(** The hop to the first target is refused; after the reset the gateway
    cannot be reached again. *)
Definition gateway_gone_at_second : world :=
  fresh (gateway_login ++ hop_refused ++ reset_clean)%list [true; false].

(** The hop to the first target is refused and the probes of the session
    reset get no answer. *)
Definition reset_unanswered : world :=
  fresh (gateway_login ++ hop_refused)%list [true].

(** Two entries of the target list name the same host. *)
Definition same_host_twice : list SSHConnectionData :=
  [appliance "10.0.0.5"; appliance "10.0.0.6";
   {| host := "10.0.0.5"; user := "backup"; password := "secret"; port := 22;
      internal_host := None |}].

Definition every_hop_refused : world :=
  fresh (gateway_login ++ hop_refused ++ reset_clean
         ++ gateway_login ++ hop_refused ++ reset_clean
         ++ gateway_login ++ hop_refused ++ reset_clean)%list
        [true; true; true].


End Scenario.

(** ** Further notions *)

(** The characters an exit marker is made of, for a delimiter that is an
    identifier: letters, digits, the underscore and the colon. *)
Definition marker_char (c : ascii) : bool :=
  Marker.identifier_char c || Ascii.eqb c ":".

(** [c] is not a colon. *)
Definition not_colon (c : ascii) : bool := negb (Ascii.eqb c ":").

(** The three exit-code delimiters of the package. *)
Definition session_delimiters : list string :=
  [RecursiveSSHSession.DEFAULT_EXITCODE_DELIMITER;
   RecursiveSSHSession.TARGET_SESSION_EXITCODE_DELIMITER;
   RecursiveSSHSession.SSH_TARGET_CONNECTION_EXITCODE].

(** The error of a call on a channel that is not open, and a call that ends
    with it at once, leaving everything as it was. *)
Definition CHANNEL_NOT_READY : exn :=
  RuntimeError "SSH channel is not active or already closed.".

Definition refused {A : Type} (m : M A) (w : world) : Prop :=
  m w = (Raise CHANNEL_NOT_READY, w).

(** The elements of [l] that [mask] marks, in the order of [l]. *)
Fixpoint pick {A : Type} (mask : list bool) (l : list A) : list A :=
  match mask, l with
  | true :: mask', x :: l' => x :: pick mask' l'
  | false :: mask', _ :: l' => pick mask' l'
  | _, _ => []
  end.

(** ** What a call may raise, and where it leaves the channel *)

(** Started on an open channel, [m] leaves it open and raises only
    exceptions that satisfy [P]. *)
Definition from_open (P : exn -> bool) {A : Type} (m : M A) : Prop :=
  forall w r w',
    channel w = ChannelOpen -> m w = (r, w') ->
    channel w' = ChannelOpen /\ forall e, r = Raise e -> P e = true.

(** Wherever it starts, [m] returns only with the channel open and raises
    only exceptions that satisfy [P]. *)
Definition settles (P : exn -> bool) {A : Type} (m : M A) : Prop :=
  forall w r w',
    m w = (r, w') ->
    match r with
    | Ok _ => channel w' = ChannelOpen
    | Raise e => P e = true
    end.

Definition timed_out (e : exn) : bool := isinstance e cCommandTimeoutError.

Definition is_file_not_found (e : exn) : bool :=
  match e with FileNotFoundError _ => true | _ => false end.

Definition is_not_implemented (e : exn) : bool :=
  match e with NotImplementedError _ => true | _ => false end.

Definition is_invalid_command (e : exn) : bool :=
  match e with InvalidTargetCommandError => true | _ => false end.

(** The failures of the two token verifications. *)
Definition verify_target_error (e : exn) : bool :=
  isinstance e cTargetSessionInactiveError || timed_out e.

Definition verify_gateway_error (e : exn) : bool :=
  isinstance e cGatewaySessionInactiveError || timed_out e.

(** The failures of [establish_gateway_connection] and of
    [RecursiveSSHSession.connect]. *)
Definition gateway_connection_error (e : exn) : bool :=
  gateway_level e || timed_out e.

Definition session_connect_error (e : exn) : bool :=
  gateway_level e || isinstance e cTargetSSHConnectionError || timed_out e.

(** The failures of a command or script run at the target. *)
Definition target_run_error (e : exn) : bool :=
  verify_target_error e || is_file_not_found e || is_not_implemented e.

(** The failures of the [try] block of [run_target]. *)
Definition run_target_try_error (e : exn) : bool :=
  session_connect_error e || target_run_error e.

(** What [run_target] lets out. *)
Definition run_target_error (e : exn) : bool :=
  gateway_level e || is_file_not_found e || is_not_implemented e
  || is_invalid_command e.

(** ** features/backups/runner.py *)

(** The runner hands the timeouts of its caller on to the [ssh] package;
    they are in milliseconds here, like every time of the embedding.  The
    three constants the runner takes from elsewhere, the pattern
    [REMOTE_BACKUP_FILEPATH_REGEX] as its search followed by [group(1)], the
    prompt pattern [DEFAULT_SHELL_PROMPT_PATTERN] and the path
    [BASH_BACKUPS_SCRIPT], are left open: what is proved holds for each
    value of them.  The generator is run to its end: what it yields is
    gathered in a list, in the order of the [yield]s. *)

(** [SerialRecursiveSSHGroup(...)]: a group comes with a session of its own,
    not connected yet and set on a placeholder target. *)
Definition new_group_session (w : world) : world :=
  with_target_data Scenario.nobody (with_channel NoChannel w).

Module BackupsRunner.
Import PyStr.

(** An entry of the station data, with the keys the runner reads. *)
Record machine : Set := {
  machine_name : string;
  type : string;
  state : string;
  ip_external : option string;
  ip_internal : option string
}.

(** The exceptions that reach the caller of the runner: those the [ssh]
    package lets out, and those of the station data. *)
Inductive runner_exn : Set :=
| SSHError (e : exn)
| MachinePasswordMissingError (msg : string)
| CorruptedDataFileError (msg : string)
| ValueError (msg : string)
| IndexError.

Inductive outcome (A : Type) : Type :=
| Done (a : A)
| Failed (e : runner_exn).

Arguments Done {A} a.
Arguments Failed {A} e.

Record t : Type := {
  station_data : list machine;
  station_secrets : list (string * string);
  script_timeout : N;
  connection_timeout : N;
  shell_prompt_timeout : N;
  verbose : bool;
  ssh_username : string
}.

Record BackupResult : Type := {
  gateway : SSHConnectionData;
  target : SSHConnectionData;
  execution_result : TargetExecutionResult;
  remote_backup_filepath : option string
}.

(** [d.get(k, None)] *)
Fixpoint dict_get {V : Type} (d : list (string * V)) (k : string) : option V :=
  match d with
  | [] => None
  | (k', v) :: d' => if String.eqb k' k then Some v else dict_get d' k
  end.

(** The text an f-string shows for an address that may be [None]. *)
Definition format_address (ip : option string) : string :=
  match ip with
  | Some text => text
  | None => "None"
  end.

(** [(?i)password .*:] *)
Definition scp_password_pattern : pattern := fun s =>
  Responders.search_by
    (fun t =>
       match strip_prefix "password " t with
       | Some rest => contains ":" (Responders.line_head rest)
       | None => false
       end)
    (Responders.lower s).

Definition build_scp_responders (password : string) : list Responder :=
  [ {| _compiled_regex := scp_password_pattern; response := password ++ LF |};
    Responders.SSH_CONNECTION_YES_NO_FINGERPRINT_RESPONDER ].

Definition get_machine_password (self : t) (machine_external_ip : option string)
  : outcome string :=
  let password :=
    match machine_external_ip with
    | Some ip => dict_get (station_secrets self) ip
    | None => None
    end in
  match password with
  | None =>
      Failed (MachinePasswordMissingError
                ("No password configured for machine IP "
                 ++ format_address machine_external_ip))
  | Some password => Done password
  end.

Definition get_gateway_machine (self : t) : outcome machine :=
  let cmc_list :=
    filter (fun m => String.eqb (type m) "CMC") (station_data self) in
  match cmc_list with
  | [cmc] => Done cmc
  | _ =>
      Failed (CorruptedDataFileError
                ("Expected exactly one CMC entry, found "
                 ++ str_of_N (N.of_nat (length cmc_list)) ++ "."))
  end.

Definition get_target_machines (self : t) : list machine :=
  filter
    (fun m => String.eqb (type m) "GUARDIAN"
              && negb (String.eqb (state m) "pendiente"))
    (station_data self).

(** The connection data of a machine whose password was found; its
    external address is then a text. *)
Definition connection_data (self : t) (m : machine) (password : string)
  : SSHConnectionData :=
  {| host := format_address (ip_external m);
     user := ssh_username self;
     password := password;
     port := 22;
     internal_host := ip_internal m |}.

Definition build_gateway_ssh_connection_data_instance (self : t)
  : outcome SSHConnectionData :=
  match get_gateway_machine self with
  | Failed e => Failed e
  | Done cmc_data =>
      match get_machine_password self (ip_external cmc_data) with
      | Failed e => Failed e
      | Done cmc_password => Done (connection_data self cmc_data cmc_password)
      end
  end.

(** The loop of [build_target_ssh_connection_data_instances]. *)
Fixpoint build_targets_loop (self : t) (machines : list machine)
         (targets_connection_data : list SSHConnectionData)
  : outcome (list SSHConnectionData) :=
  match machines with
  | [] => Done targets_connection_data
  | machine :: machines' =>
      match get_machine_password self (ip_external machine) with
      | Failed e => Failed e
      | Done password =>
          build_targets_loop self machines'
            (targets_connection_data
             ++ [connection_data self machine password])%list
      end
  end.

Definition build_target_ssh_connection_data_instances (self : t)
  : outcome (list SSHConnectionData) :=
  build_targets_loop self (get_target_machines self) [].

Section Constants.

Variable REMOTE_BACKUP_FILEPATH_REGEX : string -> option string.
Variable DEFAULT_SHELL_PROMPT_PATTERN : pattern.
Variable BASH_BACKUPS_SCRIPT : string.

Definition failed_backup (group : SerialRecursiveSSHGroup.t)
           (target : SSHConnectionData) (execution_result : TargetExecutionResult)
  : BackupResult :=
  {| gateway := SerialRecursiveSSHGroup.gateway_data group;
     target := target;
     execution_result := execution_result;
     remote_backup_filepath := None |}.

Definition _run_and_extract_backup_path (group : SerialRecursiveSSHGroup.t)
           (target : SSHConnectionData) (script : TargetBashScript.t)
  : world -> outcome BackupResult * world :=
  fun w =>
    match SerialRecursiveSSHGroup.run_target group target [BashScript script] w with
    | (Raise e, w') =>
        if isinstance e cGatewaySessionInactiveError
           || isinstance e cGatewaySSHConnectionError
        then (Done (failed_backup group target
                      {| success := false; outputs := []; error := Some e |}),
              w')
        else (Failed (SSHError e), w')
    | (Ok t_result, w') =>
        if negb (success t_result)
        then (Done (failed_backup group target t_result), w')
        else
          match outputs t_result with
          | (script_output, _) :: _ =>
              (Done {| gateway := SerialRecursiveSSHGroup.gateway_data group;
                       target := target;
                       execution_result := t_result;
                       remote_backup_filepath :=
                         REMOTE_BACKUP_FILEPATH_REGEX script_output |},
               w')
          | [] => (Failed IndexError, w')
          end
    end.

(** The [for] loop of [backup_generator]: what it has yielded when it ends,
    and how it ends. *)
Fixpoint backup_loop (serial_ssh_group : SerialRecursiveSSHGroup.t)
         (script_cmd : TargetBashScript.t) (todo : list SSHConnectionData)
         (yielded : list BackupResult)
  : world -> (list BackupResult * outcome unit) * world :=
  fun w =>
    match todo with
    | [] => ((yielded, Done tt), w)
    | target :: todo' =>
        match _run_and_extract_backup_path serial_ssh_group target script_cmd w with
        | (Failed e, w1) => ((yielded, Failed e), w1)
        | (Done backup_result, w1) =>
            let closed :=
              if negb (success (execution_result backup_result))
              then SerialRecursiveSSHGroup.close w1
              else (Ok tt, w1) in
            match closed with
            | (Raise e, w2) => ((yielded, Failed (SSHError e)), w2)
            | (Ok _, w2) =>
                backup_loop serial_ssh_group script_cmd todo'
                  (yielded ++ [backup_result])%list w2
            end
        end
    end.

Definition backup_generator (self : t)
  : world -> (list BackupResult * outcome unit) * world :=
  fun w =>
    let script_file := BASH_BACKUPS_SCRIPT in
    match build_gateway_ssh_connection_data_instance self with
    | Failed e => (([], Failed e), w)
    | Done gateway_connection_data =>
        match build_target_ssh_connection_data_instances self with
        | Failed e => (([], Failed e), w)
        | Done targets_connection_data =>
            let scp_responders :=
              build_scp_responders (password gateway_connection_data) in
            let script_cmd :=
              {| TargetBashScript.script := script_file;
                 TargetBashScript.args :=
                   Some [user gateway_connection_data;
                         host gateway_connection_data];
                 TargetBashScript.from_file := true;
                 TargetBashScript.hide_output := negb (verbose self);
                 TargetBashScript.responders := scp_responders;
                 TargetBashScript.break_on := None;
                 TargetBashScript.timeout := script_timeout self;
                 TargetBashScript.run_as_root := true |} in
            match targets_connection_data with
            | [] => (([], Failed (ValueError "Target list must not be empty.")), w)
            | _ =>
                let serial_ssh_group :=
                  {| SerialRecursiveSSHGroup.gateway_data := gateway_connection_data;
                     SerialRecursiveSSHGroup.targets := targets_connection_data;
                     SerialRecursiveSSHGroup.shell_gateway_prompt_pattern :=
                       DEFAULT_SHELL_PROMPT_PATTERN;
                     SerialRecursiveSSHGroup.shell_target_prompt_pattern :=
                       DEFAULT_SHELL_PROMPT_PATTERN;
                     SerialRecursiveSSHGroup.connection_timeout :=
                       connection_timeout self;
                     SerialRecursiveSSHGroup.shell_prompt_timeout :=
                       shell_prompt_timeout self |} in
                match backup_loop serial_ssh_group script_cmd
                        (SerialRecursiveSSHGroup.targets serial_ssh_group) []
                        (new_group_session w) with
                | ((yielded, r), w1) =>
                    match SerialRecursiveSSHGroup.close w1 with
                    | (Ok _, w2) => ((yielded, r), w2)
                    | (Raise e, w2) => ((yielded, Failed (SSHError e)), w2)
                    end
                end
            end
        end
    end.

End Constants.

End BackupsRunner.

(** A script descriptor with the text of its file in place of the path. *)
Definition inline_script (s : TargetBashScript.t) (content : string)
  : TargetBashScript.t :=
  {| TargetBashScript.script := content;
     TargetBashScript.args := TargetBashScript.args s;
     TargetBashScript.from_file := false;
     TargetBashScript.hide_output := TargetBashScript.hide_output s;
     TargetBashScript.responders := TargetBashScript.responders s;
     TargetBashScript.break_on := TargetBashScript.break_on s;
     TargetBashScript.timeout := TargetBashScript.timeout s;
     TargetBashScript.run_as_root := TargetBashScript.run_as_root s |}.

(** A station with its gateway and two appliances to back up, one more
    still to be installed, and the passwords of the three in use. *)
Definition pilot_station : BackupsRunner.t :=
  {| BackupsRunner.station_data :=
       [ {| BackupsRunner.machine_name := "cmc";
            BackupsRunner.type := "CMC";
            BackupsRunner.state := "instalada";
            BackupsRunner.ip_external := Some "192.0.2.1";
            BackupsRunner.ip_internal := Some "10.0.0.1" |};
         {| BackupsRunner.machine_name := "guardian-1";
            BackupsRunner.type := "GUARDIAN";
            BackupsRunner.state := "monitoreando";
            BackupsRunner.ip_external := Some "192.0.2.5";
            BackupsRunner.ip_internal := Some "10.0.0.5" |};
         {| BackupsRunner.machine_name := "guardian-2";
            BackupsRunner.type := "GUARDIAN";
            BackupsRunner.state := "pendiente";
            BackupsRunner.ip_external := None;
            BackupsRunner.ip_internal := None |};
         {| BackupsRunner.machine_name := "guardian-3";
            BackupsRunner.type := "GUARDIAN";
            BackupsRunner.state := "aprendizaje";
            BackupsRunner.ip_external := Some "192.0.2.7";
            BackupsRunner.ip_internal := Some "10.0.0.7" |} ];
     BackupsRunner.station_secrets :=
       [("192.0.2.1", "secret"); ("192.0.2.5", "secret"); ("192.0.2.7", "secret")];
     BackupsRunner.script_timeout := 600000;
     BackupsRunner.connection_timeout := 60000;
     BackupsRunner.shell_prompt_timeout := 90000;
     BackupsRunner.verbose := false;
     BackupsRunner.ssh_username := "admin" |}.

(** The local files are the same in [w] and [w']. *)
Definition same_files (w w' : world) : Prop := files w' = files w.

(** The machine the backups are started from: it holds the backup script
    and is not connected yet. *)
Definition backup_host (inbox : list event) (dial : list bool) : world :=
  {| channel := NoChannel; target_data := Scenario.nobody; clock := 0;
     pending := ""; inbox := inbox; dial := dial; sent := [];
     files := [("scripts/backups.sh", "n2os-backup")] |}.

(** A reading of the script output that looks for no path. *)
Definition no_path : string -> option string := fun _ => None.

(** The connection data [t] is that of the machine [m]: its external
    address, the user of the runner, the password kept for that address. *)
Definition serves (self : BackupsRunner.t) (m : BackupsRunner.machine)
           (t : SSHConnectionData) : Prop :=
  BackupsRunner.ip_external m = Some (host t)
  /\ user t = BackupsRunner.ssh_username self
  /\ BackupsRunner.dict_get (BackupsRunner.station_secrets self) (host t)
     = Some (password t)
  /\ internal_host t = BackupsRunner.ip_internal m.

(** An error of the station data, raised before any connection. *)
Definition station_data_error (e : BackupsRunner.runner_exn) : bool :=
  match e with
  | BackupsRunner.MachinePasswordMissingError _
  | BackupsRunner.CorruptedDataFileError _
  | BackupsRunner.ValueError _ => true
  | _ => false
  end.

(** The station of the pilot with the password of one appliance lost. *)
Definition station_without_password : BackupsRunner.t :=
  {| BackupsRunner.station_data := BackupsRunner.station_data pilot_station;
     BackupsRunner.station_secrets :=
       [("192.0.2.1", "secret"); ("192.0.2.5", "secret")];
     BackupsRunner.script_timeout := 600000;
     BackupsRunner.connection_timeout := 60000;
     BackupsRunner.shell_prompt_timeout := 90000;
     BackupsRunner.verbose := false;
     BackupsRunner.ssh_username := "admin" |}.

(** A station whose appliances are all still to be installed. *)
Definition station_without_targets : BackupsRunner.t :=
  {| BackupsRunner.station_data :=
       [ {| BackupsRunner.machine_name := "cmc";
            BackupsRunner.type := "CMC";
            BackupsRunner.state := "instalada";
            BackupsRunner.ip_external := Some "192.0.2.1";
            BackupsRunner.ip_internal := Some "10.0.0.1" |};
         {| BackupsRunner.machine_name := "guardian-1";
            BackupsRunner.type := "GUARDIAN";
            BackupsRunner.state := "pendiente";
            BackupsRunner.ip_external := None;
            BackupsRunner.ip_internal := None |} ];
     BackupsRunner.station_secrets := [("192.0.2.1", "secret")];
     BackupsRunner.script_timeout := 600000;
     BackupsRunner.connection_timeout := 60000;
     BackupsRunner.shell_prompt_timeout := 90000;
     BackupsRunner.verbose := false;
     BackupsRunner.ssh_username := "admin" |}.

(** [c] is not white space. *)
Definition not_space (c : ascii) : bool := negb (PyStr.is_space c).

(** * Properties *)

(** ** Text *)

Section TextFacts.
Import PyStr CommandFormatter Marker.

Lemma append_assoc (a b c : string) : (a ++ b) ++ c = a ++ b ++ c.
Proof. induction a as [|x a IH]; simpl; [reflexivity | now rewrite IH]. Qed.


Lemma strip_prefix_app (p s : string) : strip_prefix p (p ++ s) = Some s.
Proof.
  induction p as [|a p IH]; simpl; [reflexivity|].
  now rewrite Ascii.eqb_refl.
Qed.

Lemma strip_prefix_sound (p : string) :
  forall s r, strip_prefix p s = Some r -> s = p ++ r.
Proof.
  induction p as [|a p IH]; simpl; intros s r H.
  - now inversion H.
  - destruct s as [|b s]; [discriminate|].
    destruct (Ascii.eqb_spec a b) as [->|]; [|discriminate].
    now rewrite (IH _ _ H).
Qed.

Lemma span_digits_sound (s : string) :
  forall ds rest, span_digits s = (ds, rest) ->
    s = ds ++ rest /\ all_chars is_digit ds = true
    /\ starts_with_digit rest = false.
Proof.
  induction s as [|c s IH]; simpl; intros ds rest H.
  - inversion H; subst; auto.
  - destruct (is_digit c) eqn:Hc.
    + destruct (span_digits s) as [ds0 rest0] eqn:Hs.
      inversion H; subst; clear H.
      destruct (IH _ _ eq_refl) as (-> & Hall & Hrest).
      simpl; rewrite Hc, Hall; auto.
    + inversion H; subst; simpl; rewrite Hc; auto.
Qed.

Lemma span_digits_app (ds : string) :
  forall after, all_chars is_digit ds = true ->
    starts_with_digit after = false ->
    span_digits (ds ++ after) = (ds, after).
Proof.
  induction ds as [|c ds IH]; simpl; intros after Hall Hafter.
  - destruct after as [|a after]; [reflexivity|].
    simpl in *; now rewrite Hafter.
  - apply andb_true_iff in Hall as [Hc Hall].
    now rewrite Hc, (IH _ Hall Hafter).
Qed.

Lemma span_digits_head (ds after : string) :
  digits ds -> fst (span_digits (ds ++ after)) <> "".
Proof.
  intros [Hne Hall]; destruct ds as [|c ds]; [contradiction|].
  simpl in *; apply andb_true_iff in Hall as [-> _].
  now destruct (span_digits (ds ++ after)).
Qed.

Lemma match_exitcode_here_sound (delim s ds : string) :
  match_exitcode_here delim s = Some ds ->
  exists after, marker_at delim s "" ds after.
Proof.
  unfold match_exitcode_here; intros H.
  destruct (strip_prefix (delim ++ ":") s) as [rest|] eqn:Hp; [|discriminate].
  apply strip_prefix_sound in Hp.
  destruct (span_digits rest) as [ds0 after] eqn:Hs; simpl in H.
  destruct (span_digits_sound _ _ _ Hs) as (-> & Hall & _).
  destruct ds0 as [|c ds0]; [discriminate|]; inversion H; subst.
  exists after; split; [|split; [discriminate | assumption]].
  simpl; now rewrite append_assoc.
Qed.

Lemma strip_prefix_marker (delim rest : string) :
  strip_prefix (delim ++ ":") (delim ++ ":" ++ rest) = Some rest.
Proof. rewrite <- append_assoc; apply strip_prefix_app. Qed.

Lemma match_exitcode_here_complete (delim s ds after : string) :
  marker_at delim s "" ds after -> match_exitcode_here delim s <> None.
Proof.
  intros [-> Hds]; unfold match_exitcode_here.
  change ("" ++ delim ++ ":" ++ ds ++ after) with (delim ++ ":" ++ ds ++ after).
  rewrite strip_prefix_marker.
  pose proof (span_digits_head ds after Hds) as Hne.
  now destruct (fst (span_digits (ds ++ after))).
Qed.

Lemma match_exitcode_here_exact (delim ds after : string) :
  digits ds -> starts_with_digit after = false ->
  match_exitcode_here delim (delim ++ ":" ++ ds ++ after) = Some ds.
Proof.
  intros [Hne Hall] Hafter; unfold match_exitcode_here.
  rewrite strip_prefix_marker, (span_digits_app _ _ Hall Hafter).
  simpl; now destruct ds.
Qed.

(** [search_exitcode] finds a marker, and the leftmost one. *)
Lemma search_exitcode_sound (delim : string) :
  forall output before ds,
    search_exitcode delim output = Some (before, ds) ->
    (exists after, marker_at delim output before ds after)
    /\ leftmost delim output before.
Proof.
  induction output as [|c output IH]; intros before ds H; simpl in H.
  - destruct (match_exitcode_here delim "") as [ds0|] eqn:Hm; [|discriminate].
    inversion H; subst; split.
    + now apply match_exitcode_here_sound.
    + intros b' ds' a' _; simpl; lia.
  - destruct (match_exitcode_here delim (String c output)) as [ds0|] eqn:Hm.
    + inversion H; subst; split.
      * now apply match_exitcode_here_sound.
      * intros b' ds' a' _; simpl; lia.
    + destruct (search_exitcode delim output) as [[bf ds0]|] eqn:Hs; [|discriminate].
      inversion H; subst; clear H.
      destruct (IH _ _ eq_refl) as [[after [Heq Hds]] Hleft]; split.
      * exists after; split; [simpl; now rewrite Heq | assumption].
      * intros b' ds' a' [Heq' Hds'].
        destruct b' as [|c' b'].
        -- exfalso.
           apply (match_exitcode_here_complete delim (String c output) ds' a');
             [split; assumption | assumption].
        -- simpl in Heq'; inversion Heq'; subst c'.
           simpl; apply le_n_S, (Hleft b' ds' a'); split; assumption.
Qed.

Lemma search_exitcode_here (delim output ds : string) :
  match_exitcode_here delim output = Some ds ->
  search_exitcode delim output = Some ("", ds).
Proof. intros H; destruct output; simpl; now rewrite H. Qed.

Lemma search_exitcode_complete (delim output : string) :
  marker_occurs delim output -> search_exitcode delim output <> None.
Proof.
  intros (before & ds & after & Heq & Hds); subst output.
  induction before as [|c before IH]; simpl.
  - pose proof (match_exitcode_here_complete delim _ ds after
                  (conj eq_refl Hds)) as Hm.
    simpl in Hm.
    destruct (match_exitcode_here delim _) as [ds0|] eqn:E; [|contradiction].
    now rewrite (search_exitcode_here _ _ _ E).
  - destruct (match_exitcode_here delim _); [discriminate|].
    now destruct (search_exitcode delim _) as [[? ?]|].
Qed.

Lemma search_exitcode_first (delim ds after : string) :
  digits ds -> starts_with_digit after = false ->
  forall before,
    leftmost delim (before ++ delim ++ ":" ++ ds ++ after) before ->
    search_exitcode delim (before ++ delim ++ ":" ++ ds ++ after)
    = Some (before, ds).
Proof.
  intros Hds Hafter; induction before as [|c before IH]; intros Hleft.
  - apply search_exitcode_here, match_exitcode_here_exact; assumption.
  - simpl.
    destruct (match_exitcode_here delim _) as [ds0|] eqn:Hm.
    + apply match_exitcode_here_sound in Hm as [a' Hm].
      specialize (Hleft "" ds0 a' Hm); simpl in Hleft; lia.
    + simpl in IH; rewrite IH; [reflexivity|].
      intros b' ds' a' [Heq' Hds'].
      specialize (Hleft (String c b') ds' a'); simpl in Hleft.
      apply le_S_n, Hleft; split; [simpl in *; now rewrite Heq' | assumption].
Qed.

Lemma length_append (a b : string) :
  String.length (a ++ b) = (String.length a + String.length b)%nat.
Proof. induction a as [|c a IH]; simpl; [reflexivity | now rewrite IH]. Qed.

(** Two texts that are equal end alike. *)
Lemma append_tail_inj (x : string) :
  forall y s1 s2,
    String.length s1 = String.length s2 -> x ++ s1 = y ++ s2 -> s1 = s2.
Proof.
induction x as [|c x IH]; intros y s1 s2 Hlen H; destruct y as [|d y];
  simpl in H.
- assumption.
- subst s1; simpl in Hlen; rewrite length_append in Hlen; lia.
- subst s2; simpl in Hlen; rewrite length_append in Hlen; lia.
- inversion H; subst; eapply IH; eassumption.
Qed.

(** Decimal notation: [int(str(n)) = n]. *)
Lemma all_digits_uint (d : Decimal.uint) :
  all_chars is_digit (NilEmpty.string_of_uint d) = true.
Proof. induction d; simpl; auto. Qed.

Lemma int_acc_uint (d : Decimal.uint) :
  forall lu, int_acc (NilEmpty.string_of_uint d) (Unsigned.of_lu lu)
             = Unsigned.of_lu (Decimal.revapp d lu).
Proof.
  induction d; intros lu;
    cbn [NilEmpty.string_of_uint int_acc Decimal.revapp]; try reflexivity;
    rewrite <- IHd; f_equal; cbn [Unsigned.of_lu];
    match goal with |- context [digit_value ?c] =>
      let k := eval vm_compute in (digit_value c) in
      change (digit_value c) with k
    end; lia.
Qed.

Lemma int_str_of_N (n : N) : int (str_of_N n) = Z.of_N n.
Proof.
  unfold int, str_of_N; f_equal.
  change 0%N with (Unsigned.of_lu Decimal.Nil).
  rewrite int_acc_uint.
  change (Decimal.revapp (N.to_uint n) Decimal.Nil) with (Decimal.rev (N.to_uint n)).
  rewrite <- Unsigned.of_uint_alt.
  apply DecimalN.Unsigned.of_to.
Qed.

Lemma digits_str_of_N (n : N) : digits (str_of_N n).
Proof.
  split; [|apply all_digits_uint].
  unfold str_of_N; destruct n as [|p]; [discriminate|].
  simpl. pose proof (Unsigned.to_uint_nonnil p) as Hp.
  destruct (Pos.to_uint p); simpl; congruence.
Qed.

End TextFacts.

(** ** The command formatter *)

Section FormatterProperties.
Import PyStr CommandFormatter Marker.

Lemma regular_command_suffix (command delim : string) (root : bool) :
  exists body, regular_command command delim root
               = body ++ "; echo " ++ delim ++ ":$?".
Proof.
  unfold regular_command; destruct root.
  - exists ("sudo su root -c " ++ strip command).
    now rewrite <- append_assoc.
  - now exists (strip command).
Qed.

Lemma bash_script_suffix (script delim : string) (args : option (list string))
      (root : bool) :
  exists body, bash_script_from_string script delim args root = body ++ LF.
Proof.
unfold bash_script_from_string; destruct root; eexists;
  rewrite <- !append_assoc; reflexivity.
Qed.

(** C8.  The command [ls /tmp] formatted with the delimiter [__EXITCODE]
    and without root ends with [; echo __EXITCODE:$?]; decoding the output
    [file.txt\n__EXITCODE:0\n] with that delimiter gives the exit code 0 and
    the cleaned output [file.txt\n]. *)
Theorem formatter_ls_tmp_scenario :
  (exists body, regular_command "ls /tmp" "__EXITCODE" false
                = body ++ "; echo __EXITCODE:$?")
  /\ extract_exit_code ("file.txt" ++ LF ++ "__EXITCODE:0" ++ LF) "__EXITCODE"
     = Ok (0, "file.txt" ++ LF).
Proof.
  split; [now exists "ls /tmp" | reflexivity].
Qed.





Lemma str_of_Z_nonneg (c : Z) : 0 <= c -> str_of_Z c = str_of_N (Z.to_N c).
Proof. destruct c; [reflexivity | reflexivity | lia]. Qed.

(** C3, as the code has it.  For a valid delimiter and an exit code [c]
    in 0..255, the formatted command ends with the echo of the marker, and
    decoding an output whose leftmost marker is the delimiter, a colon and
    [c] in decimal, with no digit right after it, gives exactly [c] and the
    text before that marker. *)
Theorem extract_exit_code_leftmost_marker
        (delim command before after : string) (root : bool) (c : Z) :
  valid_delimiter delim = true ->
  0 <= c <= 255 ->
  leftmost delim (before ++ delim ++ ":" ++ str_of_Z c ++ after) before ->
  starts_with_digit after = false ->
  (exists body, regular_command command delim root
                = body ++ "; echo " ++ delim ++ ":$?")
  /\ extract_exit_code (before ++ delim ++ ":" ++ str_of_Z c ++ after) delim
     = Ok (c, before).
Proof.
  intros _ [Hc _] Hleft Hafter; split; [apply regular_command_suffix|].
  unfold extract_exit_code.
  rewrite str_of_Z_nonneg in * by assumption.
  rewrite (search_exitcode_first delim _ after (digits_str_of_N _) Hafter
             before Hleft).
  rewrite int_str_of_N, Z2N.id by assumption; reflexivity.
Qed.

Lemma extract_exit_code_leftmost_marker_witness :
  (exists body, regular_command "ls /tmp" "__EXITCODE" false
                = body ++ "; echo " ++ "__EXITCODE" ++ ":$?")
  /\ extract_exit_code
       (("file.txt" ++ LF) ++ "__EXITCODE" ++ ":" ++ str_of_Z 7 ++ LF)
       "__EXITCODE"
     = Ok (7, "file.txt" ++ LF).
Proof.
  apply (extract_exit_code_leftmost_marker "__EXITCODE" "ls /tmp"
           ("file.txt" ++ LF) LF false 7).
  - reflexivity.
  - lia.
  - apply (search_exitcode_sound "__EXITCODE" _ _ "7"); reflexivity.
  - reflexivity.
Defined.

(** C3, as stated, fails: an output may contain the marker of [c] after an
    earlier marker, and the earlier one is decoded. *)
Lemma extract_exit_code_any_marker_refuted :
  ~ (forall (delim output : string) (c : Z),
        valid_delimiter delim = true -> 0 <= c <= 255 ->
        contains (delim ++ ":" ++ str_of_Z c) output = true ->
        exists clean, extract_exit_code output delim = Ok (c, clean)).
Proof.
  intros H.
  destruct (H "__EXITCODE"
              ("cat: __EXITCODE:1" ++ LF ++ "__EXITCODE:0" ++ LF) 0)
    as [clean Hc]; [reflexivity | lia | reflexivity |].
  vm_compute in Hc; discriminate.
Qed.

End FormatterProperties.

(** ** Calls *)

Section CallFacts.
Context {A B : Type}.

Lemma bind_ok_l (m : M A) (k : A -> M B) (w w1 : world) (a : A) :
  m w = (Ok a, w1) -> bind m k w = k a w1.
Proof. unfold bind; now intros ->. Qed.

Lemma bind_raise_l (m : M A) (k : A -> M B) (w w1 : world) (e : exn) :
  m w = (Raise e, w1) -> bind m k w = (Raise e, w1).
Proof. unfold bind; now intros ->. Qed.

Lemma bind_cases (m : M A) (k : A -> M B) (w w' : world) (r : result B) :
  bind m k w = (r, w') ->
  (exists a w1, m w = (Ok a, w1) /\ k a w1 = (r, w'))
  \/ (exists e, m w = (Raise e, w') /\ r = Raise e).
Proof.
unfold bind; destruct (m w) as [[a|e] w1]; intros H.
- left; now exists a, w1.
- right; inversion H; subst; now exists e.
Qed.

Lemma bind_ok (m : M A) (k : A -> M B) (w w' : world) (b : B) :
  bind m k w = (Ok b, w') ->
  exists a w1, m w = (Ok a, w1) /\ k a w1 = (Ok b, w').
Proof.
intros H; apply bind_cases in H as [H|(e & _ & H)]; [assumption | discriminate].
Qed.

End CallFacts.

Lemma bind_assoc {A B C : Type} (m : M A) (k : A -> M B) (h : B -> M C)
      (w : world) :
  bind (bind m k) h w = bind m (fun a => bind (k a) h) w.
Proof. unfold bind; now destruct (m w) as [[a|e] w1]. Qed.

Lemma bind_ext {A B : Type} (m : M A) (k k' : A -> M B) (w : world) :
  (forall a w1, k a w1 = k' a w1) -> bind m k w = bind m k' w.
Proof. intros H; unfold bind; destruct (m w) as [[a|e] w1]; auto. Qed.

Section Preserving.
Variable R : world -> world -> Prop.
Hypothesis R_refl : forall w, R w w.
Hypothesis R_trans : forall a b c, R a b -> R b c -> R a c.

Lemma preserves_ret {A : Type} (a : A) : preserves R (ret a).
Proof. intros w r w' H; inversion H; subst; apply R_refl. Qed.

Lemma preserves_raise {A : Type} (e : exn) : preserves R (@raise A e).
Proof. intros w r w' H; inversion H; subst; apply R_refl. Qed.

Lemma preserves_bind {A B : Type} (m : M A) (k : A -> M B) :
  preserves R m -> (forall a, preserves R (k a)) -> preserves R (bind m k).
Proof.
intros Hm Hk w r w' H.
apply bind_cases in H as [(a & w1 & H1 & H2)|(e & H1 & _)].
- eapply R_trans; [eapply Hm | eapply Hk]; eassumption.
- eapply Hm; eassumption.
Qed.

Lemma preserves_try_except {A : Type} (m : M A) (handler : exn -> option (M A)) :
  preserves R m ->
  (forall e h, handler e = Some h -> preserves R h) ->
  preserves R (try_except m handler).
Proof.
intros Hm Hh w r w'; unfold try_except.
destruct (m w) as [[a|e] w1] eqn:E; intros H.
- inversion H; subst; eapply Hm; eassumption.
- destruct (handler e) as [h|] eqn:Eh.
  + eapply R_trans; [eapply Hm; eassumption | eapply Hh; eassumption].
  + inversion H; subst; eapply Hm; eassumption.
Qed.

Lemma preserves_if {A : Type} (b : bool) (m1 m2 : M A) :
  preserves R m1 -> preserves R m2 -> preserves R (if b then m1 else m2).
Proof. now destruct b. Qed.

End Preserving.

Lemma frame_refl (w : world) : frame w w.
Proof.
unfold frame; split; [|split; [|split; [|split]]]; try reflexivity.
exists []; now rewrite app_nil_r.
Qed.

Lemma frame_trans (a b c : world) : frame a b -> frame b c -> frame a c.
Proof.
intros (H1 & H2 & H3 & H4 & m1 & H5) (G1 & G2 & G3 & G4 & m2 & G5).
unfold frame; split; [|split; [|split; [|split]]]; try congruence; [lia|].
exists (m1 ++ m2)%list; now rewrite G5, H5, app_assoc.
Qed.

Lemma silent_refl (w : world) : silent w w.
Proof. reflexivity. Qed.

Lemma silent_trans (a b c : world) : silent a b -> silent b c -> silent a c.
Proof. unfold silent; congruence. Qed.

Create HintDb calls.

Lemma frame_ret {A : Type} (a : A) : preserves frame (ret a).
Proof. apply preserves_ret, frame_refl. Qed.

Lemma frame_raise {A : Type} (e : exn) : preserves frame (@raise A e).
Proof. apply preserves_raise, frame_refl. Qed.

Lemma silent_ret {A : Type} (a : A) : preserves silent (ret a).
Proof. apply preserves_ret, silent_refl. Qed.

Lemma silent_raise {A : Type} (e : exn) : preserves silent (@raise A e).
Proof. apply preserves_raise, silent_refl. Qed.

#[local] Hint Resolve frame_refl silent_refl frame_ret frame_raise
  silent_ret silent_raise : calls.

(** Composite calls are taken apart by these steps. *)
Ltac step_frame :=
  first
    [ apply (preserves_bind frame frame_trans); [|intros ?]
    | apply (preserves_try_except frame frame_trans); [|intros ? ? ?]
    | apply (preserves_if frame) ].

Ltac step_silent :=
  first
    [ apply (preserves_bind silent silent_trans); [|intros ?]
    | apply (preserves_try_except silent silent_trans); [|intros ? ? ?]
    | apply (preserves_if silent) ].

Ltac solve_frame := repeat first [ solve [auto with calls] | step_frame ].
Ltac solve_silent := repeat first [ solve [auto with calls] | step_silent ].

(** ** The channel *)

Section ChannelFacts.
Import SSHConnection.

(** A world that differs from [w] only in what the transport holds and in
    a later clock. *)
Lemma frame_quiet (w w' : world) :
  channel w' = channel w -> target_data w' = target_data w ->
  files w' = files w -> (clock w <= clock w')%N -> sent w' = sent w ->
  frame w w'.
Proof.
intros H1 H2 H3 H4 H5; unfold frame; repeat (split; [assumption|]).
exists []; now rewrite app_nil_r.
Qed.

Lemma frame_time_time : preserves frame time_time.
Proof. intros w r w' H; inversion H; subst; auto with calls. Qed.

Lemma silent_time_time : preserves silent time_time.
Proof. intros w r w' H; inversion H; subst; auto with calls. Qed.

Lemma frame_time_sleep (ms : N) : preserves frame (time_sleep ms).
Proof.
intros w r w' H; inversion H; subst.
apply frame_quiet; simpl; try reflexivity; lia.
Qed.

Lemma silent_time_sleep (ms : N) : preserves silent (time_sleep ms).
Proof. intros w r w' H; inversion H; subst; reflexivity. Qed.

Lemma poll_recv_cases (nbytes : N) (w w' : world) (r : result (option string)) :
  poll_recv nbytes w = (r, w') ->
  (exists o, r = Ok o) /\ channel w' = channel w
  /\ target_data w' = target_data w /\ files w' = files w
  /\ (clock w <= clock w')%N /\ sent w' = sent w /\ dial w' = dial w.
Proof.
unfold poll_recv; intros H.
destruct (inbox w) as [|ev evs]; [|destruct (arrives ev)]; simpl in H;
  match type of H with
  | context [match ?p with EmptyString => _ | String _ _ => _ end] =>
      destruct p
  end; inversion H; subst; simpl;
  (split; [eexists; reflexivity|]); repeat split; lia.
Qed.

Lemma frame_poll_recv (nbytes : N) : preserves frame (poll_recv nbytes).
Proof.
intros w r w' H; apply poll_recv_cases in H as (_ & ? & ? & ? & ? & ? & _).
now apply frame_quiet.
Qed.

Lemma silent_poll_recv (nbytes : N) : preserves silent (poll_recv nbytes).
Proof.
intros w r w' H; now apply poll_recv_cases in H as (_ & _ & _ & _ & _ & ? & _).
Qed.

Lemma ensure_channel_ready_cases (w w' : world) (r : result unit) :
  ensure_channel_ready w = (r, w') ->
  w' = w
  /\ ((r = Ok tt /\ channel w = ChannelOpen)
      \/ (r = Raise (RuntimeError "SSH channel is not active or already closed.")
          /\ channel w <> ChannelOpen)).
Proof.
unfold ensure_channel_ready; destruct (channel w); intros H; inversion H;
  subst; split; auto; right; split; auto; discriminate.
Qed.

Lemma frame_ensure_channel_ready : preserves frame ensure_channel_ready.
Proof.
intros w r w' H; apply ensure_channel_ready_cases in H as [-> _];
  auto with calls.
Qed.

Lemma silent_ensure_channel_ready : preserves silent ensure_channel_ready.
Proof.
intros w r w' H; apply ensure_channel_ready_cases in H as [-> _];
  auto with calls.
Qed.

#[local] Hint Resolve frame_time_time silent_time_time frame_time_sleep
  silent_time_sleep frame_poll_recv silent_poll_recv
  frame_ensure_channel_ready silent_ensure_channel_ready : calls.

Lemma frame_flush (nbytes : N) : preserves frame (flush nbytes).
Proof. unfold flush; solve_frame. Qed.

Lemma silent_flush (nbytes : N) : preserves silent (flush nbytes).
Proof. unfold flush; solve_silent. Qed.

Lemma frame_channel_send (text : string) : preserves frame (channel_send text).
Proof.
intros w r w' H; inversion H; subst; unfold frame; simpl.
repeat (split; [reflexivity || lia|]); now exists [text].
Qed.

#[local] Hint Resolve frame_flush silent_flush frame_channel_send : calls.

Lemma frame_send (cmd : string) (wait : N) : preserves frame (send cmd wait).
Proof. unfold send; solve_frame. Qed.

#[local] Hint Resolve frame_send : calls.

(** What [send] writes: one line, unless the channel is not ready. *)
Lemma send_cases (cmd : string) (wait : N) (w w' : world) (r : result N) :
  send cmd wait w = (r, w') ->
  (exists e, r = Raise e /\ isinstance e cRuntimeError = true /\ w' = w
             /\ channel w <> ChannelOpen)
  \/ (exists n, r = Ok n /\ channel w = ChannelOpen
      /\ sent w' = (sent w ++ [(cmd ++ PyStr.LF)%string])%list).
Proof.
unfold send; intros H.
apply bind_cases in H as [(a & w1 & H1 & H2)|(e & H1 & ->)];
  apply ensure_channel_ready_cases in H1 as [-> [[E Hc]|[E Hc]]];
  try discriminate.
- right; unfold bind, channel_send, time_sleep, ret in H2; inversion H2; subst.
  eexists; repeat split; assumption.
- left; inversion E; subst; eexists; repeat split; assumption.
Qed.

Lemma frame_fire_responders (responders : list Responder) :
  forall output_chunks, preserves frame (fire_responders responders output_chunks).
Proof.
induction responders as [|rsp rs IH]; intros chunks; simpl; auto with calls.
solve_frame.
Qed.

Lemma silent_fire_responders_nil (output_chunks : list string) :
  preserves silent (fire_responders [] output_chunks).
Proof. simpl; auto with calls. Qed.

#[local] Hint Resolve frame_fire_responders silent_fire_responders_nil : calls.

Lemma frame_run_round (delim : string) (responders : list Responder)
      (bp : option pattern) (chunks : list string) :
  preserves frame (run_round delim responders bp chunks).
Proof. unfold run_round; solve_frame. Qed.

Lemma silent_run_round (delim : string) (bp : option pattern)
      (chunks : list string) :
  preserves silent (run_round delim [] bp chunks).
Proof.
unfold run_round; solve_silent.
Qed.

#[local] Hint Resolve frame_run_round silent_run_round : calls.

Lemma frame_run_loop (fuel : nat) (delim : string) (timeout : N)
      (responders : list Responder) (bp : option pattern) (start : N) :
  forall chunks,
    preserves frame (run_loop fuel delim timeout responders bp start chunks).
Proof.
induction fuel as [|fuel IH]; intros chunks; simpl;
  solve_frame.
destruct a0; auto with calls.
Qed.

Lemma silent_run_loop (fuel : nat) (delim : string) (timeout : N)
      (bp : option pattern) (start : N) :
  forall chunks,
    preserves silent (run_loop fuel delim timeout [] bp start chunks).
Proof.
induction fuel as [|fuel IH]; intros chunks; simpl;
  solve_silent.
destruct a0; auto with calls.
Qed.

#[local] Hint Resolve frame_run_loop silent_run_loop : calls.

Lemma frame_run_until_break (cmd delim : string) (timeout : N)
      (responders : option (list Responder)) (bp : option pattern) :
  preserves frame (run_until_break cmd delim timeout responders bp).
Proof. unfold run_until_break; solve_frame. Qed.

Lemma frame_decode_transcript (delim : string) (ec : Z) (chunks : list string) :
  preserves frame (decode_transcript delim ec chunks).
Proof.
unfold decode_transcript; solve_frame.
destruct (CommandFormatter.extract_exit_code _ _) as [[c o]|e];
  [|destruct (isinstance e _)]; auto with calls.
Qed.

#[local] Hint Resolve frame_run_until_break frame_decode_transcript : calls.

Lemma frame_run_raw (cmd delim : string) (timeout : N)
      (responders : option (list Responder)) (bp : option pattern) :
  preserves frame (_run_raw cmd delim timeout responders bp).
Proof.
unfold _run_raw; solve_frame.
destruct a; auto with calls.
Qed.

End ChannelFacts.

#[local] Hint Resolve frame_time_time silent_time_time frame_time_sleep
  silent_time_sleep frame_poll_recv silent_poll_recv
  frame_ensure_channel_ready silent_ensure_channel_ready
  frame_flush silent_flush frame_channel_send frame_send
  frame_fire_responders silent_fire_responders_nil
  frame_run_round silent_run_round frame_run_loop silent_run_loop
  frame_run_until_break frame_decode_transcript frame_run_raw : calls.

(** ** The run loop *)

Section RunLoopFacts.
Import PyStr CommandFormatter Marker SSHConnection.





Lemma run_round_outcome (delim : string) (rs : list Responder)
      (bp : option pattern) (chunks : list string) (w w' : world)
      (o : round_outcome) :
  run_round delim rs bp chunks w = (Ok o, w') ->
  match o with
  | Break ec buffer =>
      if exitcode_pattern delim (last_chunk buffer)
      then ec = UNSET
      else ec = BREAK_TRIGGERED
           /\ break_matches bp (last_chunk buffer) = true
  | Continue buffer =>
      exitcode_pattern delim (last_chunk buffer) = false
      /\ break_matches bp (last_chunk buffer) = false
  end.
Proof.
unfold run_round; intros H.
apply bind_ok in H as (r & w1 & _ & H).
apply bind_ok in H as (buffer & w2 & _ & H).
destruct (exitcode_pattern delim (last_chunk buffer)) eqn:He.
- inversion H; subst; now rewrite He.
- destruct (break_matches bp (last_chunk buffer)) eqn:Hb.
  + inversion H; subst; now rewrite He.
  + apply bind_ok in H as (u & w3 & _ & H); inversion H; subst; auto.
Qed.

Lemma run_loop_outcome (delim : string) (timeout : N) (rs : list Responder)
      (bp : option pattern) (start : N) (fuel : nat) :
  forall chunks w ec buffer w',
    run_loop fuel delim timeout rs bp start chunks w = (Ok (ec, buffer), w') ->
    if exitcode_pattern delim (last_chunk buffer)
    then ec = UNSET
    else ec = BREAK_TRIGGERED /\ break_matches bp (last_chunk buffer) = true.
Proof.
induction fuel as [|fuel IH]; intros chunks w ec buffer w' H; simpl in H;
  apply bind_ok in H as (now & w1 & _ & H);
  destruct (timeout <? now - start)%N; try discriminate.
apply bind_ok in H as (o & w2 & Ho & H).
apply run_round_outcome in Ho.
destruct o as [ec0 buf0|buf0].
- inversion H; subst; assumption.
- eapply IH; eassumption.
Qed.

Lemma run_until_break_outcome (cmd delim : string) (timeout : N)
      (rs : option (list Responder)) (bp : option pattern)
      (w w' : world) (ec : Z) (buffer : list string) :
  run_until_break cmd delim timeout rs bp w = (Ok (ec, buffer), w') ->
  channel w' = ChannelOpen
  /\ if exitcode_pattern delim (last_chunk buffer)
     then ec = UNSET
     else ec = BREAK_TRIGGERED /\ break_matches bp (last_chunk buffer) = true.
Proof.
intros H; split.
- pose proof (frame_run_until_break _ _ _ _ _ _ _ _ H) as (Hc & _).
  unfold run_until_break in H; apply bind_ok in H as (u & w1 & Hr & _).
  apply ensure_channel_ready_cases in Hr as [-> [[_ Ho]|[E _]]];
    [congruence | discriminate].
- unfold run_until_break in H.
  apply bind_ok in H as (u & w1 & _ & H).
  apply bind_ok in H as (n & w2 & _ & H).
  apply bind_ok in H as (f & w3 & _ & H).
  apply bind_ok in H as (st & w4 & _ & H).
  eapply run_loop_outcome; eassumption.
Qed.

(** On an open channel the final flush goes through. *)
Lemma flush_open (nbytes : N) (w : world) :
  channel w = ChannelOpen ->
  exists out w', flush nbytes w = (Ok out, w').
Proof.
intros Ho; unfold flush, bind, ensure_channel_ready; rewrite Ho.
destruct (poll_recv nbytes w) as [r w'] eqn:Hp.
destruct (poll_recv_cases _ _ _ _ Hp) as [[o ->] _]; now exists o, w'.
Qed.


Lemma decode_transcript_break (delim : string) (buffer : list string)
      (w : world) :
  channel w = ChannelOpen ->
  exists out w',
    decode_transcript delim BREAK_TRIGGERED buffer w
    = (Ok (out, exit_code_value BREAK_TRIGGERED), w').
Proof.
intros Ho; destruct (flush_open 9999 w Ho) as (out & w' & Hf).
unfold decode_transcript; rewrite (bind_ok_l _ _ _ _ _ Hf).
change (BREAK_TRIGGERED =? UNSET) with false; cbv iota.
eexists; eexists; reflexivity.
Qed.


End RunLoopFacts.

(** ** Deadlines: the loops stop by themselves *)

Section DeadlineFacts.
Import SSHConnection.

Lemma bind_time_time {A : Type} (k : N -> M A) (w : world) :
  bind time_time k w = k (clock w) w.
Proof. reflexivity. Qed.

Lemma run_round_continue_clock (delim : string) (rs : list Responder)
      (bp : option pattern) (chunks chunks' : list string) (w w' : world) :
  run_round delim rs bp chunks w = (Ok (Continue chunks'), w') ->
  (clock w + 100 <= clock w')%N.
Proof.
unfold run_round; intros H.
apply bind_ok in H as (r & w1 & H1 & H).
apply bind_ok in H as (buffer & w2 & H2 & H).
apply frame_poll_recv in H1 as (_ & _ & _ & Hc1 & _).
apply frame_fire_responders in H2 as (_ & _ & _ & Hc2 & _).
destruct (exitcode_pattern delim (last_chunk buffer)); [discriminate|].
destruct (break_matches bp (last_chunk buffer)); [discriminate|].
unfold bind, time_sleep, ret in H; inversion H; subst; simpl; lia.
Qed.

(** Once the rounds left cover what is left of the deadline, one more round
    of fuel changes nothing: the branch for spent fuel is never taken. *)
Lemma run_loop_fuel (delim : string) (timeout : N) (rs : list Responder)
      (bp : option pattern) (start : N) (fuel : nat) :
  forall chunks w,
    (start <= clock w)%N ->
    (timeout < clock w - start + 100 * N.of_nat fuel)%N ->
    run_loop (S fuel) delim timeout rs bp start chunks w
    = run_loop fuel delim timeout rs bp start chunks w.
Proof.
induction fuel as [|fuel IH]; intros chunks w Hs Ht.
- simpl; unfold bind, time_time.
  destruct (N.ltb_spec timeout (clock w - start)); [reflexivity | lia].
- change (run_loop (S (S fuel)) delim timeout rs bp start chunks w)
    with (bind time_time
            (fun now =>
               if (timeout <? now - start)%N then raise CommandTimeoutError
               else bind (run_round delim rs bp chunks)
                      (fun o =>
                         match o with
                         | Break ec c => ret (ec, c)
                         | Continue c =>
                             run_loop (S fuel) delim timeout rs bp start c
                         end)) w).
  change (run_loop (S fuel) delim timeout rs bp start chunks w)
    with (bind time_time
            (fun now =>
               if (timeout <? now - start)%N then raise CommandTimeoutError
               else bind (run_round delim rs bp chunks)
                      (fun o =>
                         match o with
                         | Break ec c => ret (ec, c)
                         | Continue c =>
                             run_loop fuel delim timeout rs bp start c
                         end)) w).
  rewrite !bind_time_time.
  destruct (N.ltb_spec timeout (clock w - start)); [reflexivity|].
  unfold bind.
  destruct (run_round delim rs bp chunks w) as [[[ec c|c]|e] w1] eqn:Hr;
    try reflexivity.
  apply run_round_continue_clock in Hr.
  apply IH; lia.
Qed.

(** [_run_raw] gives its loop fuel enough for the deadline. *)
Lemma rounds_cover_deadline (timeout now : N) :
  (timeout < now - now + 100 * N.of_nat (rounds timeout))%N.
Proof.
unfold rounds; rewrite Nat2N.inj_succ, N2Nat.id.
pose proof (N.mul_succ_div_gt timeout 100 ltac:(discriminate)); lia.
Qed.

Lemma run_loop_fuel_enough (delim : string) (timeout : N)
      (rs : list Responder) (bp : option pattern) (extra : nat) :
  forall chunks w,
    run_loop (rounds timeout + extra) delim timeout rs bp (clock w) chunks w
    = run_loop (rounds timeout) delim timeout rs bp (clock w) chunks w.
Proof.
induction extra as [|extra IH]; intros chunks w.
- now rewrite Nat.add_0_r.
- rewrite Nat.add_succ_r, run_loop_fuel; [apply IH | lia |].
  pose proof (rounds_cover_deadline timeout (clock w)).
  rewrite Nat2N.inj_add; lia.
Qed.

(** The same for the loop of [expect]. *)
Lemma expect_loop_step (fuel : nat) (regex : pattern) (timeout start : N)
      (output : string) :
  expect_loop (S fuel) regex timeout start output
  = (now <- time_time ;;
     if (now - start <? timeout)%N then
       r <- poll_recv RECV_BUFFER_SIZE ;;
       match r with
       | Some chunk =>
           if regex (output ++ chunk)%string then ret (output ++ chunk)%string
           else time_sleep 100 ;;
                expect_loop fuel regex timeout start (output ++ chunk)%string
       | None =>
           time_sleep 100 ;; expect_loop fuel regex timeout start output
       end
     else raise TimeoutError).
Proof. reflexivity. Qed.

Lemma expect_loop_fuel (regex : pattern) (timeout start : N) (fuel : nat) :
  forall output w,
    (start <= clock w)%N ->
    (timeout <= clock w - start + 100 * N.of_nat fuel)%N ->
    expect_loop (S fuel) regex timeout start output w
    = expect_loop fuel regex timeout start output w.
Proof.
induction fuel as [|fuel IH]; intros output w Hs Ht.
- simpl; unfold bind, time_time.
  destruct (N.ltb_spec (clock w - start) timeout); [lia | reflexivity].
- rewrite (expect_loop_step (S fuel)), (expect_loop_step fuel).
  rewrite !bind_time_time.
  destruct (N.ltb_spec (clock w - start) timeout); [|reflexivity].
  destruct (poll_recv RECV_BUFFER_SIZE w) as [[r|e] w1] eqn:Hp.
  + rewrite (bind_ok_l _ _ _ _ _ Hp), (bind_ok_l _ _ _ _ _ Hp).
    apply frame_poll_recv in Hp as (_ & _ & _ & Hc & _).
    destruct r as [chunk|]; [destruct (regex (output ++ chunk)%string)|];
      try reflexivity; unfold bind, time_sleep; apply IH;
      cbn [clock with_clock]; lia.
  + now rewrite (bind_raise_l _ _ _ _ _ Hp), (bind_raise_l _ _ _ _ _ Hp).
Qed.

Lemma expect_loop_fuel_enough (regex : pattern) (timeout : N) (extra : nat) :
  forall output w,
    expect_loop (rounds timeout + extra) regex timeout (clock w) output w
    = expect_loop (rounds timeout) regex timeout (clock w) output w.
Proof.
induction extra as [|extra IH]; intros output w.
- now rewrite Nat.add_0_r.
- rewrite Nat.add_succ_r, expect_loop_fuel; [apply IH | lia |].
  pose proof (rounds_cover_deadline timeout (clock w)).
  rewrite Nat2N.inj_add; lia.
Qed.

End DeadlineFacts.

(** ** Exit marker and early break *)

Section RunRawProperties.
Import PyStr CommandFormatter Marker SSHConnection.



(** ** The exit codes a run returns *)



End RunRawProperties.

(** ** What a run may raise *)

Section RaisingFacts.
Import SSHConnection.

Variable P : exn -> bool.

Lemma raises_only_ret {A : Type} (a : A) : raises_only P (ret a).
Proof. intros w e w' H; discriminate. Qed.

Lemma raises_only_raise {A : Type} (e : exn) :
  P e = true -> raises_only P (@raise A e).
Proof. intros He w e' w' H; inversion H; subst; assumption. Qed.

Lemma raises_only_bind {A B : Type} (m : M A) (k : A -> M B) :
  raises_only P m -> (forall a, raises_only P (k a)) ->
  raises_only P (bind m k).
Proof.
intros Hm Hk w e w' H.
apply bind_cases in H as [(a & w1 & _ & H)|(e' & H & E)].
- eapply Hk; eassumption.
- inversion E; subst; eapply Hm; eassumption.
Qed.

Lemma raises_only_if {A : Type} (b : bool) (m1 m2 : M A) :
  raises_only P m1 -> raises_only P m2 -> raises_only P (if b then m1 else m2).
Proof. now destruct b. Qed.

Lemma raises_only_time_time : raises_only P time_time.
Proof. intros w e w' H; discriminate. Qed.

Lemma raises_only_time_sleep (ms : N) : raises_only P (time_sleep ms).
Proof. intros w e w' H; discriminate. Qed.

Lemma raises_only_poll_recv (nbytes : N) : raises_only P (poll_recv nbytes).
Proof.
intros w e w' H; apply poll_recv_cases in H as [[o Ho] _]; discriminate.
Qed.

Lemma raises_only_channel_send (text : string) :
  raises_only P (channel_send text).
Proof. intros w e w' H; discriminate. Qed.

End RaisingFacts.

(** The exceptions a run lets out: [RuntimeError] for a channel that is not
    ready, [CommandTimeoutError] for a missed deadline. *)
Lemma raises_only_ensure_channel_ready (P : exn -> bool) :
  (forall msg, P (RuntimeError msg) = true) ->
  raises_only P SSHConnection.ensure_channel_ready.
Proof.
intros HP w e w' H.
apply ensure_channel_ready_cases in H as [_ [[E _]|[E _]]];
  inversion E; subst; apply HP.
Qed.

#[local] Hint Resolve raises_only_ret raises_only_raise raises_only_time_time
  raises_only_time_sleep raises_only_poll_recv raises_only_channel_send
  raises_only_ensure_channel_ready : calls.

Ltac solve_raises :=
  repeat first
    [ solve [auto with calls]
    | apply raises_only_bind; [|intros ?]
    | apply raises_only_if ].

Section RunRaises.
Import SSHConnection.

Variable P : exn -> bool.
Hypothesis P_runtime : forall msg, P (RuntimeError msg) = true.
Hypothesis P_timeout : P CommandTimeoutError = true.

Lemma raises_only_flush (nbytes : N) : raises_only P (flush nbytes).
Proof. unfold flush; solve_raises. Qed.

Lemma raises_only_send (cmd : string) (wait : N) : raises_only P (send cmd wait).
Proof. unfold send; solve_raises. Qed.

#[local] Hint Resolve raises_only_flush raises_only_send : calls.

Lemma raises_only_fire_responders (responders : list Responder) :
  forall chunks, raises_only P (fire_responders responders chunks).
Proof.
induction responders as [|rsp rs IH]; intros chunks; simpl; solve_raises.
Qed.

#[local] Hint Resolve raises_only_fire_responders : calls.

Lemma raises_only_run_round (delim : string) (rs : list Responder)
      (bp : option pattern) (chunks : list string) :
  raises_only P (run_round delim rs bp chunks).
Proof. unfold run_round; solve_raises. Qed.

#[local] Hint Resolve raises_only_run_round : calls.

Lemma raises_only_run_loop (fuel : nat) (delim : string) (timeout : N)
      (rs : list Responder) (bp : option pattern) (start : N) :
  forall chunks, raises_only P (run_loop fuel delim timeout rs bp start chunks).
Proof.
induction fuel as [|fuel IH]; intros chunks; simpl; solve_raises.
destruct a0; auto with calls.
Qed.

#[local] Hint Resolve raises_only_run_loop : calls.

Lemma raises_only_run_until_break (cmd delim : string) (timeout : N)
      (rs : option (list Responder)) (bp : option pattern) :
  raises_only P (run_until_break cmd delim timeout rs bp).
Proof. unfold run_until_break; solve_raises. Qed.

Lemma raises_only_decode_transcript (delim : string) (ec : Z)
      (chunks : list string) :
  raises_only P (decode_transcript delim ec chunks).
Proof.
unfold decode_transcript; solve_raises.
unfold CommandFormatter.extract_exit_code.
destruct (CommandFormatter.search_exitcode _ _) as [[? ?]|]; simpl;
  auto with calls.
Qed.

#[local] Hint Resolve raises_only_run_until_break raises_only_decode_transcript : calls.

Lemma raises_only_run_raw (cmd delim : string) (timeout : N)
      (rs : option (list Responder)) (bp : option pattern) :
  raises_only P (_run_raw cmd delim timeout rs bp).
Proof.
unfold _run_raw; solve_raises. destruct a; auto with calls.
Qed.

End RunRaises.

(** ** What a run without responders writes *)

Section SentFacts.
Import PyStr CommandFormatter SSHConnection.

Lemma silent_decode_transcript (delim : string) (ec : Z) (chunks : list string) :
  preserves silent (decode_transcript delim ec chunks).
Proof.
unfold decode_transcript; solve_silent.
destruct (extract_exit_code _ _) as [[c o]|e];
  [|destruct (isinstance e _)]; auto with calls.
Qed.

(** Without responders a run writes its command line and nothing else; on a
    channel that is not ready it writes nothing and raises [RuntimeError]. *)
Lemma run_until_break_sent (cmd delim : string) (timeout : N)
      (bp : option pattern) (w w1 : world) (r : result (Z * list string)) :
  run_until_break cmd delim timeout None bp w = (r, w1) ->
  (channel w <> ChannelOpen /\ w1 = w
   /\ exists e, r = Raise e /\ isinstance e cRuntimeError = true)
  \/ (channel w = ChannelOpen
      /\ sent w1 = (sent w ++ [sent_line cmd])%list).
Proof.
unfold run_until_break; intros H.
apply bind_cases in H as [(u & w0 & H0 & H)|(e & H0 & ->)];
  apply ensure_channel_ready_cases in H0 as [-> [[E Hc]|[E Hc]]];
  try discriminate.
- right; split; [assumption|].
  apply bind_cases in H as [(n & w2 & Hs & H)|(e & Hs & ->)];
    apply send_cases in Hs as [(e' & E' & _ & _ & Hn)|(n' & E' & _ & Hsent)];
    try discriminate; try contradiction.
  assert (Hq : silent w2 w1); [|unfold silent in Hq; unfold sent_line; congruence].
  revert H; generalize w2 r w1.
  change (preserves silent
            (_ <- flush n ;; start_time <- time_time ;;
             run_loop (rounds timeout) delim timeout [] bp start_time [""])).
  solve_silent.
- left; inversion E; subst; split; [assumption|split; [reflexivity|]].
  eexists; split; reflexivity.
Qed.

Lemma run_raw_sent (cmd delim : string) (timeout : N) (bp : option pattern)
      (w w' : world) (r : result (string * Z)) :
  _run_raw cmd delim timeout None bp w = (r, w') ->
  (channel w <> ChannelOpen /\ w' = w
   /\ exists e, r = Raise e /\ isinstance e cRuntimeError = true)
  \/ (channel w = ChannelOpen
      /\ sent w' = (sent w ++ [sent_line cmd])%list).
Proof.
unfold _run_raw; intros H.
apply bind_cases in H as [([ec buffer] & w1 & Hr & H)|(e & Hr & ->)];
  apply run_until_break_sent in Hr as [(Hc & -> & e' & E & He)|[Hc Hs]];
  try discriminate.
- right; split; [assumption|].
  apply silent_decode_transcript in H; unfold silent in H; congruence.
- left; split; [assumption|split; [reflexivity|]].
  inversion E; subst; exists e'; now split.
- right; now split.
Qed.

End SentFacts.

(** ** The recursive session *)

Section SessionFacts.
Import PyStr CommandFormatter SSHConnection RecursiveSSHSession.

Lemma raises_only_run (command : string) (timeout : N)
      (rs : option (list Responder)) (bp : option pattern) (delim : string) :
  raises_only run_error (run command timeout rs bp delim).
Proof. unfold run; now apply raises_only_run_raw. Qed.

Lemma raises_only_verify_env_variable (var_name msg : string) :
  raises_only run_error (_verify_env_variable var_name msg).
Proof.
unfold _verify_env_variable.
apply raises_only_bind; [apply raises_only_run|intros [output code]].
apply raises_only_if; auto with calls.
Qed.

Lemma verify_env_variable_sent (var_name msg : string) (w w' : world)
      (r : result unit) :
  _verify_env_variable var_name msg w = (r, w') ->
  (r <> Ok tt /\ sent w' = sent w)
  \/ sent w' = (sent w ++ [probe_line var_name])%list.
Proof.
unfold _verify_env_variable, run; intros H.
apply bind_cases in H as [([output code] & w1 & Hr & H)|(e & Hr & ->)].
- apply run_raw_sent in Hr as [(_ & _ & e & E & _)|[_ Hs]]; [discriminate|].
  right; destruct (contains "exists: 0" output); inversion H; subst; exact Hs.
- apply run_raw_sent in Hr as [(_ & -> & _)|[_ Hs]].
  + left; split; [discriminate | reflexivity].
  + right; exact Hs.
Qed.

(** A handler that re-raises leaves the world as the guarded call left it. *)
Lemma try_except_reraise {A : Type} (m : M A) (cls : exn_class)
      (wrap : exn -> exn) (w w' : world) (r : result A) :
  try_except m
    (fun e => if isinstance e cls then Some (raise (wrap e)) else None) w
  = (r, w') ->
  (exists a, r = Ok a /\ m w = (Ok a, w'))
  \/ (exists e, m w = (Raise e, w')
      /\ r = Raise (if isinstance e cls then wrap e else e)).
Proof.
unfold try_except; destruct (m w) as [[a|e] w1]; intros H.
- inversion H; subst; left; now exists a.
- right; exists e; destruct (isinstance e cls); inversion H; subst; now split.
Qed.

Lemma verify_target_session_token_sent (w w' : world) (r : result unit) :
  verify_target_session_token w = (r, w') ->
  (r <> Ok tt /\ sent w' = sent w)
  \/ sent w' = (sent w ++ [probe_line TARGET_SESSION_VAR])%list.
Proof.
unfold verify_target_session_token; intros H.
apply try_except_reraise in H as [(a & -> & H)|(e & H & ->)];
  apply verify_env_variable_sent in H as [[Hr Hs]|Hs]; auto.
left; split; [|assumption]; now destruct (isinstance e cRuntimeError).
Qed.

Lemma verify_gateway_session_token_sent (w w' : world) (r : result unit) :
  verify_gateway_session_token w = (r, w') ->
  (r <> Ok tt /\ sent w' = sent w)
  \/ sent w' = (sent w ++ [probe_line GATEWAY_SESSION_VAR])%list.
Proof.
unfold verify_gateway_session_token; intros H.
apply try_except_reraise in H as [(a & -> & H)|(e & H & ->)];
  apply verify_env_variable_sent in H as [[Hr Hs]|Hs]; auto.
left; split; [|assumption]; now destruct (isinstance e cRuntimeError).
Qed.

(** A failed gateway verification never shows as a [RuntimeError]: the
    verification has already turned every [RuntimeError] into a
    [GatewaySessionInactiveError]; what is left is a missed deadline. *)
Lemma verify_gateway_session_token_raises (w w' : world) (e : exn) :
  verify_gateway_session_token w = (Raise e, w') ->
  isinstance e cRuntimeError = false
  /\ isinstance e cTargetSSHConnectionError = false.
Proof.
unfold verify_gateway_session_token; intros H.
apply try_except_reraise in H as [(a & E & _)|(e0 & H & E)]; [discriminate|].
apply raises_only_verify_env_variable in H.
inversion E; subst; clear E.
destruct e0; try discriminate H; now split.
Qed.

(** Whatever the gateway verification raises, the hop raises too, in the
    same world: its own handler, for [RuntimeError], has nothing to catch. *)
Lemma establish_target_lets_gateway_failure_through
      (shell_prompt_pattern : pattern) (shell_prompt_timeout : N)
      (w w1 : world) (e : exn) :
  verify_gateway_session_token w = (Raise e, w1) ->
  establish_target_host_connection shell_prompt_pattern shell_prompt_timeout w
  = (Raise e, w1)
  /\ isinstance e cTargetSSHConnectionError = false
  /\ (sent w1 = sent w
      \/ sent w1 = (sent w ++ [probe_line GATEWAY_SESSION_VAR])%list).
Proof.
intros H.
destruct (verify_gateway_session_token_raises _ _ _ H) as [Hr Ht].
split; [|split; [assumption|]].
- unfold establish_target_host_connection.
  apply bind_raise_l; unfold try_except; now rewrite H, Hr.
- apply verify_gateway_session_token_sent in H as [[_ Hs]|Hs]; auto.
Qed.


End SessionFacts.

Section SessionProperties.
Import PyStr CommandFormatter SSHConnection RecursiveSSHSession.

(** C1.  On a session whose gateway shell answers the probe with
    [exists: 0], [establish_target_host_connection] sends no nested [ssh]
    command, and what it raises is the [GatewaySessionInactiveError] of the
    verification, not a [TargetSSHConnectionError]. *)
Theorem establish_target_gateway_token_lost :
  exists w',
    establish_target_host_connection Scenario.prompt 90000
      Scenario.gateway_token_lost
    = (Raise (GatewaySessionInactiveError
                "Gateway SSH session shell unable to verify connection variable."),
       w')
    /\ sent w' = [probe_line GATEWAY_SESSION_VAR].
Proof.
eexists; split; vm_compute; reflexivity.
Qed.



(** C5.  Each of [run_at_target], [run_as_root_at_target] and
    [run_bash_script_at_target_as_root] verifies the target token first and
    hands the command to the gateway connection only after that; when the
    verification raises, the call raises the same exception and at most the
    probe has been written to the channel, and the probe is not the line of
    any command or script formatted for the target. *)
Theorem target_commands_verify_token_first :
  (forall command responders break_on timeout,
      verified_first
        (run_at_target command responders break_on timeout)
        (SSHConnection.run command timeout responders break_on
           TARGET_SESSION_EXITCODE_DELIMITER))
  /\ (forall command password responders break_on timeout,
         verified_first
           (run_as_root_at_target command password responders break_on timeout)
           (SSHConnection.run_as_root command password timeout responders
              break_on TARGET_SESSION_EXITCODE_DELIMITER))
  /\ (forall script password args from_file timeout responders break_on,
         verified_first
           (run_bash_script_at_target_as_root script password args from_file
              timeout responders break_on)
           (SSHConnection.run_bash_script_as_root script password args
              from_file timeout responders break_on
              TARGET_SESSION_EXITCODE_DELIMITER))
  /\ (forall command root,
         probe_line TARGET_SESSION_VAR
         <> sent_line (regular_command command
                         TARGET_SESSION_EXITCODE_DELIMITER root))
  /\ (forall script args root,
         probe_line TARGET_SESSION_VAR
         <> sent_line (bash_script_from_string script
                         TARGET_SESSION_EXITCODE_DELIMITER args root)).
Proof.
assert (Hgen : forall delegate : M (string * Z),
           verified_first (verify_target_session_token ;; delegate) delegate).
{ intros delegate w; split.
  - intros e w1 Hv; split; [now apply bind_raise_l|].
    apply verify_target_session_token_sent in Hv as [[_ Hs]|Hs]; auto.
  - intros w1 Hv; split; [now rewrite (bind_ok_l _ _ _ _ _ Hv)|].
    apply verify_target_session_token_sent in Hv as [[Hr _]|Hs];
      [now elim Hr | assumption]. }
split; [|split; [|split; [|split]]]; intros; try apply Hgen.
- intros H; unfold sent_line in H.
  destruct (regular_command_suffix command
              TARGET_SESSION_EXITCODE_DELIMITER root) as [body Hb].
  rewrite Hb in H; clear Hb.
  replace ((body ++ "; echo " ++ TARGET_SESSION_EXITCODE_DELIMITER ++ ":$?")
           ++ LF)
    with ((body ++ "; echo __TARGE") ++ ("T_EXITCODE:$?" ++ LF)) in H
    by (rewrite !append_assoc; reflexivity).
  change (probe_line TARGET_SESSION_VAR)
    with ("echo exists: $?__TARGET_SESSION; echo " ++ ("__EXITCODE:$?" ++ LF))
    in H.
  apply append_tail_inj in H; [discriminate H | reflexivity].
- intros H; unfold sent_line in H.
  destruct (bash_script_suffix script TARGET_SESSION_EXITCODE_DELIMITER
              args root) as [body Hb].
  rewrite Hb in H; clear Hb.
  rewrite append_assoc in H.
  change (probe_line TARGET_SESSION_VAR)
    with ("echo exists: $?__TARGET_SESSION; echo __EXITCODE:$" ++ ("?" ++ LF))
    in H.
  apply append_tail_inj in H; [discriminate H | reflexivity].
Qed.

Lemma target_commands_verify_token_first_witness :
  exists e w1,
    run_at_target "ls /tmp" None None 30000
      (Scenario.connected (Scenario.appliance "10.0.0.5")
         (Scenario.token_unset "__EXITCODE"))
    = (Raise e, w1)
    /\ sent w1 = [probe_line TARGET_SESSION_VAR].
Proof.
destruct (verify_target_session_token
            (Scenario.connected (Scenario.appliance "10.0.0.5")
               (Scenario.token_unset "__EXITCODE")))
  as [[[]|e] w1] eqn:Hv;
  pose proof Hv as Hv'; vm_compute in Hv'; inversion Hv'; subst.
eexists; eexists; split.
- exact (proj1 (proj1 (proj1 target_commands_verify_token_first
                         "ls /tmp" None None 30000%N _) _ _ Hv)).
- reflexivity.
Defined.



End SessionProperties.

(** ** The serial group runner *)

Section GroupFacts.
Import SerialRecursiveSSHGroup.

Lemma dict_set_fresh {V : Type} (d : list (string * V)) (k : string) (v : V) :
  ~ In k (map fst d) -> dict_set d k v = (d ++ [(k, v)])%list.
Proof.
induction d as [|[k' v'] d IH]; simpl; intros Hk; [reflexivity|].
destruct (String.eqb_spec k' k) as [->|Hne]; [tauto|].
rewrite IH; [reflexivity | tauto].
Qed.

Lemma validate_descriptors (commands : list command_object) (w : world) :
  Forall descriptor commands -> validate commands w = (Ok tt, w).
Proof.
induction 1 as [|c commands Hc _ IH]; simpl; [reflexivity|].
destruct c; [assumption | assumption | now elim Hc].
Qed.

(** What the [except] clauses make of the two kinds of failure. *)
Lemma run_target_except_target_level (e : exn) (outs : list (string * Z)) :
  target_level e = true ->
  run_target_except e outs = ret (failed_result e outs).
Proof.
unfold target_level, run_target_except, failed_result.
destruct e; simpl; try discriminate; reflexivity.
Qed.

Lemma run_target_except_gateway_level (e : exn) (outs : list (string * Z)) :
  gateway_level e = true -> run_target_except e outs = raise e.
Proof.
unfold gateway_level, run_target_except; now intros ->.
Qed.

Lemma run_target_target_level (self : t) (target : SSHConnectionData)
      (commands : list command_object) (w w' : world) (e : exn)
      (outs : list (string * Z)) :
  Forall descriptor commands ->
  run_target_try self target commands w = (Raise e, outs, w') ->
  target_level e = true ->
  run_target self target commands w = (Ok (failed_result e outs), w').
Proof.
intros Hv Ht He; unfold run_target.
rewrite (bind_ok_l _ _ _ _ _ (validate_descriptors _ w Hv)), Ht.
now rewrite run_target_except_target_level.
Qed.

Lemma run_target_gateway_level (self : t) (target : SSHConnectionData)
      (commands : list command_object) (w w' : world) (e : exn)
      (outs : list (string * Z)) :
  Forall descriptor commands ->
  run_target_try self target commands w = (Raise e, outs, w') ->
  gateway_level e = true ->
  run_target self target commands w = (Raise e, w').
Proof.
intros Hv Ht He; unfold run_target.
rewrite (bind_ok_l _ _ _ _ _ (validate_descriptors _ w Hv)), Ht.
now rewrite run_target_except_gateway_level.
Qed.

(** The loop over a list in two parts is the loop over the first part
    followed by the loop over the second. *)
Lemma run_targets_loop_app (self : t) (commands : list command_object)
      (first second : list SSHConnectionData) :
  forall results w,
    run_targets_loop self (first ++ second) commands results w
    = bind (run_targets_loop self first commands results)
        (fun results' => run_targets_loop self second commands results') w.
Proof.
induction first as [|target first IH]; intros results w; [reflexivity|].
simpl; rewrite bind_assoc; apply bind_ext; intros out w1.
rewrite bind_assoc; apply bind_ext; intros u w2; apply IH.
Qed.

(** A batch that comes to its end has one entry per host met, in the order
    of the list when the hosts differ, and keeps the entries of the hosts
    it does not meet again. *)
Lemma run_targets_loop_keys (self : t) (commands : list command_object)
      (todo : list SSHConnectionData) :
  forall results w results' w',
    NoDup (map fst results ++ map host todo) ->
    run_targets_loop self todo commands results w = (Ok results', w') ->
    map fst results' = (map fst results ++ map host todo)%list
    /\ (forall k v, In (k, v) results -> In (k, v) results').
Proof.
induction todo as [|target todo IH]; intros results w results' w' Hnd H.
- simpl in H; inversion H; subst; simpl; now rewrite app_nil_r.
- simpl in H.
  apply bind_ok in H as (out & w1 & _ & H).
  apply bind_ok in H as (u & w2 & _ & H).
  assert (Hfresh : ~ In (host target) (map fst results)).
  { intros Hin; apply NoDup_remove_2 in Hnd; apply Hnd.
    apply in_or_app; now left. }
  rewrite (dict_set_fresh _ _ _ Hfresh) in H.
  apply IH in H.
  + destruct H as [Hk Hin]; split.
    * rewrite Hk, map_app, <- app_assoc; reflexivity.
    * intros k v Hkv; apply Hin, in_or_app; now left.
  + rewrite map_app, <- app_assoc; exact Hnd.
Qed.

End GroupFacts.

Section GroupProperties.
Import SerialRecursiveSSHGroup.

(** C2, as the code has it.  Take a batch over targets with pairwise
    different hosts, in which the targets before the one at hand have been
    run, the run of the one at hand raises a target-level session defect,
    and neither the session reset that follows it nor the rest of the batch
    lets an exception out.  Then [run_all_targets] goes on to the targets
    after it and returns one result per target, in the order of the target
    list, the result of the target at hand being a failed one that holds
    the exception. *)
Theorem target_defect_does_not_stop_batch
        (self : t) (commands : list command_object)
        (before : list SSHConnectionData) (target : SSHConnectionData)
        (after : list SSHConnectionData)
        (w w1 w2 w3 w4 : world) (e : exn) (outs : list (string * Z))
        (r1 rN : list (string * TargetExecutionResult)) :
  targets self = (before ++ target :: after)%list ->
  NoDup (map host (targets self)) ->
  Forall descriptor commands ->
  run_targets_loop self before commands [] w = (Ok r1, w1) ->
  run_target_try self target commands w1 = (Raise e, outs, w2) ->
  target_level e = true ->
  reset_if_broken (failed_result e outs) w2 = (Ok tt, w3) ->
  run_targets_loop self after commands
    (dict_set r1 (host target) (failed_result e outs)) w3 = (Ok rN, w4) ->
  run_all_targets self commands w = (Ok rN, w4)
  /\ map fst rN = map host (targets self)
  /\ length rN = length (targets self)
  /\ In (host target, failed_result e outs) rN
  /\ success (failed_result e outs) = false.
Proof.
intros Ht Hnd Hv Hb Hk He Hr Ha.
assert (Hall : run_all_targets self commands w = (Ok rN, w4)).
{ unfold run_all_targets; rewrite Ht, run_targets_loop_app.
  rewrite (bind_ok_l _ _ _ _ _ Hb); simpl.
  rewrite (bind_ok_l _ _ _ _ _
             (run_target_target_level _ _ _ _ _ _ _ Hv Hk He)).
  now rewrite (bind_ok_l _ _ _ _ _ Hr). }
assert (Hkeys : map fst rN = map host (targets self)).
{ unfold run_all_targets in Hall.
  now apply run_targets_loop_keys in Hall as [Hkeys _]. }
split; [exact Hall|]; split; [exact Hkeys|]; split; [|split; [|reflexivity]].
- now rewrite <- (length_map fst), Hkeys, length_map.
- rewrite Ht, map_app in Hnd; simpl in Hnd.
  apply run_targets_loop_keys in Hb as [Hk1 _];
    [|simpl; eapply NoDup_app_remove_r; exact Hnd].
  simpl in Hk1.
  assert (Hfresh : ~ In (host target) (map fst r1)).
  { rewrite Hk1; intros Hin; apply NoDup_remove_2 in Hnd; apply Hnd.
    apply in_or_app; now left. }
  rewrite (dict_set_fresh _ _ _ Hfresh) in Ha.
  apply run_targets_loop_keys in Ha as [_ Hin].
  + apply Hin, in_or_app; right; now left.
  + rewrite map_app, Hk1, <- app_assoc; exact Hnd.
Qed.

Lemma target_defect_does_not_stop_batch_witness :
  exists rN w4,
    run_all_targets (Scenario.batch Scenario.three_targets)
      [Scenario.list_tmp] Scenario.second_hop_refused = (Ok rN, w4)
    /\ map fst rN = ["10.0.0.5"; "10.0.0.6"; "10.0.0.7"]
    /\ length rN = 3%nat
    /\ exists e,
         In ("10.0.0.6", failed_result e []) rN
         /\ isinstance e cTargetSSHConnectionError = true.
Proof.
pose (self := Scenario.batch Scenario.three_targets).
pose (commands := [Scenario.list_tmp]).
destruct (run_targets_loop self [Scenario.appliance "10.0.0.5"] commands []
            Scenario.second_hop_refused) as [[r1|e1] w1] eqn:Hb;
  pose proof Hb as Hb'; vm_compute in Hb'; inversion Hb'; subst r1 w1;
  clear Hb'.
match type of Hb with _ = (_, ?w1) =>
  destruct (run_target_try self (Scenario.appliance "10.0.0.6") commands w1)
    as [[[u|e] outs] w2] eqn:Hk;
  pose proof Hk as Hk'; vm_compute in Hk'; inversion Hk'; subst e outs w2;
  clear Hk'
end.
match type of Hk with _ = (Raise ?e, ?outs, ?w2) =>
  destruct (reset_if_broken (failed_result e outs) w2) as [[[]|e3] w3] eqn:Hr;
  pose proof Hr as Hr'; vm_compute in Hr'; inversion Hr'; subst w3; clear Hr'
end.
match type of Hb with _ = (Ok ?r1, _) =>
match type of Hk with _ = (Raise ?e, ?outs, _) =>
match type of Hr with _ = (_, ?w3) =>
  destruct (run_targets_loop self [Scenario.appliance "10.0.0.7"] commands
              (dict_set r1 "10.0.0.6" (failed_result e outs)) w3)
    as [[rN|e4] w4] eqn:Ha;
  pose proof Ha as Ha'; vm_compute in Ha'; inversion Ha'; subst rN w4;
  clear Ha'
end end end.
pose proof (target_defect_does_not_stop_batch self commands
              [Scenario.appliance "10.0.0.5"] (Scenario.appliance "10.0.0.6")
              [Scenario.appliance "10.0.0.7"] _ _ _ _ _ _ _ _ _
              eq_refl
              ltac:(repeat constructor; simpl; intuition discriminate)
              ltac:(repeat constructor; discriminate)
              Hb Hk eq_refl Hr Ha) as (Hall & Hkeys & Hlen & Hin & _).
eexists; eexists; split; [exact Hall|].
split; [exact Hkeys|]; split; [exact Hlen|].
eexists; split; [exact Hin | reflexivity].
Defined.

(** C2, as stated, fails: the results are keyed by host, so a target list
    that names a host twice gives fewer results than targets. *)
Lemma one_result_per_target_refuted :
  ~ (forall (self : t) (commands : list command_object)
            (before : list SSHConnectionData) (target : SSHConnectionData)
            (after : list SSHConnectionData) (w w1 w2 : world) (e : exn)
            (outs : list (string * Z))
            (r1 : list (string * TargetExecutionResult)),
        targets self = (before ++ target :: after)%list ->
        before <> [] -> after <> [] ->
        run_targets_loop self before commands [] w = (Ok r1, w1) ->
        run_target_try self target commands w1 = (Raise e, outs, w2) ->
        target_level e = true ->
        exists rN w4,
          run_all_targets self commands w = (Ok rN, w4)
          /\ length rN = length (targets self)).
Proof.
intros H.
pose (self := Scenario.batch Scenario.same_host_twice).
destruct (run_targets_loop self [Scenario.appliance "10.0.0.5"] [] []
            Scenario.every_hop_refused) as [[r1|e1] w1] eqn:Hb;
  pose proof Hb as Hb'; vm_compute in Hb'; inversion Hb'; subst r1 w1;
  clear Hb'.
match type of Hb with _ = (_, ?w1) =>
  destruct (run_target_try self (Scenario.appliance "10.0.0.6") [] w1)
    as [[[u|e] outs] w2] eqn:Hk;
  pose proof Hk as Hk'; vm_compute in Hk'; inversion Hk'; subst e outs w2;
  clear Hk'
end.
destruct (H self [] [Scenario.appliance "10.0.0.5"]
            (Scenario.appliance "10.0.0.6") _ _ _ _ _ _ _
            eq_refl ltac:(discriminate) ltac:(discriminate) Hb Hk eq_refl)
  as (rN & w4 & Hall & Hlen).
vm_compute in Hall; inversion Hall; subst rN; discriminate Hlen.
Qed.

(** The loop has no handler around [self.session.close()]: a deadline
    missed by a probe of the session reset ends the batch as well. *)
Lemma reset_deadline_ends_batch :
  exists w',
    run_all_targets (Scenario.batch Scenario.three_targets)
      [Scenario.list_tmp] Scenario.reset_unanswered
    = (Raise CommandTimeoutError, w').
Proof. eexists; vm_compute; reflexivity. Qed.

(** C7.  When the run of a target raises a gateway-level failure,
    [run_target] raises it again and [run_all_targets] lets it out: the
    call returns no results, and it ends in the world of the failure, so
    nothing is done for the targets after it. *)
Theorem gateway_failure_aborts_batch
        (self : t) (commands : list command_object)
        (before : list SSHConnectionData) (target : SSHConnectionData)
        (after : list SSHConnectionData)
        (w w1 w2 : world) (e : exn) (outs : list (string * Z))
        (r1 : list (string * TargetExecutionResult)) :
  targets self = (before ++ target :: after)%list ->
  Forall descriptor commands ->
  run_targets_loop self before commands [] w = (Ok r1, w1) ->
  run_target_try self target commands w1 = (Raise e, outs, w2) ->
  gateway_level e = true ->
  run_target self target commands w1 = (Raise e, w2)
  /\ run_all_targets self commands w = (Raise e, w2).
Proof.
intros Ht Hv Hb Hk He.
pose proof (run_target_gateway_level _ _ _ _ _ _ _ Hv Hk He) as Hrun.
split; [exact Hrun|].
unfold run_all_targets; rewrite Ht, run_targets_loop_app.
rewrite (bind_ok_l _ _ _ _ _ Hb); simpl.
now rewrite (bind_raise_l _ _ _ _ _ Hrun).
Qed.

Lemma gateway_failure_aborts_batch_witness :
  exists w2,
    run_all_targets (Scenario.batch Scenario.three_targets)
      [Scenario.list_tmp] Scenario.gateway_gone_at_second
    = (Raise (GatewaySSHConnectionError
                "Error occurred while establishing gateway connection"), w2)
    /\ ~ In (sent_line
               (CommandFormatter.regular_command
                  (RecursiveSSHSession.ssh_command (Scenario.appliance "10.0.0.7"))
                  RecursiveSSHSession.SSH_TARGET_CONNECTION_EXITCODE false))
            (sent w2).
Proof.
pose (self := Scenario.batch Scenario.three_targets).
pose (commands := [Scenario.list_tmp]).
destruct (run_targets_loop self [Scenario.appliance "10.0.0.5"] commands []
            Scenario.gateway_gone_at_second) as [[r1|e1] w1] eqn:Hb;
  pose proof Hb as Hb'; vm_compute in Hb'; inversion Hb'; subst r1 w1;
  clear Hb'.
match type of Hb with _ = (_, ?w1) =>
  destruct (run_target_try self (Scenario.appliance "10.0.0.6") commands w1)
    as [[[u|e] outs] w2] eqn:Hk;
  pose proof Hk as Hk'; vm_compute in Hk'; inversion Hk'; subst e outs w2;
  clear Hk'
end.
eexists; split.
- exact (proj2 (gateway_failure_aborts_batch self commands
                  [Scenario.appliance "10.0.0.5"]
                  (Scenario.appliance "10.0.0.6")
                  [Scenario.appliance "10.0.0.7"] _ _ _ _ _ _
                  eq_refl ltac:(repeat constructor; discriminate)
                  Hb Hk eq_refl)).
- vm_compute; intuition discriminate.
Defined.

End GroupProperties.

(** * Further properties of the code *)

(** ** formatter.py *)

Section FormatterCoverage.
Import PyStr CommandFormatter Marker.

Lemma all_chars_app (f : ascii -> bool) (a b : string) :
  all_chars f (a ++ b) = all_chars f a && all_chars f b.
Proof.
  induction a as [|c a IH]; simpl; [reflexivity|].
  now rewrite IH, andb_assoc.
Qed.



Lemma lstrip_spaces (a s : string) :
  all_chars is_space a = true -> lstrip (a ++ s) = lstrip s.
Proof.
  induction a as [|c a IH]; simpl; [reflexivity|].
  intros H; apply andb_true_iff in H as [Hc Ha]. now rewrite Hc, IH.
Qed.

Lemma rstrip_all_spaces (b : string) :
  all_chars is_space b = true -> rstrip b = "".
Proof.
  induction b as [|c b IH]; simpl; [reflexivity|].
  intros H; apply andb_true_iff in H as [Hc Hb]. now rewrite IH, Hc.
Qed.

Lemma rstrip_spaces (s b : string) :
  all_chars is_space b = true -> rstrip (s ++ b) = rstrip s.
Proof.
  intros Hb; induction s as [|c s IH]; simpl.
  - now apply rstrip_all_spaces.
  - now rewrite IH.
Qed.

Lemma lstrip_all_spaces (b : string) :
  all_chars is_space b = true -> lstrip b = "".
Proof.
  induction b as [|c b IH]; simpl; [reflexivity|].
  intros H; apply andb_true_iff in H as [Hc Hb]. now rewrite Hc, IH.
Qed.

Lemma lstrip_app (s b : string) :
  lstrip (s ++ b) = lstrip s ++ b
  \/ (lstrip s = "" /\ lstrip (s ++ b) = lstrip b).
Proof.
  induction s as [|c s IH]; simpl.
  - now right.
  - destruct (is_space c); [exact IH | now left].
Qed.

Lemma strip_spaces (a s b : string) :
  all_chars is_space a = true -> all_chars is_space b = true ->
  strip (a ++ s ++ b) = strip s.
Proof.
  intros Ha Hb; unfold strip. rewrite (lstrip_spaces _ _ Ha).
  destruct (lstrip_app s b) as [E|[E1 E2]].
  - rewrite E. now apply rstrip_spaces.
  - rewrite E2, E1, (lstrip_all_spaces _ Hb). reflexivity.
Qed.

(** White space around a command never reaches the channel: the formatted
    line is that of the bare command. *)
Theorem regular_command_ignores_surrounding_space
        (lead command trail delim : string) (root : bool) :
  all_chars is_space lead = true ->
  all_chars is_space trail = true ->
  regular_command (lead ++ command ++ trail) delim root
  = regular_command command delim root.
Proof.
  intros Ha Hb; unfold regular_command. now rewrite (strip_spaces _ _ _ Ha Hb).
Qed.

Lemma regular_command_ignores_surrounding_space_witness :
  regular_command ("  " ++ "ls /tmp" ++ " " ++ LF) "__EXITCODE" true
  = regular_command "ls /tmp" "__EXITCODE" true.
Proof.
  exact (regular_command_ignores_surrounding_space "  " "ls /tmp" (" " ++ LF)
           "__EXITCODE" true eq_refl eq_refl).
Defined.

(** *** The echo of a command line holds no marker *)

Lemma marker_text_chars (delim ds : string) :
  valid_delimiter delim = true -> digits ds ->
  all_chars marker_char (delim ++ ":" ++ ds) = true.
Proof.
  intros Hv [_ Hds]. rewrite !all_chars_app.
  apply andb_true_iff; split; [|apply andb_true_iff; split; [reflexivity|]].
  - destruct delim as [|c d]; [discriminate|]. unfold valid_delimiter in Hv.
    revert Hv; generalize (String c d); intros s; induction s as [|x s IH];
      simpl; [reflexivity|].
    intros H; apply andb_true_iff in H as [Hx Hs].
    rewrite (IH Hs), andb_true_r. unfold marker_char; now rewrite Hx.
  - revert Hds; induction ds as [|x s IH]; simpl; [reflexivity|].
    intros H; apply andb_true_iff in H as [Hx Hs].
    rewrite (IH Hs), andb_true_r. unfold marker_char, identifier_char.
    unfold is_digit in Hx. now rewrite Hx.
Qed.

Lemma prefix_before_break (c : ascii) (b : string) (m : string) :
  marker_char c = false ->
  forall a y, all_chars marker_char m = true ->
    m ++ y = a ++ String c b -> exists y', a = m ++ y'.
Proof.
  intros Hc; induction m as [|k m IH]; intros a y Hm E.
  - now exists a.
  - simpl in Hm; apply andb_true_iff in Hm as [Hk Hm].
    destruct a as [|d a]; simpl in E; inversion E; subst.
    + congruence.
    + destruct (IH _ _ Hm H1) as [y' ->]. now exists y'.
Qed.

(** A text made of marker characters does not straddle a character of
    another kind. *)
Lemma no_straddle (c : ascii) (b m y : string) :
  m <> "" -> all_chars marker_char m = true -> marker_char c = false ->
  forall a x,
    x ++ m ++ y = a ++ String c b ->
    (exists y', a = x ++ m ++ y') \/ (exists x', b = x' ++ m ++ y).
Proof.
  intros Hne Hm Hc; induction a as [|d a IH]; intros x E.
  - destruct x as [|c1 x]; simpl in E.
    + destruct m as [|k m]; [now elim Hne|].
      simpl in Hm; apply andb_true_iff in Hm as [Hk _].
      simpl in E; inversion E; subst; congruence.
    + inversion E; subst. right; now exists x.
  - destruct x as [|c1 x]; simpl in E.
    + left. destruct (prefix_before_break c b m Hc (String d a) y Hm E) as [y' Hy].
      now exists y'.
    + inversion E; subst.
      destruct (IH _ H1) as [[y' ->]|[x' ->]].
      * left; now exists y'.
      * right; now exists x'.
Qed.

Lemma marker_occurs_split (delim a b : string) (c : ascii) :
  valid_delimiter delim = true -> marker_char c = false ->
  marker_occurs delim (a ++ String c b) ->
  marker_occurs delim a \/ marker_occurs delim b.
Proof.
  intros Hv Hc (before & ds & after & E & Hds).
  assert (Hm := marker_text_chars _ _ Hv Hds).
  assert (Hne : delim ++ ":" ++ ds <> "").
  { destruct delim; [discriminate | simpl; discriminate]. }
  assert (E' : before ++ (delim ++ ":" ++ ds) ++ after = a ++ String c b).
  { rewrite E. now rewrite !append_assoc. }
  destruct (no_straddle c b _ after Hne Hm Hc a before E') as [[y' Hy]|[x' Hx]].
  - left; exists before, ds, y'. split; [|exact Hds].
    rewrite Hy. now rewrite !append_assoc.
  - right; exists x', ds, after. split; [|exact Hds].
    rewrite Hx. now rewrite !append_assoc.
Qed.

Lemma marker_needs_colon (delim s : string) :
  marker_occurs delim s -> all_chars not_colon s = false.
Proof.
  intros (before & ds & after & E & _). subst s.
  rewrite !all_chars_app. simpl.
  now rewrite !andb_false_r.
Qed.

Lemma marker_needs_digits (delim tail : string) :
  (String.length tail < 1)%nat -> ~ marker_occurs delim (delim ++ ":" ++ tail).
Proof.
  intros Hl (before & ds & after & E & [Hne _]).
  apply (f_equal String.length) in E. rewrite !length_append in E. simpl in E.
  destruct ds; [now apply Hne | simpl in E; lia].
Qed.

Lemma echo_suffix_holds_no_marker (delim : string) :
  valid_delimiter delim = true ->
  ~ marker_occurs delim (" echo " ++ delim ++ ":$?").
Proof.
  intros Hv H.
  change (" echo " ++ delim ++ ":$?") with (" echo" ++ String " " (delim ++ ":$?")) in H.
  apply marker_occurs_split in H as [H|H]; [| |exact Hv|reflexivity].
  - apply marker_needs_colon in H; discriminate.
  - assert (E : delim ++ ":$?" = (delim ++ ":") ++ String "$" "?")
      by now rewrite append_assoc.
    rewrite E in H.
    apply marker_occurs_split in H as [H|H]; [| |exact Hv|reflexivity].
    + apply (marker_needs_digits delim ""); [simpl; lia | exact H].
    + apply marker_needs_colon in H; discriminate.
Qed.

Lemma regular_command_holds_no_marker (command delim : string) (root : bool) :
  valid_delimiter delim = true ->
  ~ marker_occurs delim (strip command) ->
  ~ marker_occurs delim (regular_command command delim root).
Proof.
  intros Hv Hno.
  assert (Hfull : ~ marker_occurs delim (strip command ++ "; echo " ++ delim ++ ":$?")).
  { intros H.
    change (strip command ++ "; echo " ++ delim ++ ":$?")
      with (strip command ++ String ";" (" echo " ++ delim ++ ":$?")) in H.
    apply marker_occurs_split in H as [H|H]; [| |exact Hv|reflexivity].
    - now apply Hno.
    - now apply (echo_suffix_holds_no_marker delim Hv). }
  unfold regular_command; destruct root; [|exact Hfull].
  intros H.
  change ("sudo su root -c " ++ strip command ++ "; echo " ++ delim ++ ":$?")
    with ("sudo su root -c"
          ++ String " " (strip command ++ "; echo " ++ delim ++ ":$?")) in H.
  apply marker_occurs_split in H as [H|H]; [| |exact Hv|reflexivity].
  - apply marker_needs_colon in H; discriminate.
  - now apply Hfull.
Qed.

(** The line a command is sent as shows [delim:$?], never [delim:] and a
    digit: when the terminal echoes the line, the echo is not taken for the
    exit marker, unless the command itself spells one. *)
Theorem command_echo_is_not_decoded (command delim : string) (root : bool) :
  valid_delimiter delim = true ->
  ~ marker_occurs delim (strip command) ->
  SSHConnection.exitcode_pattern delim (regular_command command delim root) = false
  /\ extract_exit_code (regular_command command delim root) delim
     = Raise ExitCodeNotFoundError.
Proof.
  intros Hv Hno.
  pose proof (regular_command_holds_no_marker command delim root Hv Hno) as H.
  assert (Hs : search_exitcode delim (regular_command command delim root) = None).
  { destruct (search_exitcode delim (regular_command command delim root))
      as [[b ds]|] eqn:Hs; [|reflexivity].
    exfalso; apply H.
    destruct (search_exitcode_sound _ _ _ _ Hs) as [[after Hat] _].
    now exists b, ds, after. }
  unfold SSHConnection.exitcode_pattern, extract_exit_code. now rewrite Hs.
Qed.

Lemma command_echo_is_not_decoded_witness :
  SSHConnection.exitcode_pattern "__TARGET_EXITCODE"
    (regular_command "ls /tmp" "__TARGET_EXITCODE" true) = false
  /\ extract_exit_code (regular_command "ls /tmp" "__TARGET_EXITCODE" true)
       "__TARGET_EXITCODE"
     = Raise ExitCodeNotFoundError.
Proof.
  apply (command_echo_is_not_decoded "ls /tmp" "__TARGET_EXITCODE" true eq_refl).
  intros H; apply search_exitcode_complete in H; apply H; reflexivity.
Defined.

(** *** Quoting of script arguments *)

Lemma append_inv_tail (c : string) :
  forall a b, a ++ c = b ++ c -> a = b.
Proof.
  induction a as [|x a IH]; intros [|y b] E; simpl in E.
  - reflexivity.
  - apply (f_equal String.length) in E; simpl in E;
      rewrite length_append in E; lia.
  - apply (f_equal String.length) in E; simpl in E;
      rewrite length_append in E; lia.
  - inversion E; subst. f_equal. now apply IH.
Qed.

Lemma escaped_quote_inj (s1 : string) :
  forall s2,
    replace_char (ascii_of_nat 39)
      (SQUOTE ++ DQUOTE ++ SQUOTE ++ DQUOTE ++ SQUOTE) s1
    = replace_char (ascii_of_nat 39)
        (SQUOTE ++ DQUOTE ++ SQUOTE ++ DQUOTE ++ SQUOTE) s2 ->
    s1 = s2.
Proof.
  unfold SQUOTE, DQUOTE, chr.
  induction s1 as [|c1 s1 IH]; intros [|c2 s2]; simpl; intros E.
  - reflexivity.
  - destruct (Ascii.eqb c2 (ascii_of_nat 39)); simpl in E; discriminate.
  - destruct (Ascii.eqb c1 (ascii_of_nat 39)); simpl in E; discriminate.
  - destruct (Ascii.eqb c1 (ascii_of_nat 39)) eqn:E1,
             (Ascii.eqb c2 (ascii_of_nat 39)) eqn:E2;
      simpl in E; inversion E; subst.
    + apply Ascii.eqb_eq in E1, E2; subst. f_equal. now apply IH.
    + now rewrite Ascii.eqb_refl in E2.
    + now rewrite Ascii.eqb_refl in E1.
    + f_equal. now apply IH.
Qed.

Lemma shlex_quote_cases (s : string) :
  (s = "" /\ shlex_quote s = SQUOTE ++ SQUOTE)
  \/ (s <> "" /\ all_chars shlex_safe s = true /\ shlex_quote s = s)
  \/ (s <> ""
      /\ shlex_quote s
         = SQUOTE
           ++ replace_char (ascii_of_nat 39)
                (SQUOTE ++ DQUOTE ++ SQUOTE ++ DQUOTE ++ SQUOTE) s
           ++ SQUOTE).
Proof.
  destruct s as [|c s]; [now left|right].
  unfold shlex_quote.
  destruct (all_chars shlex_safe (String c s)) eqn:E.
  - left; repeat split; discriminate.
  - right; split; [discriminate | reflexivity].
Qed.

Lemma safe_text_is_not_quoted (s tail : string) :
  all_chars shlex_safe s = true -> s <> SQUOTE ++ tail.
Proof.
  intros Hs E; subst s. discriminate Hs.
Qed.

Lemma shlex_quote_inj (s1 s2 : string) :
  shlex_quote s1 = shlex_quote s2 -> s1 = s2.
Proof.
  intros E.
  destruct (shlex_quote_cases s1) as [[H1 Q1]|[(N1 & S1 & Q1)|[N1 Q1]]];
  destruct (shlex_quote_cases s2) as [[H2 Q2]|[(N2 & S2 & Q2)|[N2 Q2]]];
    rewrite Q1, Q2 in E.
  - congruence.
  - symmetry in E. now apply safe_text_is_not_quoted in E.
  - exfalso. apply (f_equal String.length) in E.
    rewrite !length_append in E. simpl in E.
    destruct s2 as [|c s2]; [now apply N2|]. simpl in E.
    rewrite length_append in E.
    destruct (Ascii.eqb c (ascii_of_nat 39)); simpl in E; lia.
  - now apply safe_text_is_not_quoted in E.
  - exact E.
  - now apply safe_text_is_not_quoted in E.
  - exfalso. apply (f_equal String.length) in E.
    rewrite !length_append in E. simpl in E.
    destruct s1 as [|c s1]; [now apply N1|]. simpl in E.
    rewrite length_append in E.
    destruct (Ascii.eqb c (ascii_of_nat 39)); simpl in E; lia.
  - symmetry in E. now apply safe_text_is_not_quoted in E.
  - unfold SQUOTE at 1 3, chr in E. simpl in E. inversion E as [E'].
    apply append_inv_tail in E'. now apply escaped_quote_inj.
Qed.

(** [shlex.quote] keeps arguments apart: two different arguments of a script
    are never written as the same text. *)
Theorem shlex_quote_keeps_arguments_apart (s1 s2 : string) :
  s1 <> s2 -> shlex_quote s1 <> shlex_quote s2.
Proof.
  intros Hne E; apply Hne; now apply shlex_quote_inj.
Qed.

Lemma shlex_quote_keeps_arguments_apart_witness :
  shlex_quote "it's" <> shlex_quote "its".
Proof.
  apply shlex_quote_keeps_arguments_apart; discriminate.
Defined.

(** *** The delimiters of the package *)

Lemma search_exitcode_past_digits (delim ds after : string) :
  starts_with_digit delim = false -> delim <> "" ->
  all_chars is_digit ds = true ->
  search_exitcode delim after = None ->
  search_exitcode delim (ds ++ after) = None.
Proof.
  intros Hd Hne Hds Ha; induction ds as [|c ds IH]; simpl; [exact Ha|].
  simpl in Hds; apply andb_true_iff in Hds as [Hc Hds].
  rewrite (IH Hds).
  destruct delim as [|k delim]; [now elim Hne|].
  unfold match_exitcode_here; simpl.
  destruct (Ascii.eqb k c) eqn:E; [|reflexivity].
  apply Ascii.eqb_eq in E; subst. simpl in Hd; congruence.
Qed.

(** A marker written with one of the three delimiters of the package is
    never read as a marker of another of them. *)
Theorem session_delimiters_do_not_cross_talk (d1 d2 ds after : string) :
  In d1 session_delimiters -> In d2 session_delimiters -> d1 <> d2 ->
  digits ds ->
  extract_exit_code after d1 = Raise ExitCodeNotFoundError ->
  extract_exit_code (d2 ++ ":" ++ ds ++ after) d1 = Raise ExitCodeNotFoundError.
Proof.
  intros H1 H2 Hne [_ Hds] Ha.
  assert (Hs : search_exitcode d1 after = None).
  { unfold extract_exit_code in Ha.
    destruct (search_exitcode d1 after) as [[? ?]|]; [discriminate|reflexivity]. }
  unfold extract_exit_code.
  simpl in H1, H2.
  destruct H1 as [<-|[<-|[<-|[]]]]; destruct H2 as [<-|[<-|[<-|[]]]];
    try (now elim Hne);
    cbv [RecursiveSSHSession.DEFAULT_EXITCODE_DELIMITER
         RecursiveSSHSession.TARGET_SESSION_EXITCODE_DELIMITER
         RecursiveSSHSession.SSH_TARGET_CONNECTION_EXITCODE];
    simpl;
    unfold match_exitcode_here; simpl;
    rewrite search_exitcode_past_digits by (assumption || reflexivity || discriminate);
    reflexivity.
Qed.

Lemma session_delimiters_do_not_cross_talk_witness :
  extract_exit_code ("__TARGET_EXITCODE" ++ ":" ++ "0" ++ LF) "__EXITCODE"
  = Raise ExitCodeNotFoundError.
Proof.
  apply session_delimiters_do_not_cross_talk.
  - simpl; tauto.
  - simpl; tauto.
  - discriminate.
  - split; [discriminate | reflexivity].
  - reflexivity.
Defined.

End FormatterCoverage.

(** ** connection.py *)

Section ConnectionCoverage.
Import PyStr CommandFormatter SSHConnection.

Lemma refused_bind {A B : Type} (m : M A) (k : A -> M B) (w : world) :
  refused m w -> refused (bind m k) w.
Proof.
  unfold refused; intros H. now rewrite (bind_raise_l _ _ _ _ _ H).
Qed.

Lemma refused_ensure_channel_ready (w : world) :
  channel w <> ChannelOpen -> refused ensure_channel_ready w.
Proof.
  intros H; unfold refused, ensure_channel_ready, CHANNEL_NOT_READY.
  destruct (channel w); first [reflexivity | now elim H].
Qed.

Lemma refused_run_raw (cmd delim : string) (timeout : N)
      (rs : option (list Responder)) (bp : option pattern) (w : world) :
  channel w <> ChannelOpen -> refused (_run_raw cmd delim timeout rs bp) w.
Proof.
  intros H; unfold _run_raw, run_until_break.
  now apply refused_bind, refused_bind, refused_ensure_channel_ready.
Qed.

(** On a channel that was never opened, or was closed, every call that
    needs the channel raises [RuntimeError] at once: nothing is written,
    nothing is read, no time passes. *)
Theorem calls_need_open_channel (w : world) :
  channel w <> ChannelOpen ->
  (forall cmd wait, refused (send cmd wait) w)
  /\ (forall nbytes, refused (flush nbytes) w)
  /\ (forall regex timeout, refused (expect regex timeout) w)
  /\ (forall cmd delim timeout rs bp,
         refused (_run_raw cmd delim timeout rs bp) w)
  /\ (forall command timeout rs bp delim,
         refused (run command timeout rs bp delim) w)
  /\ (forall command password timeout rs bp delim,
         refused (run_as_root command password timeout rs bp delim) w)
  /\ (forall script args timeout rs bp delim,
         refused (run_bash_script script args false timeout rs bp delim) w)
  /\ (forall script password args timeout rs bp delim,
         refused (run_bash_script_as_root script password args false timeout
                    rs bp delim) w).
Proof.
  intros H; repeat split; intros.
  - now apply refused_bind, refused_ensure_channel_ready.
  - now apply refused_bind, refused_ensure_channel_ready.
  - now apply refused_bind, refused_ensure_channel_ready.
  - now apply refused_run_raw.
  - now apply refused_run_raw.
  - now apply refused_run_raw.
  - unfold run_bash_script, refused, bind, format_script.
    now apply refused_run_raw.
  - unfold run_bash_script_as_root, refused, bind, format_script.
    now apply refused_run_raw.
Qed.

Lemma calls_need_open_channel_witness :
  refused (run "ls /tmp" 30000 None None "__EXITCODE") (Scenario.fresh [] [true]).
Proof.
  assert (H : channel (Scenario.fresh [] [true]) <> ChannelOpen) by discriminate.
  exact (proj1 (proj2 (proj2 (proj2 (proj2
           (calls_need_open_channel (Scenario.fresh [] [true]) H)))))
           "ls /tmp" 30000%N None None "__EXITCODE").
Defined.

(** [close] never raises and may be repeated; once it has run, every run on
    the connection is turned down.  The [close] of a group is this one. *)
Theorem close_is_idempotent_and_final (w : world) :
  exists w1,
    SSHConnection.close w = (Ok tt, w1)
    /\ SerialRecursiveSSHGroup.close w = (Ok tt, w1)
    /\ SSHConnection.close w1 = (Ok tt, w1)
    /\ sent w1 = sent w
    /\ (forall command timeout rs bp delim,
           refused (run command timeout rs bp delim) w1).
Proof.
  unfold SerialRecursiveSSHGroup.close, SSHConnection.close.
  destruct (channel w) eqn:E; eexists; repeat split;
    try (intros; apply refused_run_raw); simpl; try rewrite E;
    try reflexivity; try discriminate.
Qed.

(** *** Deadlines *)

Lemma run_loop_step (fuel : nat) (delim : string) (timeout : N)
      (rs : list Responder) (bp : option pattern) (start : N)
      (chunks : list string) :
  run_loop (S fuel) delim timeout rs bp start chunks
  = (now <- time_time ;;
     if (timeout <? now - start)%N then raise CommandTimeoutError
     else o <- run_round delim rs bp chunks ;;
          match o with
          | Break ec c => ret (ec, c)
          | Continue c => run_loop fuel delim timeout rs bp start c
          end).
Proof. reflexivity. Qed.

Lemma runtime_error_only (e : exn) :
  isinstance e cRuntimeError = true -> e <> CommandTimeoutError.
Proof. intros H E; subst; discriminate. Qed.

Lemma run_loop_deadline (delim : string) (timeout : N) (rs : list Responder)
      (bp : option pattern) (start : N) (fuel : nat) :
  forall chunks w w',
    (start <= clock w)%N ->
    (timeout < clock w - start + 100 * N.of_nat fuel)%N ->
    run_loop fuel delim timeout rs bp start chunks w
    = (Raise CommandTimeoutError, w') ->
    (timeout < clock w' - start)%N.
Proof.
  induction fuel as [|fuel IH]; intros chunks w w' Hs Ht H.
  - simpl in H. rewrite bind_time_time in H.
    destruct (N.ltb_spec timeout (clock w - start)); [|lia].
    unfold raise in H; inversion H; subst; assumption.
  - rewrite run_loop_step, bind_time_time in H.
    destruct (N.ltb_spec timeout (clock w - start)).
    + unfold raise in H; inversion H; subst; assumption.
    + destruct (run_round delim rs bp chunks w) as [[[ec c|c]|e] w1] eqn:Hr.
      * rewrite (bind_ok_l _ _ _ _ _ Hr) in H. discriminate.
      * rewrite (bind_ok_l _ _ _ _ _ Hr) in H.
        apply run_round_continue_clock in Hr.
        apply IH in H; [exact H | lia | lia].
      * rewrite (bind_raise_l _ _ _ _ _ Hr) in H. inversion H; subst.
        apply (raises_only_run_round (fun e => isinstance e cRuntimeError)) in Hr;
          [discriminate | reflexivity].
Qed.

Lemma run_until_break_deadline (cmd delim : string) (timeout : N)
      (rs : option (list Responder)) (bp : option pattern) (w w' : world) :
  run_until_break cmd delim timeout rs bp w = (Raise CommandTimeoutError, w') ->
  channel w = ChannelOpen /\ (timeout < clock w' - clock w)%N.
Proof.
  unfold run_until_break; intros H.
  apply bind_cases in H as [(u & w1 & H1 & H)|(e & H1 & He)].
  2:{ inversion He; subst e.
      apply ensure_channel_ready_cases in H1 as [_ [[? _]|[? _]]]; discriminate. }
  apply ensure_channel_ready_cases in H1 as [-> [[_ Ho]|[? _]]]; [|discriminate].
  split; [exact Ho|].
  apply bind_cases in H as [(n & w2 & H2 & H)|(e & H2 & He)].
  2:{ inversion He; subst e.
      apply send_cases in H2 as [(e & E & Hi & _)|(n & E & _)];
        inversion E; subst; discriminate. }
  apply frame_send in H2 as (_ & _ & _ & Hc2 & _).
  apply bind_cases in H as [(o & w3 & H3 & H)|(e & H3 & He)].
  2:{ inversion He; subst e.
      apply (raises_only_flush (fun e => isinstance e cRuntimeError)) in H3;
        [discriminate | reflexivity]. }
  apply frame_flush in H3 as (_ & _ & _ & Hc3 & _).
  rewrite bind_time_time in H.
  apply run_loop_deadline in H;
    [lia | lia | apply rounds_cover_deadline].
Qed.

(** A run gives up only after its deadline: when [_run_raw] raises
    [CommandTimeoutError], the channel was open and more than [timeout] has
    passed since the call. *)
Theorem command_timeout_is_not_premature (cmd delim : string) (timeout : N)
        (rs : option (list Responder)) (bp : option pattern) (w w' : world) :
  _run_raw cmd delim timeout rs bp w = (Raise CommandTimeoutError, w') ->
  channel w = ChannelOpen /\ (timeout < clock w' - clock w)%N.
Proof.
  unfold _run_raw; intros H.
  apply bind_cases in H as [([ec chunks] & w1 & H1 & H)|(e & H1 & He)].
  - apply (raises_only_decode_transcript (fun e => isinstance e cRuntimeError)) in H;
      [discriminate | reflexivity].
  - inversion He; subst e. now apply run_until_break_deadline in H1.
Qed.

Lemma command_timeout_is_not_premature_witness :
  exists w',
    _run_raw "sleep 60; echo __EXITCODE:$?" "__EXITCODE" 250 None None
      (Scenario.connected Scenario.nobody [])
    = (Raise CommandTimeoutError, w')
    /\ (250 < clock w' - clock (Scenario.connected Scenario.nobody []))%N.
Proof.
  destruct (_run_raw "sleep 60; echo __EXITCODE:$?" "__EXITCODE" 250 None None
              (Scenario.connected Scenario.nobody [])) as [[r|e] w'] eqn:E;
    pose proof E as E'; vm_compute in E'; inversion E'; subst.
  eexists; split; [reflexivity|].
  exact (proj2 (command_timeout_is_not_premature _ _ _ _ _ _ _ E)).
Defined.

(** *** Waiting for a prompt *)

Lemma expect_loop_cases (regex : pattern) (timeout start : N) (fuel : nat) :
  forall output w r w',
    (start <= clock w)%N ->
    (timeout <= clock w - start + 100 * N.of_nat fuel)%N ->
    expect_loop fuel regex timeout start output w = (r, w') ->
    sent w' = sent w /\ channel w' = channel w /\ (clock w <= clock w')%N
    /\ match r with
       | Ok out => regex out = true
       | Raise e => e = TimeoutError /\ (timeout <= clock w' - start)%N
       end.
Proof.
  induction fuel as [|fuel IH]; intros output w r w' Hs Ht H.
  - simpl in H. rewrite bind_time_time in H.
    assert (E : r = Raise TimeoutError /\ w' = w).
    { destruct (clock w - start <? timeout)%N; unfold raise in H;
        inversion H; now subst. }
    destruct E as [-> ->]. repeat split; try reflexivity; lia.
  - rewrite expect_loop_step, bind_time_time in H.
    destruct (N.ltb_spec (clock w - start) timeout).
    2:{ unfold raise in H; inversion H; subst.
        repeat split; try reflexivity; lia. }
    destruct (poll_recv RECV_BUFFER_SIZE w) as [[o|e] w1] eqn:Hp.
    2:{ apply poll_recv_cases in Hp as [[o Ho] _]; discriminate. }
    rewrite (bind_ok_l _ _ _ _ _ Hp) in H.
    apply poll_recv_cases in Hp as (_ & Hch & _ & _ & Hc & Hsent & _).
    assert (Hrec : forall out,
               expect_loop fuel regex timeout start out
                 (with_clock (clock w1 + 100) w1) = (r, w') ->
               sent w' = sent w /\ channel w' = channel w
               /\ (clock w <= clock w')%N
               /\ match r with
                  | Ok out => regex out = true
                  | Raise e => e = TimeoutError /\ (timeout <= clock w' - start)%N
                  end).
    { intros out Hl.
      apply IH in Hl; cbn [clock with_clock] in *; [|lia|lia].
      destruct Hl as (Hs' & Hch' & Hc' & Hr).
      cbn [sent channel with_clock] in *.
      repeat split; [congruence | congruence | lia | exact Hr]. }
    destruct o as [chunk|].
    + destruct (regex (output ++ chunk)%string) eqn:Hre.
      * unfold ret in H; inversion H; subst.
        repeat split; assumption.
      * apply (Hrec (output ++ chunk)%string). exact H.
    + apply (Hrec output). exact H.
Qed.

Lemma expect_cases (regex : pattern) (timeout : N) (w w' : world)
      (r : result string) :
  expect regex timeout w = (r, w') ->
  sent w' = sent w
  /\ match r with
     | Ok out => regex out = true /\ channel w = ChannelOpen
                 /\ channel w' = ChannelOpen
     | Raise e =>
         (e = CHANNEL_NOT_READY /\ w' = w /\ channel w <> ChannelOpen)
         \/ (e = TimeoutError /\ channel w' = ChannelOpen
             /\ (timeout <= clock w' - clock w)%N)
     end.
Proof.
  unfold expect; intros H.
  apply bind_cases in H as [(u & w1 & H1 & H)|(e & H1 & He)].
  - apply ensure_channel_ready_cases in H1 as [-> [[_ Ho]|[? _]]]; [|discriminate].
    rewrite bind_time_time in H.
    apply expect_loop_cases in H;
      [|lia|apply N.lt_le_incl, rounds_cover_deadline].
    destruct H as (Hs & Hch & _ & Hr). split; [exact Hs|].
    destruct r as [out|e].
    + repeat split; congruence.
    + right. destruct Hr as [-> Ht]. repeat split; congruence.
  - subst r.
    apply ensure_channel_ready_cases in H1 as [-> [[? _]|[E Hn]]]; [discriminate|].
    inversion E; subst. split; [reflexivity|]. left; now repeat split.
Qed.

(** [expect] writes nothing.  The text it returns matches the pattern; it
    raises [RuntimeError] at once when the channel is not open and
    [TimeoutError] not before [timeout] has passed. *)
Theorem expect_returns_matching_text (regex : pattern) (timeout : N)
        (w w' : world) (r : result string) :
  expect regex timeout w = (r, w') ->
  sent w' = sent w
  /\ match r with
     | Ok out => regex out = true
     | Raise e =>
         (e = CHANNEL_NOT_READY /\ w' = w)
         \/ (e = TimeoutError /\ (timeout <= clock w' - clock w)%N)
     end.
Proof.
  intros H; apply expect_cases in H as [Hs Hr]. split; [exact Hs|].
  destruct r as [out|e]; [tauto|].
  destruct Hr as [(-> & -> & _)|(-> & _ & Ht)]; [left | right]; now split.
Qed.

Lemma expect_returns_matching_text_witness :
  exists out w',
    expect Scenario.prompt 10000
      (Scenario.connected Scenario.nobody
         [Scenario.deliver "Last login"; Scenario.deliver ("admin@gateway:~$ ")])
    = (Ok out, w')
    /\ sent w' = [] /\ Scenario.prompt out = true.
Proof.
  destruct (expect Scenario.prompt 10000
              (Scenario.connected Scenario.nobody
                 [Scenario.deliver "Last login";
                  Scenario.deliver ("admin@gateway:~$ ")]))
    as [[out|e] w'] eqn:E;
    pose proof E as E'; vm_compute in E'; inversion E'; subst.
  eexists; eexists; split; [reflexivity|].
  exact (expect_returns_matching_text _ _ _ _ _ E).
Defined.

Lemma frame_expect_loop (fuel : nat) (regex : pattern) (timeout start : N) :
  forall output, preserves frame (expect_loop fuel regex timeout start output).
Proof.
  induction fuel as [|fuel IH]; intros output; simpl; solve_frame.
  destruct a0; [destruct (regex (output ++ s)%string)|]; solve_frame.
Qed.

Lemma frame_expect (regex : pattern) (timeout : N) :
  preserves frame (expect regex timeout).
Proof.
  unfold expect.
  apply (preserves_bind frame frame_trans); [auto with calls | intros ?].
  apply (preserves_bind frame frame_trans); [auto with calls | intros ?].
  apply frame_expect_loop.
Qed.

(** *** Opening the gateway shell *)

Lemma connect_cases (connection_timeout shell_prompt_timeout : N)
      (shell_prompt_pattern : pattern) (w w' : world) (r : result unit) :
  SSHConnection.connect connection_timeout shell_prompt_timeout
    shell_prompt_pattern w = (r, w') ->
  sent w' = sent w /\ target_data w' = target_data w /\ files w' = files w
  /\ match r with
     | Ok _ => channel w' = ChannelOpen
     | Raise e =>
         (e = TransportError /\ channel w' = channel w)
         \/ (e = PromptTimeoutError /\ channel w' = ChannelOpen)
     end.
Proof.
  unfold SSHConnection.connect; intros H.
  apply bind_cases in H as [(u & w1 & H1 & H)|(e & H1 & He)].
  2:{ subst r. unfold open_shell in H1.
      destruct (dial w) as [|[] rest]; inversion H1; subst;
        repeat split; try reflexivity; left; now split. }
  assert (Hw1 : sent w1 = sent w /\ target_data w1 = target_data w
                /\ files w1 = files w /\ channel w1 = ChannelOpen).
  { unfold open_shell in H1.
    destruct (dial w) as [|[] rest]; inversion H1; subst; now repeat split. }
  destruct Hw1 as (Hs1 & Ht1 & Hf1 & Hc1).
  unfold bind at 1, time_sleep at 1 in H.
  unfold try_except in H.
  destruct (bind (expect shell_prompt_pattern shell_prompt_timeout)
              (fun _ => ret tt) (with_clock (clock w1 + 1000) w1))
    as [[u'|e] w2] eqn:He.
  - inversion H; subst.
    assert (Hf := He).
    apply (preserves_bind frame frame_trans) in Hf;
      [|apply frame_expect | intros ?; auto with calls].
    destruct Hf as (Hch & Htd & Hfi & _ & _).
    apply bind_ok in He as (out & w3 & He & Hr).
    unfold ret in Hr; inversion Hr; subst.
    apply expect_cases in He as [Hs _].
    cbn [sent channel target_data files with_clock] in *.
    repeat split; congruence.
  - assert (Hf := He).
    apply (preserves_bind frame frame_trans) in Hf;
      [|apply frame_expect | intros ?; auto with calls].
    destruct Hf as (Hch & Htd & Hfi & _ & _).
    apply bind_cases in He as [(out & w3 & He & Hr)|(e' & He & Ee)];
      [discriminate|].
    inversion Ee; subst e'.
    apply expect_cases in He as [Hs [(-> & _ & Hn)|(-> & Ho & _)]];
      cbn [sent channel target_data files with_clock] in *.
    + now elim Hn.
    + simpl in H. unfold raise in H; inversion H; subst.
      repeat split; try congruence. right; now split.
Qed.



(** *** Responders *)

Lemma fire_responders_sent (responders : list Responder) :
  forall chunks w r w',
    fire_responders responders chunks w = (r, w') ->
    exists mask,
      sent w'
      = (sent w
         ++ map (fun responder => sent_line (response responder))
              (pick mask responders))%list.
Proof.
  induction responders as [|responder rs IH]; intros chunks w r w' H.
  - unfold fire_responders, ret in H; inversion H; subst.
    exists []. simpl. now rewrite app_nil_r.
  - simpl in H.
    destruct (_compiled_regex responder (last_chunk chunks)).
    + apply bind_cases in H as [(n & w1 & H1 & H)|(e & H1 & He)].
      * apply send_cases in H1 as [(e & E & _)|(n' & _ & _ & Hs1)];
          [discriminate|].
        apply bind_cases in H as [(o & w2 & H2 & H)|(e & H2 & He)].
        -- apply silent_flush in H2.
           apply IH in H as [mask Hm].
           exists (true :: mask). simpl.
           rewrite Hm, H2, Hs1, <- app_assoc. reflexivity.
        -- apply silent_flush in H2.
           exists (true :: map (fun _ => false) rs). simpl.
           assert (E : pick (map (fun _ : Responder => false) rs) rs = [])
             by (clear; induction rs; simpl; auto).
           rewrite E. simpl. now rewrite H2, Hs1.
      * apply send_cases in H1 as [(e' & E & _ & -> & _)|(n' & E & _)];
          [|subst; discriminate].
        exists []. simpl. now rewrite app_nil_r.
    + apply IH in H as [mask Hm]. exists (false :: mask). exact Hm.
Qed.

(** In one round of the loop each responder answers at most once, and the
    answers go out in the order of the list: what the round writes is a
    selection of the responses, each sent as a line. *)
Theorem responders_answer_once_in_order (responders : list Responder)
        (chunks : list string) (w w' : world) (r : result (list string)) :
  fire_responders responders chunks w = (r, w') ->
  exists mask,
    sent w'
    = (sent w
       ++ map (fun responder => sent_line (response responder))
            (pick mask responders))%list
    /\ (length (sent w') <= length (sent w) + length responders)%nat.
Proof.
  intros H; apply fire_responders_sent in H as [mask Hm].
  exists mask; split; [exact Hm|].
  rewrite Hm, length_app, length_map.
  assert (forall (m : list bool) (l : list Responder),
             (length (pick m l) <= length l)%nat).
  { clear; induction m as [|[] m IH]; intros [|x l]; simpl;
      try specialize (IH l); lia. }
  specialize (H mask responders); lia.
Qed.

Lemma responders_answer_once_in_order_witness :
  exists r w',
    fire_responders
      [Responders.SSH_CONNECTION_YES_NO_FINGERPRINT_RESPONDER;
       Responders.get_ssh_login_password_responder "secret"]
      ["admin@10.0.0.5's password :"]
      (Scenario.connected Scenario.nobody []) = (r, w')
    /\ exists mask,
         sent w'
         = map (fun responder => sent_line (response responder))
             (pick mask
                [Responders.SSH_CONNECTION_YES_NO_FINGERPRINT_RESPONDER;
                 Responders.get_ssh_login_password_responder "secret"]).
Proof.
  destruct (fire_responders
              [Responders.SSH_CONNECTION_YES_NO_FINGERPRINT_RESPONDER;
               Responders.get_ssh_login_password_responder "secret"]
              ["admin@10.0.0.5's password :"]
              (Scenario.connected Scenario.nobody [])) as [r w'] eqn:E.
  exists r, w'; split; [reflexivity|].
  destruct (responders_answer_once_in_order _ _ _ _ _ E) as [mask [Hm _]].
  exists mask. exact Hm.
Defined.

(** *** The exit code of a run *)



End ConnectionCoverage.

(** ** What a call may raise, and where it leaves the channel *)

Section OpenChannel.
Import SSHConnection.

Lemma from_open_intro (P : exn -> bool) {A : Type} (m : M A) :
  preserves frame m -> raises_only P m -> from_open P m.
Proof.
  intros Hf Hr w r w' Ho H; split.
  - apply Hf in H as (Hc & _). congruence.
  - intros e ->. eapply Hr; eassumption.
Qed.

Lemma from_open_mono (P Q : exn -> bool) {A : Type} (m : M A) :
  (forall e, P e = true -> Q e = true) -> from_open P m -> from_open Q m.
Proof.
  intros HPQ Hm w r w' Ho H. destruct (Hm _ _ _ Ho H) as [Hc He].
  split; [exact Hc | intros e E; apply HPQ, He, E].
Qed.

Lemma from_open_ret (P : exn -> bool) {A : Type} (a : A) : from_open P (ret a).
Proof.
  intros w r w' Ho H; unfold ret in H; inversion H; subst.
  split; [exact Ho | discriminate].
Qed.

Lemma from_open_raise (P : exn -> bool) {A : Type} (e : exn) :
  P e = true -> from_open P (@raise A e).
Proof.
  intros HP w r w' Ho H; unfold raise in H; inversion H; subst.
  split; [exact Ho | intros e' E; inversion E; now subst].
Qed.

Lemma from_open_bind (P : exn -> bool) {A B : Type} (m : M A) (k : A -> M B) :
  from_open P m -> (forall a, from_open P (k a)) -> from_open P (bind m k).
Proof.
  intros Hm Hk w r w' Ho H.
  apply bind_cases in H as [(a & w1 & H1 & H)|(e & H1 & ->)].
  - destruct (Hm _ _ _ Ho H1) as [Ho1 _]. exact (Hk a _ _ _ Ho1 H).
  - destruct (Hm _ _ _ Ho H1) as [Ho1 He]. split; [exact Ho1|].
    intros e' E; inversion E; subst. now apply He.
Qed.

Lemma from_open_if (P : exn -> bool) {A : Type} (b : bool) (m1 m2 : M A) :
  from_open P m1 -> from_open P m2 -> from_open P (if b then m1 else m2).
Proof. now destruct b. Qed.

Lemma from_open_try_except (P Q : exn -> bool) {A : Type} (m : M A)
      (handler : exn -> option (M A)) :
  from_open P m ->
  (forall e, P e = true ->
     match handler e with
     | Some h => from_open Q h
     | None => Q e = true
     end) ->
  from_open Q (try_except m handler).
Proof.
  intros Hm Hh w r w' Ho H. unfold try_except in H.
  destruct (m w) as [[a|e] w1] eqn:E.
  - inversion H; subst. destruct (Hm _ _ _ Ho E) as [Ho1 _].
    split; [exact Ho1 | discriminate].
  - destruct (Hm _ _ _ Ho E) as [Ho1 He].
    specialize (Hh e (He e eq_refl)).
    destruct (handler e) as [h|].
    + exact (Hh _ _ _ Ho1 H).
    + inversion H; subst. split; [exact Ho1|].
      intros e' E'; inversion E'; now subst.
Qed.

Lemma from_open_ensure_channel_ready (P : exn -> bool) :
  from_open P ensure_channel_ready.
Proof.
  intros w r w' Ho H. unfold ensure_channel_ready in H. rewrite Ho in H.
  inversion H; subst. split; [exact Ho | discriminate].
Qed.

Lemma from_open_time_time (P : exn -> bool) : from_open P time_time.
Proof.
  apply from_open_intro; [auto with calls | apply raises_only_time_time].
Qed.

Lemma from_open_time_sleep (P : exn -> bool) (ms : N) :
  from_open P (time_sleep ms).
Proof.
  apply from_open_intro; [auto with calls | apply raises_only_time_sleep].
Qed.

Lemma from_open_poll_recv (P : exn -> bool) (nbytes : N) :
  from_open P (poll_recv nbytes).
Proof.
  apply from_open_intro; [auto with calls | apply raises_only_poll_recv].
Qed.

Lemma from_open_channel_send (P : exn -> bool) (text : string) :
  from_open P (channel_send text).
Proof.
  apply from_open_intro; [auto with calls | apply raises_only_channel_send].
Qed.

Lemma settles_mono (P Q : exn -> bool) {A : Type} (m : M A) :
  (forall e, P e = true -> Q e = true) -> settles P m -> settles Q m.
Proof.
  intros HPQ Hm w r w' H. specialize (Hm _ _ _ H).
  destruct r; [exact Hm | now apply HPQ].
Qed.

Lemma settles_raise (P : exn -> bool) {A : Type} (e : exn) :
  P e = true -> settles P (@raise A e).
Proof.
  intros HP w r w' H; unfold raise in H; inversion H; now subst.
Qed.

Lemma settles_bind (P : exn -> bool) {A B : Type} (m : M A) (k : A -> M B) :
  settles P m -> (forall a, from_open P (k a)) -> settles P (bind m k).
Proof.
  intros Hm Hk w r w' H.
  apply bind_cases in H as [(a & w1 & H1 & H)|(e & H1 & ->)].
  - pose proof (Hm _ _ _ H1) as Ho1; simpl in Ho1.
    destruct (Hk a _ _ _ Ho1 H) as [Ho He].
    destruct r; [exact Ho | now apply He].
  - exact (Hm _ _ _ H1).
Qed.

Lemma settles_try_except (P Q : exn -> bool) {A : Type} (m : M A)
      (handler : exn -> option (M A)) :
  settles P m ->
  (forall e, P e = true ->
     match handler e with
     | Some h => settles Q h
     | None => Q e = true
     end) ->
  settles Q (try_except m handler).
Proof.
  intros Hm Hh w r w' H. unfold try_except in H.
  destruct (m w) as [[a|e] w1] eqn:E.
  - inversion H; subst. exact (Hm _ _ _ E).
  - specialize (Hh e (Hm _ _ _ E)).
    destruct (handler e) as [h|].
    + exact (Hh _ _ _ H).
    + inversion H; now subst.
Qed.

End OpenChannel.

#[local] Hint Resolve from_open_ret from_open_raise from_open_ensure_channel_ready
  from_open_time_time from_open_time_sleep from_open_poll_recv
  from_open_channel_send settles_raise : calls.

Ltac solve_open :=
  repeat first
    [ solve [auto with calls]
    | apply from_open_bind; [|intros ?]
    | apply from_open_if ].

(** A handler met at an exception: the clause that catches it, or none. *)
Ltac by_exception :=
  let e := fresh "e" in
  let He := fresh "He" in
  intros e He; destruct e; try discriminate He; simpl;
  first [ reflexivity
        | apply from_open_raise; reflexivity
        | apply settles_raise; reflexivity
        | apply from_open_ret ].

Section RunFromOpen.
Import SSHConnection.

Variable P : exn -> bool.
Hypothesis P_timeout : P CommandTimeoutError = true.

Lemma from_open_flush (nbytes : N) : from_open P (flush nbytes).
Proof. unfold flush; solve_open. Qed.

Lemma from_open_send (cmd : string) (wait : N) : from_open P (send cmd wait).
Proof. unfold send; solve_open. Qed.

#[local] Hint Resolve from_open_flush from_open_send : calls.

Lemma from_open_fire_responders (responders : list Responder) :
  forall chunks, from_open P (fire_responders responders chunks).
Proof.
  induction responders as [|rsp rs IH]; intros chunks; simpl; solve_open.
Qed.

#[local] Hint Resolve from_open_fire_responders : calls.

Lemma from_open_run_round (delim : string) (rs : list Responder)
      (bp : option pattern) (chunks : list string) :
  from_open P (run_round delim rs bp chunks).
Proof. unfold run_round; solve_open. Qed.

#[local] Hint Resolve from_open_run_round : calls.

Lemma from_open_run_loop (fuel : nat) (delim : string) (timeout : N)
      (rs : list Responder) (bp : option pattern) (start : N) :
  forall chunks, from_open P (run_loop fuel delim timeout rs bp start chunks).
Proof.
  induction fuel as [|fuel IH]; intros chunks; simpl; solve_open.
  destruct a0; auto with calls.
Qed.

#[local] Hint Resolve from_open_run_loop : calls.

Lemma from_open_run_until_break (cmd delim : string) (timeout : N)
      (rs : option (list Responder)) (bp : option pattern) :
  from_open P (run_until_break cmd delim timeout rs bp).
Proof. unfold run_until_break; solve_open. Qed.

Lemma from_open_decode_transcript (delim : string) (ec : Z)
      (chunks : list string) :
  from_open P (decode_transcript delim ec chunks).
Proof.
  unfold decode_transcript; solve_open.
  unfold CommandFormatter.extract_exit_code.
  destruct (CommandFormatter.search_exitcode _ _) as [[? ?]|]; simpl;
    auto with calls.
Qed.

#[local] Hint Resolve from_open_run_until_break from_open_decode_transcript : calls.

Lemma from_open_run_raw (cmd delim : string) (timeout : N)
      (rs : option (list Responder)) (bp : option pattern) :
  from_open P (_run_raw cmd delim timeout rs bp).
Proof.
  unfold _run_raw; solve_open. destruct a; auto with calls.
Qed.

End RunFromOpen.

Section SessionOutcomes.
Import PyStr CommandFormatter SSHConnection RecursiveSSHSession.

(** *** A run on an open channel *)



Lemma run_raw_opens (cmd delim : string) (timeout : N)
      (rs : option (list Responder)) (bp : option pattern)
      (w w' : world) (r : string * Z) :
  _run_raw cmd delim timeout rs bp w = (Ok r, w') -> channel w' = ChannelOpen.
Proof.
  unfold _run_raw; intros H.
  apply bind_ok in H as ([ec buffer] & w1 & H1 & H).
  apply run_until_break_outcome in H1 as [Ho _].
  apply frame_decode_transcript in H as (Hc & _). congruence.
Qed.

Lemma settles_run_raw (cmd delim : string) (timeout : N)
      (rs : option (list Responder)) (bp : option pattern) :
  settles run_error (_run_raw cmd delim timeout rs bp).
Proof.
  intros w [r|e] w' H.
  - now apply run_raw_opens in H.
  - eapply raises_only_run_raw; [| |exact H]; intros; reflexivity.
Qed.

Lemma settles_verify_env_variable (var_name msg : string) :
  settles run_error (_verify_env_variable var_name msg).
Proof.
  unfold _verify_env_variable, run.
  apply settles_bind; [apply settles_run_raw | intros [output code]].
  apply from_open_if; [apply from_open_raise; reflexivity | apply from_open_ret].
Qed.

Lemma settles_verify_target_session_token :
  settles verify_target_error verify_target_session_token.
Proof.
  unfold verify_target_session_token.
  apply (settles_try_except run_error); [apply settles_verify_env_variable|].
  by_exception.
Qed.

Lemma settles_verify_gateway_session_token :
  settles verify_gateway_error verify_gateway_session_token.
Proof.
  unfold verify_gateway_session_token.
  apply (settles_try_except run_error); [apply settles_verify_env_variable|].
  by_exception.
Qed.

Lemma frame_run (command : string) (timeout : N)
      (rs : option (list Responder)) (bp : option pattern) (delim : string) :
  preserves frame (run command timeout rs bp delim).
Proof. apply frame_run_raw. Qed.

Lemma frame_verify_env_variable (var_name msg : string) :
  preserves frame (_verify_env_variable var_name msg).
Proof.
  unfold _verify_env_variable.
  apply (preserves_bind frame frame_trans); [apply frame_run | intros [o c]].
  solve_frame.
Qed.

Lemma frame_verify_target_session_token :
  preserves frame verify_target_session_token.
Proof.
  unfold verify_target_session_token.
  apply (preserves_try_except frame frame_trans);
    [apply frame_verify_env_variable | intros e h Hh].
  destruct (isinstance e cRuntimeError); inversion Hh; auto with calls.
Qed.

Lemma frame_verify_gateway_session_token :
  preserves frame verify_gateway_session_token.
Proof.
  unfold verify_gateway_session_token.
  apply (preserves_try_except frame frame_trans);
    [apply frame_verify_env_variable | intros e h Hh].
  destruct (isinstance e cRuntimeError); inversion Hh; auto with calls.
Qed.

Lemma from_open_settled (P : exn -> bool) {A : Type} (m : M A) :
  preserves frame m -> settles P m -> from_open P m.
Proof.
  intros Hf Hm w r w' Ho H; split.
  - apply Hf in H as (Hc & _). congruence.
  - intros e ->. exact (Hm _ _ _ H).
Qed.

Lemma from_open_verify_target_session_token :
  from_open verify_target_error verify_target_session_token.
Proof.
  apply from_open_settled;
    [apply frame_verify_target_session_token
    | apply settles_verify_target_session_token].
Qed.

Lemma from_open_verify_gateway_session_token :
  from_open verify_gateway_error verify_gateway_session_token.
Proof.
  apply from_open_settled;
    [apply frame_verify_gateway_session_token
    | apply settles_verify_gateway_session_token].
Qed.

Lemma from_open_run (P : exn -> bool) (command : string) (timeout : N)
      (rs : option (list Responder)) (bp : option pattern) (delim : string) :
  P CommandTimeoutError = true ->
  from_open P (run command timeout rs bp delim).
Proof. intros HP; now apply from_open_run_raw. Qed.

Lemma settles_connect (connection_timeout shell_prompt_timeout : N)
      (shell_prompt_pattern : pattern) :
  settles (fun _ => true)
    (SSHConnection.connect connection_timeout shell_prompt_timeout
       shell_prompt_pattern).
Proof.
  intros w [u|e] w' H; [|reflexivity].
  now apply connect_cases in H as (_ & _ & _ & Hc).
Qed.

Lemma settles_establish_gateway_connection (shell_prompt_pattern : pattern)
      (connection_timeout shell_prompt_timeout : N) :
  settles gateway_connection_error
    (establish_gateway_connection shell_prompt_pattern connection_timeout
       shell_prompt_timeout).
Proof.
  assert (Hgo : settles gateway_connection_error
            (try_except
               (SSHConnection.connect connection_timeout shell_prompt_timeout
                  shell_prompt_pattern)
               (fun e => if isinstance e cException
                         then Some (raise (GatewaySSHConnectionError
                                      "Error occurred while establishing gateway connection"))
                         else None) ;;
             SSHConnection.run
               (set_shell_env_variable_raw_command GATEWAY_SESSION_VAR
                  SESSION_VAR_VALUE)
               10000 None None DEFAULT_EXITCODE_DELIMITER ;;
             verify_gateway_session_token)).
  { apply settles_bind; [|intros _].
    - apply (settles_try_except (fun _ => true)); [apply settles_connect|].
      intros e _; simpl. now apply settles_raise.
    - apply from_open_bind; [now apply from_open_run | intros _].
      apply (from_open_mono verify_gateway_error);
        [|apply from_open_verify_gateway_session_token].
      intros e He; unfold gateway_connection_error, gateway_level.
      unfold verify_gateway_error in He.
      apply orb_true_iff in He as [He|He]; rewrite He;
        now rewrite ?orb_true_r. }
  intros w r w' H. unfold establish_gateway_connection in H.
  destruct (channel w) eqn:Ec.
  - exact (Hgo _ _ _ H).
  - inversion H; subst. exact Ec.
  - exact (Hgo _ _ _ H).
Qed.

Lemma from_open_nested_ssh (shell_prompt_pattern : pattern)
      (shell_prompt_timeout : N) :
  from_open timed_out (nested_ssh shell_prompt_pattern shell_prompt_timeout).
Proof.
  unfold nested_ssh. apply from_open_bind; [|intros target].
  - intros w r w' Ho H; inversion H; subst. split; [exact Ho | discriminate].
  - now apply from_open_run.
Qed.

Lemma settles_establish_target_host_connection
      (shell_prompt_pattern : pattern) (shell_prompt_timeout : N) :
  settles session_connect_error
    (establish_target_host_connection shell_prompt_pattern
       shell_prompt_timeout).
Proof.
  unfold establish_target_host_connection.
  apply settles_bind; [|intros _].
  - apply (settles_try_except verify_gateway_error);
      [apply settles_verify_gateway_session_token | by_exception].
  - apply from_open_bind; [|intros [output exit_code]].
    + apply (from_open_mono timed_out); [|apply from_open_nested_ssh].
      intros e He; unfold session_connect_error; rewrite He;
        now rewrite ?orb_true_r.
    + apply from_open_if; [apply from_open_raise; reflexivity|].
      apply from_open_bind; [|intros _].
      * apply (from_open_try_except timed_out).
        -- apply from_open_bind; [now apply from_open_run | intros ?].
           apply from_open_ret.
        -- by_exception.
      * apply (from_open_try_except verify_target_error);
          [apply from_open_verify_target_session_token | by_exception].
Qed.

Lemma settles_session_connect
      (shell_gateway_prompt_pattern shell_target_prompt_pattern : pattern)
      (connection_timeout shell_prompt_timeout : N) :
  settles session_connect_error
    (RecursiveSSHSession.connect shell_gateway_prompt_pattern
       shell_target_prompt_pattern connection_timeout shell_prompt_timeout).
Proof.
  intros w r w' H. unfold RecursiveSSHSession.connect in H.
  apply bind_cases in H as [(u & w1 & H1 & H)|(e & H1 & ->)].
  - exact (settles_establish_target_host_connection _ _ _ _ _ H).
  - apply settles_establish_gateway_connection in H1.
    unfold gateway_connection_error in H1. unfold session_connect_error.
    apply orb_true_iff in H1 as [H1|H1]; rewrite H1; now rewrite ?orb_true_r.
Qed.



(** *** Leaving the target and closing the session *)

Lemma verify_env_variable_refused (var_name msg : string) (w : world) :
  channel w <> ChannelOpen -> refused (_verify_env_variable var_name msg) w.
Proof.
  intros H; unfold _verify_env_variable, run.
  now apply refused_bind, refused_run_raw.
Qed.

Lemma verify_target_session_token_refused (w : world) :
  channel w <> ChannelOpen ->
  verify_target_session_token w
  = (Raise (TargetSessionInactiveError (exn_str CHANNEL_NOT_READY)), w).
Proof.
  intros H; unfold verify_target_session_token, try_except.
  now rewrite (verify_env_variable_refused _ _ _ H).
Qed.

Lemma verify_gateway_session_token_refused (w : world) :
  channel w <> ChannelOpen ->
  verify_gateway_session_token w
  = (Raise (GatewaySessionInactiveError (exn_str CHANNEL_NOT_READY)), w).
Proof.
  intros H; unfold verify_gateway_session_token, try_except.
  now rewrite (verify_env_variable_refused _ _ _ H).
Qed.

Lemma exit_target_session_inactive (w w1 : world) (msg : string) :
  verify_target_session_token w = (Raise (TargetSessionInactiveError msg), w1) ->
  exit_target_session w = verify_gateway_session_token w1.
Proof.
  intros H; unfold exit_target_session, run_at_target.
  unfold bind at 1, try_except at 1.
  rewrite (bind_raise_l _ _ _ _ _ (bind_raise_l _ _ _ _ _ H)). reflexivity.
Qed.

(** When the target token is not there, [exit_target_session] sends no
    [exit]: it goes on to the gateway verification at once and ends as that
    does.  Any other failure of the verification ends it. *)
Theorem exit_without_target_token_sends_no_exit (w : world) :
  (forall msg w1,
      verify_target_session_token w
      = (Raise (TargetSessionInactiveError msg), w1) ->
      exit_target_session w = verify_gateway_session_token w1
      /\ (sent w1 = sent w
          \/ sent w1 = (sent w ++ [probe_line TARGET_SESSION_VAR])%list))
  /\ (forall e w1,
         verify_target_session_token w = (Raise e, w1) ->
         isinstance e cTargetSessionInactiveError = false ->
         exit_target_session w = (Raise e, w1)).
Proof.
  split.
  - intros msg w1 H; split; [now apply (exit_target_session_inactive _ _ msg)|].
    apply verify_target_session_token_sent in H as [[_ Hs]|Hs]; auto.
  - intros e w1 H He. unfold exit_target_session, run_at_target.
    unfold bind at 1, try_except at 1.
    rewrite (bind_raise_l _ _ _ _ _ (bind_raise_l _ _ _ _ _ H)).
    now rewrite He.
Qed.

Lemma exit_without_target_token_sends_no_exit_witness :
  exists w',
    exit_target_session
      (Scenario.connected (Scenario.appliance "10.0.0.5") Scenario.reset_clean)
    = (Ok tt, w')
    /\ sent w' = [probe_line TARGET_SESSION_VAR; probe_line GATEWAY_SESSION_VAR].
Proof.
  pose (w := Scenario.connected (Scenario.appliance "10.0.0.5")
               Scenario.reset_clean).
  destruct (verify_target_session_token w) as [[u|e] w1] eqn:E;
    pose proof E as E'; vm_compute in E'; inversion E'; subst.
  destruct (proj1 (exit_without_target_token_sends_no_exit w) _ _ E) as [Hx _].
  fold w. rewrite Hx. eexists; split; vm_compute; reflexivity.
Defined.

Lemma raises_only_settled (P : exn -> bool) {A : Type} (m : M A) :
  settles P m -> raises_only P m.
Proof. intros Hm w e w' H. exact (Hm _ _ _ H). Qed.

Lemma raises_only_try_except (P Q : exn -> bool) {A : Type} (m : M A)
      (handler : exn -> option (M A)) :
  raises_only P m ->
  (forall e, P e = true ->
     match handler e with
     | Some h => raises_only Q h
     | None => Q e = true
     end) ->
  raises_only Q (try_except m handler).
Proof.
  intros Hm Hh w e w' H. unfold try_except in H.
  destruct (m w) as [[a|e0] w1] eqn:E; [discriminate|].
  specialize (Hh e0 (Hm _ _ _ E)).
  destruct (handler e0) as [h|].
  - exact (Hh _ _ _ H).
  - inversion H; now subst.
Qed.

Lemma settles_run_at_target (command : string)
      (responders : option (list Responder)) (break_on : option pattern)
      (timeout : N) :
  settles verify_target_error
    (run_at_target command responders break_on timeout).
Proof.
  unfold run_at_target.
  apply settles_bind; [apply settles_verify_target_session_token | intros _].
  now apply from_open_run.
Qed.

Lemma raises_only_exit_target_session :
  raises_only verify_gateway_error exit_target_session.
Proof.
  unfold exit_target_session.
  apply raises_only_bind; [|intros _].
  - apply (raises_only_try_except verify_target_error).
    + apply raises_only_settled.
      apply settles_bind; [apply settles_run_at_target | intros ?].
      apply from_open_ret.
    + intros e He; destruct e; try discriminate He; simpl;
        first [reflexivity | apply raises_only_ret].
  - apply raises_only_settled, settles_verify_gateway_session_token.
Qed.

Lemma frame_exit_target_session : preserves frame exit_target_session.
Proof.
  unfold exit_target_session, run_at_target.
  apply (preserves_bind frame frame_trans); [|intros _].
  - apply (preserves_try_except frame frame_trans).
    + apply (preserves_bind frame frame_trans); [|intros ?; auto with calls].
      apply (preserves_bind frame frame_trans);
        [apply frame_verify_target_session_token | intros _; apply frame_run].
    + intros e h Hh.
      destruct (isinstance e cTargetSessionInactiveError); inversion Hh;
        auto with calls.
  - apply frame_verify_gateway_session_token.
Qed.

Lemma session_close_refused (w : world) :
  channel w <> ChannelOpen ->
  RecursiveSSHSession.close w
  = (Raise (GatewaySessionInactiveError (exn_str CHANNEL_NOT_READY)), w).
Proof.
  intros H. unfold RecursiveSSHSession.close.
  apply bind_raise_l.
  rewrite (exit_target_session_inactive w w (exn_str CHANNEL_NOT_READY)
             (verify_target_session_token_refused w H)).
  now apply verify_gateway_session_token_refused.
Qed.

(** [RecursiveSSHSession.close] closes the gateway channel only after the
    way back to a verified gateway shell: when it raises, the channel is as
    it was.  On a session that is not connected, or was closed before, it
    raises [GatewaySessionInactiveError]; so it cannot be repeated. *)
Theorem session_close_outcomes (w : world) :
  (channel w <> ChannelOpen ->
   RecursiveSSHSession.close w
   = (Raise (GatewaySessionInactiveError
               "SSH channel is not active or already closed."), w))
  /\ (forall w',
         RecursiveSSHSession.close w = (Ok tt, w') ->
         channel w' = ChannelClosed
         /\ RecursiveSSHSession.close w'
            = (Raise (GatewaySessionInactiveError
                        "SSH channel is not active or already closed."), w'))
  /\ (forall e w',
         RecursiveSSHSession.close w = (Raise e, w') ->
         channel w' = channel w
         /\ (isinstance e cGatewaySessionInactiveError
             || isinstance e cCommandTimeoutError = true)).
Proof.
  split; [apply session_close_refused|split].
  - intros w' H. unfold RecursiveSSHSession.close in H.
    apply bind_ok in H as (u & w1 & H1 & H).
    assert (Ho : channel w1 = ChannelOpen).
    { unfold exit_target_session in H1.
      apply bind_ok in H1 as (u' & w0 & _ & H1).
      exact (settles_verify_gateway_session_token _ _ _ H1). }
    unfold SSHConnection.close in H. rewrite Ho in H. inversion H; subst.
    split; [reflexivity|]. apply session_close_refused. discriminate.
  - intros e w' H. unfold RecursiveSSHSession.close in H.
    apply bind_cases in H as [(u & w1 & H1 & H)|(e' & H1 & E)].
    + unfold SSHConnection.close in H. destruct (channel w1); discriminate.
    + inversion E; subst e'. split.
      * now apply frame_exit_target_session in H1 as (Hc & _).
      * exact (raises_only_exit_target_session _ _ _ H1).
Qed.

Lemma session_close_outcomes_witness :
  RecursiveSSHSession.close (Scenario.fresh [] [true])
  = (Raise (GatewaySessionInactiveError
              "SSH channel is not active or already closed."),
     Scenario.fresh [] [true]).
Proof.
  apply (proj1 (session_close_outcomes (Scenario.fresh [] [true]))).
  discriminate.
Defined.

(** *** The gateway connection *)



(** Whatever [connect] raises is reported as [GatewaySSHConnectionError],
    with nothing written to the channel.  After a prompt timeout the channel
    [connect] opened is still open, so the next call of
    [establish_gateway_connection] returns at once: the session variable of
    the gateway is neither set nor verified. *)
Theorem gateway_connect_failure_is_wrapped (shell_prompt_pattern : pattern)
        (connection_timeout shell_prompt_timeout : N)
        (w w1 : world) (e : exn) :
  channel w <> ChannelOpen ->
  SSHConnection.connect connection_timeout shell_prompt_timeout
    shell_prompt_pattern w = (Raise e, w1) ->
  establish_gateway_connection shell_prompt_pattern connection_timeout
    shell_prompt_timeout w
  = (Raise (GatewaySSHConnectionError
              "Error occurred while establishing gateway connection"), w1)
  /\ sent w1 = sent w
  /\ (e = PromptTimeoutError ->
      establish_gateway_connection shell_prompt_pattern connection_timeout
        shell_prompt_timeout w1 = (Ok tt, w1)).
Proof.
  intros Hn H.
  assert (Hgo : establish_gateway_connection shell_prompt_pattern
                  connection_timeout shell_prompt_timeout w
                = (Raise (GatewaySSHConnectionError
                            "Error occurred while establishing gateway connection"),
                   w1)).
  { unfold establish_gateway_connection.
    destruct (channel w); [|now elim Hn|];
      unfold bind at 1, try_except at 1; now rewrite H. }
  split; [exact Hgo|].
  apply connect_cases in H as (Hs & _ & _ & [[-> Hc]|[-> Hc]]).
  - split; [exact Hs | discriminate].
  - split; [exact Hs | intros _].
    unfold establish_gateway_connection. now rewrite Hc.
Qed.

Lemma gateway_connect_failure_is_wrapped_witness :
  exists w1,
    establish_gateway_connection Scenario.prompt 60000 2000
      (Scenario.fresh [Scenario.deliver "Last login"] [true])
    = (Raise (GatewaySSHConnectionError
                "Error occurred while establishing gateway connection"), w1)
    /\ sent w1 = []
    /\ establish_gateway_connection Scenario.prompt 60000 2000 w1 = (Ok tt, w1).
Proof.
  destruct (SSHConnection.connect 60000 2000 Scenario.prompt
              (Scenario.fresh [Scenario.deliver "Last login"] [true]))
    as [[u|e] w1] eqn:E;
    pose proof E as E'; vm_compute in E'; inversion E'; subst.
  assert (Hn : channel (Scenario.fresh [Scenario.deliver "Last login"] [true])
               <> ChannelOpen) by discriminate.
  destruct (gateway_connect_failure_is_wrapped Scenario.prompt _ _ _ _ _ Hn E)
    as (H1 & H2 & H3).
  eexists; split; [exact H1 | split; [exact H2 | exact (H3 eq_refl)]].
Defined.

(** *** The hop to the target *)

Lemma run_raw_first_line (cmd delim : string) (timeout : N)
      (rs : option (list Responder)) (bp : option pattern)
      (w w' : world) (r : string * Z) :
  _run_raw cmd delim timeout rs bp w = (Ok r, w') ->
  exists more, sent w' = (sent w ++ sent_line cmd :: more)%list.
Proof.
  unfold _run_raw, run_until_break; intros H.
  apply bind_ok in H as ([ec buffer] & w4 & H1 & H4).
  apply bind_ok in H1 as (u & w1 & He & H1).
  apply ensure_channel_ready_cases in He as [-> _].
  apply bind_ok in H1 as (n & w2 & Hs & H1).
  apply send_cases in Hs as [(e & E & _)|(n' & _ & _ & Hs)]; [discriminate|].
  assert (Hf : frame w2 w4).
  { revert H1. apply (preserves_bind frame frame_trans); [auto with calls|].
    intros ?. apply (preserves_bind frame frame_trans); [auto with calls|].
    intros ?. auto with calls. }
  apply frame_decode_transcript in H4.
  destruct (frame_trans _ _ _ Hf H4) as (_ & _ & _ & _ & more & Hm).
  exists more. rewrite Hm, Hs, <- app_assoc. reflexivity.
Qed.

(** When the hop to the target succeeds, the channel has seen, in this
    order: the probe of the gateway token, the [ssh] command for the target
    at hand, whatever the responders answered, the command that sets the
    target token, and the probe of the target token. *)
Theorem target_hop_lines (shell_prompt_pattern : pattern)
        (shell_prompt_timeout : N) (w w' : world) :
  establish_target_host_connection shell_prompt_pattern shell_prompt_timeout w
  = (Ok tt, w') ->
  exists answers,
    sent w'
    = (sent w
       ++ [probe_line GATEWAY_SESSION_VAR;
           sent_line (regular_command (ssh_command (target_data w))
                        SSH_TARGET_CONNECTION_EXITCODE false)]
       ++ answers
       ++ [sent_line
             (regular_command
                (set_shell_env_variable_raw_command TARGET_SESSION_VAR
                   SESSION_VAR_VALUE)
                TARGET_SESSION_EXITCODE_DELIMITER false);
           probe_line TARGET_SESSION_VAR])%list.
Proof.
  unfold establish_target_host_connection; intros H.
  apply bind_ok in H as (u & w1 & H1 & H).
  apply try_except_reraise in H1 as [(a & _ & H1)|(e & _ & E)];
    [|destruct (isinstance e cRuntimeError); discriminate].
  pose proof (frame_verify_gateway_session_token _ _ _ H1) as (_ & Htd & _).
  apply verify_gateway_session_token_sent in H1 as [[Hne _]|Hs1];
    [destruct a; now elim Hne|].
  apply bind_ok in H as ([output exit_code] & w2 & H2 & H).
  unfold nested_ssh in H2. unfold bind at 1 in H2. unfold run in H2.
  apply run_raw_first_line in H2 as [answers Hs2].
  destruct (negb (exit_code =? BREAK_TRIGGERED)); [discriminate|].
  apply bind_ok in H as (u3 & w3 & H3 & H).
  unfold try_except in H3.
  destruct (bind (run _ 10000 None None TARGET_SESSION_EXITCODE_DELIMITER)
              (fun _ => ret tt) w2) as [[a3|e3] w3'] eqn:E3.
  2:{ destruct (isinstance e3 cTimeoutError || isinstance e3 cCommandTimeoutError);
        discriminate. }
  inversion H3; subst a3 w3'; clear H3.
  apply bind_ok in E3 as (o3 & w3'' & E3 & Hr).
  unfold ret in Hr; inversion Hr; subst w3''; clear Hr.
  unfold run in E3.
  apply run_raw_sent in E3 as [(_ & _ & e & E & _)|[_ Hs3]]; [discriminate|].
  unfold try_except in H.
  destruct (verify_target_session_token w3) as [[a4|e4] w4] eqn:E4.
  2:{ destruct (isinstance e4 cTargetSessionInactiveError); discriminate. }
  inversion H; subst a4 w4; clear H.
  apply verify_target_session_token_sent in E4 as [[Hne _]|Hs4];
    [now elim Hne|].
  exists answers.
  rewrite Hs4, Hs3, Hs2, Hs1, Htd. rewrite <- !app_assoc. reflexivity.
Qed.

Lemma target_hop_lines_witness :
  exists w',
    establish_target_host_connection Scenario.prompt 90000
      (Scenario.connected (Scenario.appliance "10.0.0.5") Scenario.hop_reached)
    = (Ok tt, w')
    /\ exists answers,
         sent w'
         = ([probe_line GATEWAY_SESSION_VAR;
             sent_line (regular_command "ssh admin@10.0.0.5"
                          SSH_TARGET_CONNECTION_EXITCODE false)]
            ++ answers
            ++ [sent_line
                  (regular_command
                     (set_shell_env_variable_raw_command TARGET_SESSION_VAR
                        SESSION_VAR_VALUE)
                     TARGET_SESSION_EXITCODE_DELIMITER false);
                probe_line TARGET_SESSION_VAR])%list.
Proof.
  destruct (establish_target_host_connection Scenario.prompt 90000
              (Scenario.connected (Scenario.appliance "10.0.0.5")
                 Scenario.hop_reached)) as [[[]|e] w'] eqn:E;
    pose proof E as E'; vm_compute in E'; inversion E'; subst.
  eexists; split; [reflexivity|].
  exact (target_hop_lines _ _ _ _ E).
Defined.

End SessionOutcomes.

(** ** group.py *)

Section GroupCoverage.
Import PyStr CommandFormatter SSHConnection RecursiveSSHSession.
Import SerialRecursiveSSHGroup.

Lemma validate_cases (commands : list command_object) (w w' : world)
      (r : result unit) :
  validate commands w = (r, w') ->
  w' = w
  /\ ((r = Ok tt /\ Forall descriptor commands)
      \/ (r = Raise InvalidTargetCommandError /\ In OtherObject commands)).
Proof.
  induction commands as [|c commands IH]; simpl; intros H.
  - inversion H; subst. split; [reflexivity | left; now split].
  - destruct c.
    + destruct (IH H) as [-> [[-> Hf]|[-> Hi]]]; split; try reflexivity.
      * left; split; [reflexivity | constructor; [discriminate | exact Hf]].
      * right; split; [reflexivity | now right].
    + destruct (IH H) as [-> [[-> Hf]|[-> Hi]]]; split; try reflexivity.
      * left; split; [reflexivity | constructor; [discriminate | exact Hf]].
      * right; split; [reflexivity | now right].
    + inversion H; subst. split; [reflexivity | right; split; [reflexivity | now left]].
Qed.

Lemma validate_invalid (commands : list command_object) (w : world) :
  In OtherObject commands ->
  validate commands w = (Raise InvalidTargetCommandError, w).
Proof.
  intros Hi. destruct (validate commands w) as [r w'] eqn:E.
  destruct (validate_cases _ _ _ _ E) as [-> [[_ Hf]|[-> _]]]; [|reflexivity].
  exfalso. rewrite Forall_forall in Hf. now apply (Hf _ Hi).
Qed.

(** The commands are checked before anything else: one element that is
    neither a command nor a script, wherever it stands in the list, and
    [run_target] raises [InvalidTargetCommandError] with no connection
    opened and nothing written; a batch over at least one target ends the
    same way. *)
Theorem invalid_command_stops_run_at_once (self : t)
        (target : SSHConnectionData) (commands : list command_object)
        (w : world) :
  In OtherObject commands ->
  run_target self target commands w = (Raise InvalidTargetCommandError, w)
  /\ (targets self <> [] ->
      run_all_targets self commands w = (Raise InvalidTargetCommandError, w)).
Proof.
  intros Hi.
  assert (H : forall tg, run_target self tg commands w
                         = (Raise InvalidTargetCommandError, w)).
  { intros tg. unfold run_target.
    apply bind_raise_l. now apply validate_invalid. }
  split; [apply H|].
  intros Hne. unfold run_all_targets.
  destruct (targets self) as [|tg rest]; [now elim Hne|].
  simpl. apply bind_raise_l. apply H.
Qed.

Lemma invalid_command_stops_run_at_once_witness :
  run_all_targets (Scenario.batch Scenario.three_targets)
    [Scenario.list_tmp; OtherObject] Scenario.second_hop_refused
  = (Raise InvalidTargetCommandError, Scenario.second_hop_refused).
Proof.
  apply (invalid_command_stops_run_at_once
           (Scenario.batch Scenario.three_targets)
           (Scenario.appliance "10.0.0.5")
           [Scenario.list_tmp; OtherObject]).
  - simpl; tauto.
  - discriminate.
Defined.

(** *** What a run on one target ends with *)

Lemma target_run_error_verify (e : exn) :
  verify_target_error e = true -> target_run_error e = true.
Proof. intros H; unfold target_run_error; now rewrite H. Qed.

Lemma from_open_format_script (P : exn -> bool) (script : string)
      (args : option (list string)) (from_file : bool) (delim : string)
      (root : bool) :
  (forall path, P (FileNotFoundError path) = true) ->
  from_open P (format_script script args from_file delim root).
Proof.
  intros HP w r w' Ho H. unfold format_script in H.
  destruct from_file.
  - unfold bash_script_from_local_file in H.
    destruct (read_text (files w) script); inversion H; subst;
      (split; [exact Ho|]); intros e E; inversion E; subst; apply HP.
  - inversion H; subst. split; [exact Ho | discriminate].
Qed.

Lemma from_open_run_on_target (target : SSHConnectionData)
      (command : TargetCommand.t) :
  from_open target_run_error (_run_on_target target command).
Proof.
  unfold _run_on_target, run_as_root_at_target, run_at_target, run_as_root, run.
  destruct (TargetCommand.run_as_root command);
    (apply from_open_bind;
     [ apply (from_open_mono verify_target_error);
       [apply target_run_error_verify
       | apply from_open_verify_target_session_token]
     | intros _; now apply from_open_run_raw ]).
Qed.

Lemma from_open_run_bash_script_on_target (target : SSHConnectionData)
      (script : TargetBashScript.t) :
  from_open target_run_error (_run_bash_script_on_target target script).
Proof.
  unfold _run_bash_script_on_target, run_bash_script_at_target_as_root,
    run_bash_script_as_root.
  destruct (TargetBashScript.run_as_root script).
  - apply from_open_bind;
      [ apply (from_open_mono verify_target_error);
        [apply target_run_error_verify
        | apply from_open_verify_target_session_token]
      | intros _ ].
    apply from_open_bind;
      [ apply from_open_format_script; reflexivity
      | intros cmd; now apply from_open_run_raw ].
  - now apply from_open_raise.
Qed.

Lemma from_open_run_commands (target : SSHConnectionData)
      (commands : list command_object) :
  Forall descriptor commands ->
  from_open target_run_error (run_commands target commands).
Proof.
  induction 1 as [|c commands Hc _ IH]; simpl; [apply from_open_ret|].
  apply from_open_bind; [|intros out].
  - destruct c;
      [ apply from_open_run_on_target
      | apply from_open_run_bash_script_on_target
      | now elim Hc ].
  - apply from_open_bind; [exact IH | intros outs; apply from_open_ret].
Qed.

Lemma run_commands_length (target : SSHConnectionData)
      (commands : list command_object) :
  forall w outs w',
    run_commands target commands w = (Ok outs, w') ->
    length outs = length commands.
Proof.
  induction commands as [|c commands IH]; simpl; intros w outs w' H.
  - inversion H; now subst.
  - apply bind_ok in H as (out & w1 & _ & H).
    apply bind_ok in H as (outs' & w2 & H2 & H).
    inversion H; subst. simpl. f_equal. eapply IH; eassumption.
Qed.

Lemma settles_group_connect (self : t) (target : SSHConnectionData) :
  settles session_connect_error (SerialRecursiveSSHGroup.connect self target).
Proof.
  intros w r w' H. unfold SerialRecursiveSSHGroup.connect in H.
  unfold bind at 1 in H.
  exact (settles_session_connect _ _ _ _ _ _ _ H).
Qed.

Lemma from_open_exit_target_session :
  from_open verify_gateway_error exit_target_session.
Proof.
  apply from_open_intro;
    [apply frame_exit_target_session | apply raises_only_exit_target_session].
Qed.

Lemma run_target_try_outcome (command_error : exn -> bool) (self : t)
      (target : SSHConnectionData) (commands : list command_object)
      (w w' : world) (r : result unit) (outs : list (string * Z)) :
  from_open command_error (run_commands target commands) ->
  run_target_try self target commands w = (r, outs, w') ->
  match r with
  | Ok _ => channel w' = ChannelOpen /\ length outs = length commands
  | Raise e =>
      (outs = [] /\ session_connect_error e || command_error e = true)
      \/ (length outs = length commands /\ verify_gateway_error e = true)
  end.
Proof.
  intros Hc H. unfold run_target_try in H.
  destruct (SerialRecursiveSSHGroup.connect self target w) as [[u|e] w1] eqn:Ec.
  2:{ inversion H; subst. left; split; [reflexivity|].
      apply settles_group_connect in Ec. now rewrite Ec. }
  apply settles_group_connect in Ec.
  destruct (run_commands target commands w1) as [[outs1|e] w2] eqn:Er.
  2:{ inversion H; subst. left; split; [reflexivity|].
      destruct (Hc _ _ _ Ec Er) as [_ He].
      rewrite (He e eq_refl). now rewrite orb_true_r. }
  pose proof (run_commands_length _ _ _ _ _ Er) as Hl.
  destruct (Hc _ _ _ Ec Er) as [Ho2 _].
  destruct (exit_target_session w2) as [[u3|e] w3] eqn:Ex;
    inversion H; subst;
    destruct (from_open_exit_target_session _ _ _ Ho2 Ex) as [Ho3 He].
  - now split.
  - right; split; [exact Hl | now apply He].
Qed.

Lemma run_target_try_cases (self : t) (target : SSHConnectionData)
      (commands : list command_object) (w w' : world) (r : result unit)
      (outs : list (string * Z)) :
  Forall descriptor commands ->
  run_target_try self target commands w = (r, outs, w') ->
  match r with
  | Ok _ => channel w' = ChannelOpen /\ length outs = length commands
  | Raise e =>
      (outs = [] /\ run_target_try_error e = true)
      \/ (length outs = length commands /\ verify_gateway_error e = true)
  end.
Proof.
  intros Hv H.
  exact (run_target_try_outcome target_run_error _ _ _ _ _ _ _
           (from_open_run_commands target commands Hv) H).
Qed.

(** Whatever the remote side does, a result [run_target] returns is of one
    of two kinds.  A success has no error and one output for each command.
    A failure has an error that is [TargetSSHConnectionError],
    [TargetSessionInactiveError] or [CommandTimeoutError], never
    [ExitCodeNotFoundError]; it has no outputs at all, unless only the way
    back from the target timed out, and then it has them all: outputs of a
    part of the commands are never returned. *)
Theorem run_target_result_shape (self : t) (target : SSHConnectionData)
        (commands : list command_object) (w w' : world)
        (out : TargetExecutionResult) :
  run_target self target commands w = (Ok out, w') ->
  (success out = true /\ error out = None
   /\ length (outputs out) = length commands)
  \/ (success out = false
      /\ exists e,
           error out = Some e
           /\ (isinstance e cTargetSSHConnectionError
               || isinstance e cTargetSessionInactiveError
               || isinstance e cCommandTimeoutError = true)
           /\ (outputs out = []
               \/ (length (outputs out) = length commands
                   /\ isinstance e cCommandTimeoutError = true))).
Proof.
  unfold run_target; intros H.
  apply bind_ok in H as (u & w1 & Hv & H).
  apply validate_cases in Hv as [-> [[_ Hv]|[? _]]]; [|discriminate].
  destruct (run_target_try self target commands w) as [[r outs] w2] eqn:Et.
  apply (run_target_try_cases _ _ _ _ _ _ _ Hv) in Et.
  destruct r as [u'|e].
  - inversion H; subst; simpl. left; tauto.
  - right. destruct Et as [[-> He]|[Hl He]].
    + destruct e; try discriminate He; simpl in H; inversion H; subst; simpl;
        (split; [reflexivity|]); eexists; (split; [reflexivity|]);
        split; auto.
    + destruct e; try discriminate He; simpl in H; inversion H; subst; simpl;
        (split; [reflexivity|]); eexists; (split; [reflexivity|]);
        split; auto.
Qed.

Lemma run_target_result_shape_witness :
  exists out w',
    run_target (Scenario.batch Scenario.three_targets)
      (Scenario.appliance "10.0.0.5") [Scenario.list_tmp]
      (Scenario.fresh (Scenario.gateway_login ++ Scenario.hop_reached
                       ++ Scenario.work_and_leave) [true])
    = (Ok out, w')
    /\ success out = true /\ error out = None
    /\ length (outputs out) = 1%nat.
Proof.
  destruct (run_target (Scenario.batch Scenario.three_targets)
              (Scenario.appliance "10.0.0.5") [Scenario.list_tmp]
              (Scenario.fresh (Scenario.gateway_login ++ Scenario.hop_reached
                               ++ Scenario.work_and_leave) [true]))
    as [[out|e] w'] eqn:E;
    pose proof E as E'; vm_compute in E'; inversion E'; subst.
  eexists; eexists; split; [reflexivity|].
  destruct (run_target_result_shape _ _ _ _ _ _ E) as [H|[H _]];
    [exact H | discriminate H].
Defined.



(** *** The keys of a batch *)

Lemma dict_set_keys {V : Type} (d : list (string * V)) (k : string) (v : V) :
  map fst (dict_set d k v)
  = if in_dec string_dec k (map fst d) then map fst d
    else (map fst d ++ [k])%list.
Proof.
  induction d as [|[k' v'] d IH]; simpl; [reflexivity|].
  destruct (String.eqb_spec k' k) as [->|Hne]; simpl.
  - destruct (string_dec k k); [reflexivity | congruence].
  - rewrite IH. destruct (string_dec k' k); [congruence|].
    destruct (in_dec string_dec k (map fst d)); reflexivity.
Qed.

Lemma run_targets_loop_all_keys (self : t) (commands : list command_object)
      (todo : list SSHConnectionData) :
  forall results w results' w',
    NoDup (map fst results) ->
    run_targets_loop self todo commands results w = (Ok results', w') ->
    NoDup (map fst results')
    /\ (forall k, In k (map fst results')
                  <-> In k (map fst results) \/ In k (map host todo))
    /\ (length results' <= length results + length todo)%nat.
Proof.
  induction todo as [|target todo IH]; intros results w results' w' Hnd H.
  - simpl in H; inversion H; subst; simpl.
    split; [exact Hnd | split; [tauto | lia]].
  - simpl in H.
    apply bind_ok in H as (out & w1 & _ & H).
    apply bind_ok in H as (u & w2 & _ & H).
    pose proof (dict_set_keys results (host target) out) as Hk.
    assert (Hl : length (map fst (dict_set results (host target) out))
                 = length (dict_set results (host target) out))
      by apply length_map.
    apply IH in H.
    + destruct H as (Hnd' & Hin & Hlen).
      split; [exact Hnd'|].
      rewrite Hk in Hin, Hl.
      destruct (in_dec string_dec (host target) (map fst results)) as [Hi|Hi].
      * split.
        -- intros k; rewrite Hin; simpl. split; [tauto|].
           intros [?|[<-|?]]; tauto.
        -- rewrite length_map in Hl. simpl. lia.
      * split.
        -- intros k; rewrite Hin, in_app_iff; simpl. tauto.
        -- rewrite length_app, length_map in Hl. simpl in *. lia.
    + rewrite Hk.
      destruct (in_dec string_dec (host target) (map fst results)) as [Hi|Hi];
        [exact Hnd|].
      apply NoDup_app; [exact Hnd | repeat constructor; simpl; tauto|].
      intros x Hx [<-|[]]. now apply Hi.
Qed.

(** The results of a batch are keyed by host: each host of the target list
    has one entry, and no other key is there.  With a host listed twice,
    there are fewer entries than targets. *)
Theorem batch_results_are_keyed_by_host (self : t)
        (commands : list command_object) (w w' : world)
        (results : list (string * TargetExecutionResult)) :
  run_all_targets self commands w = (Ok results, w') ->
  NoDup (map fst results)
  /\ (forall k, In k (map fst results) <-> In k (map host (targets self)))
  /\ (length results <= length (targets self))%nat.
Proof.
  unfold run_all_targets; intros H.
  apply run_targets_loop_all_keys in H; [|constructor].
  destruct H as (Hnd & Hin & Hl).
  split; [exact Hnd | split; [|exact Hl]].
  intros k; rewrite Hin; simpl; tauto.
Qed.

Lemma batch_results_are_keyed_by_host_witness :
  exists results w',
    run_all_targets (Scenario.batch Scenario.same_host_twice)
      [Scenario.list_tmp] Scenario.every_hop_refused = (Ok results, w')
    /\ NoDup (map fst results)
    /\ (length results <= 3)%nat.
Proof.
  destruct (run_all_targets (Scenario.batch Scenario.same_host_twice)
              [Scenario.list_tmp] Scenario.every_hop_refused)
    as [[results|e] w'] eqn:E;
    pose proof E as E'; vm_compute in E'; inversion E'; subst.
  eexists; eexists; split; [reflexivity|].
  destruct (batch_results_are_keyed_by_host _ _ _ _ _ E) as (H1 & _ & H3).
  split; [exact H1 | exact H3].
Defined.

End GroupCoverage.

(** ** features/backups/runner.py *)

Section RunnerCoverage.
Import PyStr CommandFormatter SSHConnection RecursiveSSHSession.

Variable REMOTE_BACKUP_FILEPATH_REGEX : string -> option string.
Variable DEFAULT_SHELL_PROMPT_PATTERN : pattern.
Variable BASH_BACKUPS_SCRIPT : string.

(** *** The local files are left alone *)

Lemma same_files_refl (w : world) : same_files w w.
Proof. reflexivity. Qed.

Lemma same_files_trans (a b c : world) :
  same_files a b -> same_files b c -> same_files a c.
Proof. unfold same_files; congruence. Qed.

Lemma same_files_of_frame {A : Type} (m : M A) :
  preserves frame m -> preserves same_files m.
Proof. intros H w r w' E. now apply H in E as (_ & _ & Hf & _). Qed.

Lemma frame_establish_target_host_connection (shell_prompt_pattern : pattern)
      (shell_prompt_timeout : N) :
  preserves frame
    (establish_target_host_connection shell_prompt_pattern shell_prompt_timeout).
Proof.
  unfold establish_target_host_connection.
  apply (preserves_bind frame frame_trans); [|intros _].
  - apply (preserves_try_except frame frame_trans);
      [apply frame_verify_gateway_session_token|].
    intros e h Hh.
    destruct (isinstance e cRuntimeError); inversion Hh; auto with calls.
  - apply (preserves_bind frame frame_trans); [|intros [output exit_code]].
    + unfold nested_ssh.
      apply (preserves_bind frame frame_trans); [|intros ?; apply frame_run].
      intros w r w' H; inversion H; subst; apply frame_refl.
    + apply (preserves_if frame); [auto with calls|].
      apply (preserves_bind frame frame_trans); [|intros _].
      * apply (preserves_try_except frame frame_trans).
        -- apply (preserves_bind frame frame_trans);
             [apply frame_run | intros ?; auto with calls].
        -- intros e h Hh.
           destruct (isinstance e cTimeoutError
                     || isinstance e cCommandTimeoutError);
             inversion Hh; auto with calls.
      * apply (preserves_try_except frame frame_trans);
          [apply frame_verify_target_session_token|].
        intros e h Hh.
        destruct (isinstance e cTargetSessionInactiveError); inversion Hh;
          auto with calls.
Qed.

Lemma same_files_establish_gateway_connection (shell_prompt_pattern : pattern)
      (connection_timeout shell_prompt_timeout : N) :
  preserves same_files
    (establish_gateway_connection shell_prompt_pattern connection_timeout
       shell_prompt_timeout).
Proof.
  assert (Hgo : forall k : unit -> M unit,
             (forall u, preserves same_files (k u)) ->
             preserves same_files
               (bind
                  (try_except
                     (SSHConnection.connect connection_timeout
                        shell_prompt_timeout shell_prompt_pattern)
                     (fun e => if isinstance e cException
                               then Some (raise (GatewaySSHConnectionError
                                            "Error occurred while establishing gateway connection"))
                               else None)) k)).
  { intros k Hk.
    apply (preserves_bind same_files same_files_trans); [|exact Hk].
    apply (preserves_try_except same_files same_files_trans).
    - intros w r w' H. now apply connect_cases in H as (_ & _ & Hf & _).
    - intros e h Hh. simpl in Hh. inversion Hh.
      apply (preserves_raise same_files same_files_refl). }
  assert (Hk : preserves same_files
                 (SSHConnection.run
                    (set_shell_env_variable_raw_command GATEWAY_SESSION_VAR
                       SESSION_VAR_VALUE)
                    10000 None None DEFAULT_EXITCODE_DELIMITER ;;
                  verify_gateway_session_token)).
  { apply same_files_of_frame.
    apply (preserves_bind frame frame_trans);
      [apply frame_run | intros _; apply frame_verify_gateway_session_token]. }
  intros w r w' H. unfold establish_gateway_connection in H.
  destruct (channel w).
  - revert H. apply Hgo. intros _; exact Hk.
  - inversion H; subst. apply same_files_refl.
  - revert H. apply Hgo. intros _; exact Hk.
Qed.

Lemma same_files_session_connect
      (shell_gateway_prompt_pattern shell_target_prompt_pattern : pattern)
      (connection_timeout shell_prompt_timeout : N) :
  preserves same_files
    (RecursiveSSHSession.connect shell_gateway_prompt_pattern
       shell_target_prompt_pattern connection_timeout shell_prompt_timeout).
Proof.
  unfold RecursiveSSHSession.connect.
  apply (preserves_bind same_files same_files_trans);
    [apply same_files_establish_gateway_connection | intros _].
  apply same_files_of_frame, frame_establish_target_host_connection.
Qed.

Lemma same_files_group_connect (self : SerialRecursiveSSHGroup.t)
      (target : SSHConnectionData) :
  preserves same_files (SerialRecursiveSSHGroup.connect self target).
Proof.
  intros w r w' H. unfold SerialRecursiveSSHGroup.connect in H.
  unfold bind at 1 in H. apply same_files_session_connect in H. exact H.
Qed.







Lemma same_files_close : preserves same_files SSHConnection.close.
Proof.
  intros w r w' H. unfold SSHConnection.close in H.
  destruct (channel w); inversion H; subst; reflexivity.
Qed.

(** *** A script read from its file *)

Lemma run_bash_script_on_target_found (target : SSHConnectionData)
      (s : TargetBashScript.t) (content : string) (w : world) :
  TargetBashScript.from_file s = true ->
  read_text (files w) (TargetBashScript.script s) = Some content ->
  SerialRecursiveSSHGroup._run_bash_script_on_target target s w
  = SerialRecursiveSSHGroup._run_bash_script_on_target target
      (inline_script s content) w.
Proof.
  intros Hf Hr. unfold SerialRecursiveSSHGroup._run_bash_script_on_target.
  simpl. destruct (TargetBashScript.run_as_root s); [|reflexivity].
  unfold run_bash_script_at_target_as_root.
  destruct (verify_target_session_token w) as [[u|e] w1] eqn:Ev.
  - rewrite !(bind_ok_l _ _ _ _ _ Ev).
    apply frame_verify_target_session_token in Ev as (_ & _ & Hfi & _).
    unfold run_bash_script_as_root, bind, format_script.
    rewrite Hf, Hfi. unfold bash_script_from_local_file. rewrite Hr.
    reflexivity.
  - now rewrite !(bind_raise_l _ _ _ _ _ Ev).
Qed.

Lemma run_target_script_found (self : SerialRecursiveSSHGroup.t)
        (target : SSHConnectionData) (s : TargetBashScript.t)
        (content : string) (w : world) :
  TargetBashScript.from_file s = true ->
  read_text (files w) (TargetBashScript.script s) = Some content ->
  SerialRecursiveSSHGroup.run_target self target [BashScript s] w
  = SerialRecursiveSSHGroup.run_target self target
      [BashScript (inline_script s content)] w.
Proof.
  intros Hf Hr. unfold SerialRecursiveSSHGroup.run_target. simpl.
  unfold bind, ret.
  assert (E : SerialRecursiveSSHGroup.run_target_try self target [BashScript s] w
              = SerialRecursiveSSHGroup.run_target_try self target
                  [BashScript (inline_script s content)] w).
  { unfold SerialRecursiveSSHGroup.run_target_try.
    destruct (SerialRecursiveSSHGroup.connect self target w) as [[u|e] w1] eqn:Ec;
      [|reflexivity].
    apply same_files_group_connect in Ec.
    assert (Ec' : SerialRecursiveSSHGroup.run_commands target [BashScript s] w1
                  = SerialRecursiveSSHGroup.run_commands target
                      [BashScript (inline_script s content)] w1).
    { simpl. unfold bind at 1 4.
      rewrite (run_bash_script_on_target_found target s content w1 Hf);
        [reflexivity | now rewrite Ec]. }
    now rewrite Ec'. }
  now rewrite E.
Qed.

(** Running a script from a file that is there is running its text: the
    file is read when the script is due, and a run of the one is, step for
    step, a run of the other. *)
Theorem script_file_runs_as_its_text (self : SerialRecursiveSSHGroup.t)
        (target : SSHConnectionData) (s : TargetBashScript.t)
        (content : string) (w : world) :
  TargetBashScript.from_file s = true ->
  read_text (files w) (TargetBashScript.script s) = Some content ->
  SerialRecursiveSSHGroup.run_target self target [BashScript s] w
  = SerialRecursiveSSHGroup.run_target self target
      [BashScript (inline_script s content)] w.
Proof.
  apply run_target_script_found.
Qed.

Lemma script_file_runs_as_its_text_witness :
  SerialRecursiveSSHGroup.run_target (Scenario.batch Scenario.three_targets)
    (Scenario.appliance "10.0.0.5")
    [BashScript
       {| TargetBashScript.script := "scripts/backups.sh";
          TargetBashScript.args := None;
          TargetBashScript.from_file := true;
          TargetBashScript.hide_output := true;
          TargetBashScript.responders := [];
          TargetBashScript.break_on := None;
          TargetBashScript.timeout := 60000;
          TargetBashScript.run_as_root := true |}]
    (backup_host [] [false])
  = SerialRecursiveSSHGroup.run_target (Scenario.batch Scenario.three_targets)
      (Scenario.appliance "10.0.0.5")
      [BashScript
         {| TargetBashScript.script := "n2os-backup";
            TargetBashScript.args := None;
            TargetBashScript.from_file := false;
            TargetBashScript.hide_output := true;
            TargetBashScript.responders := [];
            TargetBashScript.break_on := None;
            TargetBashScript.timeout := 60000;
            TargetBashScript.run_as_root := true |}]
      (backup_host [] [false]).
Proof.
  exact (script_file_runs_as_its_text (Scenario.batch Scenario.three_targets)
           (Scenario.appliance "10.0.0.5")
           {| TargetBashScript.script := "scripts/backups.sh";
              TargetBashScript.args := None;
              TargetBashScript.from_file := true;
              TargetBashScript.hide_output := true;
              TargetBashScript.responders := [];
              TargetBashScript.break_on := None;
              TargetBashScript.timeout := 60000;
              TargetBashScript.run_as_root := true |}
           "n2os-backup" (backup_host [] [false]) eq_refl eq_refl).
Defined.

(** *** One result for each target *)






End RunnerCoverage.


(** *** The station data *)

Section StationCoverage.
Import BackupsRunner.

Lemma get_machine_password_done (self : BackupsRunner.t) (ip : option string)
      (pw : string) :
  get_machine_password self ip = Done pw ->
  exists a, ip = Some a /\ dict_get (station_secrets self) a = Some pw.
Proof.
  unfold get_machine_password. destruct ip as [a|]; [|discriminate].
  destruct (dict_get (station_secrets self) a) eqn:E; [|discriminate].
  intros H; inversion H; subst. now exists a.
Qed.

Lemma get_machine_password_failed (self : BackupsRunner.t) (ip : option string)
      (e : runner_exn) :
  get_machine_password self ip = Failed e ->
  exists msg, e = MachinePasswordMissingError msg.
Proof.
  unfold get_machine_password.
  destruct (match ip with Some a => dict_get (station_secrets self) a
                        | None => None end);
    intros H; inversion H; subst. eexists; reflexivity.
Qed.

Lemma build_targets_loop_done (self : BackupsRunner.t) (machines : list machine) :
  forall acc targets,
    build_targets_loop self machines acc = Done targets ->
    exists more, targets = (acc ++ more)%list /\ Forall2 (serves self) machines more.
Proof.
  induction machines as [|m machines IH]; intros acc targets H; simpl in H.
  - inversion H; subst. exists []. rewrite app_nil_r. split; constructor.
  - destruct (get_machine_password self (ip_external m)) as [pw|e] eqn:Ep;
      [|discriminate].
    apply get_machine_password_done in Ep as (a & Ha & Hd).
    apply IH in H as (more & -> & Hall).
    exists (connection_data self m pw :: more).
    rewrite <- app_assoc. split; [reflexivity|].
    constructor; [|exact Hall].
    unfold serves, connection_data; simpl. rewrite Ha; simpl.
    now repeat split.
Qed.

Lemma build_targets_loop_failed (self : BackupsRunner.t) (machines : list machine) :
  forall acc e,
    build_targets_loop self machines acc = Failed e ->
    exists msg, e = MachinePasswordMissingError msg.
Proof.
  induction machines as [|m machines IH]; intros acc e H; simpl in H;
    [discriminate|].
  destruct (get_machine_password self (ip_external m)) as [pw|e'] eqn:Ep.
  - exact (IH _ _ H).
  - inversion H; subst. exact (get_machine_password_failed _ _ _ Ep).
Qed.

(** The targets of a backup are the appliances in use, in the order of the
    station data: one connection for each [GUARDIAN] that is not pending,
    to its external address, with the password kept for that address.  The
    list is built only if every one of them has a password. *)
Theorem targets_are_the_guardians_in_use (self : BackupsRunner.t)
        (targets : list SSHConnectionData) :
  build_target_ssh_connection_data_instances self = Done targets ->
  Forall2 (serves self) (get_target_machines self) targets
  /\ Forall (fun m => In m (station_data self)
                      /\ type m = "GUARDIAN" /\ state m <> "pendiente")
       (get_target_machines self).
Proof.
  unfold build_target_ssh_connection_data_instances; intros H.
  apply build_targets_loop_done in H as (more & -> & Hall).
  split; [exact Hall|].
  apply Forall_forall. intros m Hm. unfold get_target_machines in Hm.
  apply filter_In in Hm as [Hin Hf].
  apply andb_true_iff in Hf as [Ht Hs].
  apply String.eqb_eq in Ht.
  split; [exact Hin | split; [exact Ht|]].
  intros E. rewrite E in Hs. discriminate.
Qed.

Lemma targets_are_the_guardians_in_use_witness :
  exists targets,
    build_target_ssh_connection_data_instances pilot_station = Done targets
    /\ Forall2 (serves pilot_station) (get_target_machines pilot_station) targets.
Proof.
  eexists; split; [reflexivity|].
  exact (proj1 (targets_are_the_guardians_in_use pilot_station _ eq_refl)).
Defined.

(** The gateway is the one machine of type [CMC] of the station data; no
    backup is run on it. *)
Theorem gateway_is_the_one_cmc (self : BackupsRunner.t) (cmc : machine) :
  get_gateway_machine self = Done cmc ->
  In cmc (station_data self)
  /\ type cmc = "CMC"
  /\ (forall m, In m (station_data self) -> type m = "CMC" -> m = cmc)
  /\ ~ In cmc (get_target_machines self).
Proof.
  unfold get_gateway_machine; intros H.
  destruct (filter (fun m => String.eqb (type m) "CMC") (station_data self))
    as [|c [|c2 rest]] eqn:Ef; try discriminate.
  inversion H; subst c; clear H.
  assert (Hc : In cmc (filter (fun m => String.eqb (type m) "CMC")
                         (station_data self))) by (rewrite Ef; now left).
  apply filter_In in Hc as [Hin Ht]. apply String.eqb_eq in Ht.
  split; [exact Hin | split; [exact Ht | split]].
  - intros m Hm Hmt.
    assert (Hi : In m (filter (fun m => String.eqb (type m) "CMC")
                         (station_data self))).
    { apply filter_In; split; [exact Hm | now apply String.eqb_eq]. }
    rewrite Ef in Hi. destruct Hi as [<-|[]]. reflexivity.
  - unfold get_target_machines. intros Hi.
    apply filter_In in Hi as [_ Hf]. rewrite Ht in Hf. discriminate.
Qed.

Lemma gateway_is_the_one_cmc_witness :
  exists cmc,
    get_gateway_machine pilot_station = Done cmc
    /\ type cmc = "CMC" /\ ~ In cmc (get_target_machines pilot_station).
Proof.
  eexists; split; [reflexivity|].
  destruct (gateway_is_the_one_cmc pilot_station _ eq_refl) as (_ & H1 & _ & H2).
  split; [exact H1 | exact H2].
Defined.

Lemma build_gateway_failed (self : BackupsRunner.t) (e : runner_exn) :
  build_gateway_ssh_connection_data_instance self = Failed e ->
  station_data_error e = true.
Proof.
  unfold build_gateway_ssh_connection_data_instance, get_gateway_machine.
  destruct (filter (fun m => String.eqb (type m) "CMC") (station_data self))
    as [|c [|c2 rest]]; try (intros H; inversion H; subst; reflexivity).
  destruct (get_machine_password self (ip_external c)) as [pw|e'] eqn:Ep;
    [discriminate|].
  intros H; inversion H; subst.
  apply get_machine_password_failed in Ep as [msg ->]. reflexivity.
Qed.

Variable REMOTE_BACKUP_FILEPATH_REGEX : string -> option string.
Variable DEFAULT_SHELL_PROMPT_PATTERN : pattern.
Variable BASH_BACKUPS_SCRIPT : string.

(** The passwords are all looked up before the first connection: when the
    password of one appliance in use is missing, be it the last of the
    station, the generator raises at once, with nothing yielded, no channel
    opened and nothing written. *)
Theorem missing_password_stops_backup_before_connecting
        (self : BackupsRunner.t) (m : machine) (e0 : runner_exn) (w : world) :
  In m (get_target_machines self) ->
  get_machine_password self (ip_external m) = Failed e0 ->
  exists e,
    backup_generator REMOTE_BACKUP_FILEPATH_REGEX DEFAULT_SHELL_PROMPT_PATTERN
      BASH_BACKUPS_SCRIPT self w = (([], Failed e), w)
    /\ station_data_error e = true.
Proof.
  intros Hm Hp. unfold backup_generator.
  destruct (build_gateway_ssh_connection_data_instance self) as [gw|e] eqn:Eg.
  2:{ exists e; split; [reflexivity | exact (build_gateway_failed self e Eg)]. }
  destruct (build_target_ssh_connection_data_instances self) as [ts|e] eqn:Et.
  - exfalso. unfold build_target_ssh_connection_data_instances in Et.
    apply build_targets_loop_done in Et as (more & _ & Hall).
    revert Hm Hp. clear -Hall. induction Hall as [|m' t' ms ts' Hs _ IH].
    + intros [].
    + intros [<-|Hin] Hp; [|now apply IH].
      destruct Hs as (Hip & _ & Hd & _).
      unfold get_machine_password in Hp. rewrite Hip, Hd in Hp. discriminate.
  - exists e; split; [reflexivity|].
    apply build_targets_loop_failed in Et as [msg ->]. reflexivity.
Qed.

(** A station with no appliance in use cannot be backed up: the group
    refuses an empty target list, and the generator raises [ValueError]
    before any connection. *)
Theorem backup_needs_a_target (self : BackupsRunner.t)
        (gateway_connection_data : SSHConnectionData) (w : world) :
  build_gateway_ssh_connection_data_instance self
  = Done gateway_connection_data ->
  get_target_machines self = [] ->
  backup_generator REMOTE_BACKUP_FILEPATH_REGEX DEFAULT_SHELL_PROMPT_PATTERN
    BASH_BACKUPS_SCRIPT self w
  = (([], Failed (ValueError "Target list must not be empty.")), w).
Proof.
  intros Hg Ht. unfold backup_generator.
  rewrite Hg. unfold build_target_ssh_connection_data_instances.
  rewrite Ht. reflexivity.
Qed.

End StationCoverage.

Lemma missing_password_stops_backup_before_connecting_witness :
  exists e,
    BackupsRunner.backup_generator no_path Scenario.prompt "scripts/backups.sh"
      station_without_password (backup_host Scenario.gateway_login [true])
    = (([], BackupsRunner.Failed e), backup_host Scenario.gateway_login [true])
    /\ station_data_error e = true.
Proof.
  refine (missing_password_stops_backup_before_connecting no_path
            Scenario.prompt "scripts/backups.sh" station_without_password
            {| BackupsRunner.machine_name := "guardian-3";
               BackupsRunner.type := "GUARDIAN";
               BackupsRunner.state := "aprendizaje";
               BackupsRunner.ip_external := Some "192.0.2.7";
               BackupsRunner.ip_internal := Some "10.0.0.7" |}
            _ (backup_host Scenario.gateway_login [true]) _ eq_refl).
  simpl; tauto.
Defined.

Lemma backup_needs_a_target_witness :
  BackupsRunner.backup_generator no_path Scenario.prompt "scripts/backups.sh"
    station_without_targets (backup_host Scenario.gateway_login [true])
  = (([], BackupsRunner.Failed
            (BackupsRunner.ValueError "Target list must not be empty.")),
     backup_host Scenario.gateway_login [true]).
Proof.
  exact (backup_needs_a_target no_path Scenario.prompt "scripts/backups.sh"
           station_without_targets _ (backup_host Scenario.gateway_login [true])
           eq_refl eq_refl).
Defined.

(** ** responders.py *)

Section ResponderCoverage.
Import PyStr CommandFormatter Responders.

Lemma search_by_sound (here : string -> bool) (s : string) :
  search_by here s = true ->
  exists before after, s = before ++ after /\ here after = true.
Proof.
  induction s as [|a s IH]; simpl; intros H.
  - rewrite orb_false_r in H. now exists "", "".
  - apply orb_true_iff in H as [H|H].
    + now exists "", (String a s).
    + destruct (IH H) as (before & after & -> & Ha).
      now exists (String a before), after.
Qed.

Lemma lower_split (s : string) :
  forall x' c' rest',
    lower s = x' ++ String c' rest' ->
    exists x c rest,
      s = x ++ String c rest /\ lower x = x' /\ lower_char c = c'
      /\ lower rest = rest'.
Proof.
  induction s as [|a s IH]; intros x' c' rest' H; simpl in H.
  - destruct x'; discriminate.
  - destruct x' as [|y x']; simpl in H; inversion H; subst.
    + now exists "", a, s.
    + destruct (IH _ _ _ H2) as (x & c & rest & -> & <- & <- & <-).
      now exists (String a x), c, rest.
Qed.

Lemma is_space_lower_char (c : ascii) : is_space (lower_char c) = is_space c.
Proof. destruct c as [[] [] [] [] [] [] [] []]; reflexivity. Qed.

Lemma line_feed_lower_char (c : ascii) :
  Ascii.eqb (lower_char c) (ascii_of_nat 10) = Ascii.eqb c (ascii_of_nat 10).
Proof. destruct c as [[] [] [] [] [] [] [] []]; reflexivity. Qed.

Lemma colon_lower_char (c : ascii) :
  Ascii.eqb ":" (lower_char c) = Ascii.eqb ":" c.
Proof. destruct c as [[] [] [] [] [] [] [] []]; reflexivity. Qed.

Lemma contains_colon_cons (c : ascii) (t : string) :
  contains ":" (String c t) = Ascii.eqb ":" c || contains ":" t.
Proof.
  change (contains ":" (String c t))
    with (match strip_prefix ":" (String c t) with
          | Some _ => true
          | None => contains ":" t
          end).
  change (strip_prefix ":" (String c t))
    with (if Ascii.eqb ":" c then Some t else None).
  destruct (Ascii.eqb ":" c); reflexivity.
Qed.

Lemma colon_in_line_lower (rest : string) :
  contains ":" (line_head (lower rest)) = contains ":" (line_head rest).
Proof.
  induction rest as [|c rest IH]; [reflexivity|].
  cbn [lower line_head]. rewrite line_feed_lower_char.
  destruct (Ascii.eqb c (ascii_of_nat 10)); [reflexivity|].
  now rewrite !contains_colon_cons, colon_lower_char, IH.
Qed.

Lemma login_password_pattern_shape (s : string) :
  login_password_pattern s = true ->
  exists before c rest,
    s = before ++ String c rest
    /\ (exists head, lower before = head ++ "password")
    /\ is_space c = true
    /\ contains ":" (line_head rest) = true.
Proof.
  unfold login_password_pattern; intros H.
  apply search_by_sound in H as (b & after & Hs & Hh).
  destruct (strip_prefix "password" after) as [[|c' rest']|] eqn:Ep;
    try discriminate.
  apply strip_prefix_sound in Ep. subst after.
  apply andb_true_iff in Hh as [Hc Hcol].
  rewrite <- append_assoc in Hs.
  apply lower_split in Hs as (x & c & rest & -> & Hx & <- & <-).
  exists x, c, rest. split; [reflexivity|]. split; [now exists b|].
  rewrite is_space_lower_char in Hc. rewrite colon_in_line_lower in Hcol.
  now split.
Qed.

(** The responder for the password prompt of [ssh] answers only where the
    word [password], in any case, is followed by white space and then, on
    the same line, by a colon. *)
Theorem login_prompt_needs_space_then_colon (s : string) :
  login_password_pattern s = true ->
  exists before c rest,
    s = before ++ String c rest
    /\ (exists head, lower before = head ++ "password")
    /\ is_space c = true
    /\ contains ":" (line_head rest) = true.
Proof. apply login_password_pattern_shape. Qed.

Lemma login_prompt_needs_space_then_colon_witness :
  exists before c rest,
    "Password for admin@Nozomi-Copey:" = before ++ String c rest
    /\ (exists head, lower before = head ++ "password")
    /\ is_space c = true
    /\ contains ":" (line_head rest) = true.
Proof.
  exact (login_prompt_needs_space_then_colon "Password for admin@Nozomi-Copey:"
           eq_refl).
Defined.

Lemma first_space (a : string) (sp : ascii) (t : string) :
  all_chars not_space a = true ->
  forall before c rest,
    a ++ String sp t = before ++ String c rest ->
    is_space c = true ->
    (before = a /\ rest = t)
    \/ (exists between, t = between ++ String c rest).
Proof.
  intros Ha; induction a as [|y a IH]; intros before c rest E Hc.
  - destruct before as [|x b]; simpl in E; inversion E; subst.
    + now left.
    + right. now exists b.
  - simpl in Ha; apply andb_true_iff in Ha as [Hy Ha].
    destruct before as [|x b]; simpl in E; inversion E; subst.
    + unfold not_space in Hy. rewrite Hc in Hy. discriminate.
    + destruct (IH Ha _ _ _ H1 Hc) as [[-> ->]|Hr]; [now left | now right].
Qed.

Lemma lower_app (a b : string) : lower (a ++ b) = lower a ++ lower b.
Proof. induction a as [|c a IH]; simpl; [reflexivity | now rewrite IH]. Qed.

(** The prompt of OpenSSH, [user@host's password: ], has a colon right
    after the word [password], not white space: the responder for the login
    password does not answer it. *)
Theorem openssh_prompt_is_not_answered (who : string) :
  all_chars not_space who = true ->
  login_password_pattern (who ++ "'s password: ") = false.
Proof.
  intros Hw.
  destruct (login_password_pattern (who ++ "'s password: ")) eqn:E;
    [|reflexivity].
  exfalso.
  apply login_password_pattern_shape in E
    as (before & c & rest & Hs & [head Hh] & Hc & Hcol).
  assert (Hs' : (who ++ "'s") ++ String " " ("password:" ++ String " " "")
                = before ++ String c rest).
  { rewrite <- Hs. rewrite append_assoc. reflexivity. }
  apply first_space in Hs';
    [|rewrite all_chars_app, Hw; reflexivity | exact Hc].
  destruct Hs' as [[-> _]|[between Hb]].
  - rewrite lower_app in Hh.
    change (head ++ "password") with (head ++ "passwo" ++ "rd") in Hh.
    rewrite <- append_assoc in Hh.
    apply append_tail_inj in Hh; [discriminate Hh | reflexivity].
  - apply first_space in Hb; [|reflexivity | exact Hc].
    destruct Hb as [[_ ->]|[b' Hb]]; [discriminate Hcol|].
    destruct b'; discriminate Hb.
Qed.

Lemma openssh_prompt_is_not_answered_witness :
  login_password_pattern ("admin@10.210.175.116" ++ "'s password: ") = false.
Proof.
  exact (openssh_prompt_is_not_answered "admin@10.210.175.116" eq_refl).
Defined.

End ResponderCoverage.
